(** * ZenBin outbound relay: SSRF address classifier, target resolver and relay executor

    A shallow embedding of [src/utils/ssrf.ts] (isPrivateIP, isPrivateIPv4,
    isPrivateIPv6, normalizeIPv6, resolveAndValidate) and of the relay
    handler of [src/routes/proxy.ts], with the JavaScript primitives they
    rest on (String.prototype.split, Number, parseInt, ...). *)

From Stdlib Require Import ZArith QArith Lia List Ascii String Bool.
From stdpp Require Import gmap list.
Import ListNotations.

Local Close Scope Q_scope.
Local Open Scope Z_scope.

(** ** JavaScript strings and numbers *)

Module JS.

(** A JavaScript string is a sequence of UTF-16 code units. *)
Abbreviation jsstring := (list N).

Definition chr (a : ascii) : N := N_of_ascii a.
Arguments chr : simpl never.

(** The string written by an ASCII literal. *)
Definition js (s : string) : jsstring := map chr (list_ascii_of_string s).

(** [a === b] on strings. *)
Fixpoint str_eqb (a b : jsstring) : bool :=
  match a, b with
  | [], [] => true
  | x :: a', y :: b' => N.eqb x y && str_eqb a' b'
  | _, _ => false
  end.

(** [s.startsWith(p)]. *)
Fixpoint startsWith (p s : jsstring) : bool :=
  match p, s with
  | [], _ => true
  | x :: p', y :: s' => N.eqb x y && startsWith p' s'
  | _ :: _, [] => false
  end.

(** [s.includes(sub)]. *)
Fixpoint includes (sub s : jsstring) : bool :=
  startsWith sub s ||
  match s with
  | [] => false
  | _ :: s' => includes sub s'
  end.

Definition cons_head (c : N) (l : list jsstring) : list jsstring :=
  match l with
  | h :: t => (c :: h) :: t
  | [] => [[c]]
  end.

(** [s.split(sep)] for a non-empty separator: the occurrences of [sep] are
    found from the left and do not overlap; [skip] counts the code units of
    a separator already matched that are still to be passed over. *)
Fixpoint split_from (sep : jsstring) (skip : nat) (s : jsstring) : list jsstring :=
  match s with
  | [] => [[]]
  | c :: s' =>
      match skip with
      | S k => split_from sep k s'
      | O =>
          if startsWith sep s
          then [] :: split_from sep (Nat.pred (List.length sep)) s'
          else cons_head c (split_from sep O s')
      end
  end.

Definition split (sep s : jsstring) : list jsstring := split_from sep O s.

(** [parts.join(sep)]. *)
Fixpoint join (sep : jsstring) (parts : list jsstring) : jsstring :=
  match parts with
  | [] => []
  | [p] => p
  | p :: rest => p ++ sep ++ join sep rest
  end.

(** [s.slice(-n)]: the last [n] code units (all of [s] when it is shorter). *)
Definition slice_last (n : nat) (s : jsstring) : jsstring :=
  skipn (List.length s - n)%nat s.

(** [s.slice(i, j)] and [s.substring(i, j)] for [0 <= i <= j]. *)
Definition slice (i j : nat) (s : jsstring) : jsstring :=
  firstn (j - i)%nat (skipn i s).

(** [s.padStart(n, '0')]. *)
Definition padStart0 (n : nat) (s : jsstring) : jsstring :=
  repeat (chr "0") (n - List.length s)%nat ++ s.

Definition is_upper (c : N) : bool := (N.leb (chr "A") c && N.leb c (chr "Z"))%bool.

Definition is_lower (c : N) : bool := (N.leb (chr "a") c && N.leb c (chr "z"))%bool.
Definition is_ascii (c : N) : bool := N.ltb c 128.

(** The case mappings of the engine's Unicode tables, which give the lower
    and the upper case of a string that holds a code unit outside ASCII.
    (They are not maps of code units: U+212A has the lower case [k], U+0130
    one of two code units, U+017F the upper case [S], U+FB06 the two
    letters [ST].) *)
Class Unicode : Type := {
  unicode_lower : jsstring -> jsstring;
  unicode_upper : jsstring -> jsstring
}.

Definition lower_char (c : N) : N := if is_upper c then (c + 32)%N else c.
Definition upper_char (c : N) : N := if is_lower c then (c - 32)%N else c.

(** [s.toLowerCase()] and [s.toUpperCase()]: in an ASCII string the letters
    A-Z are mapped to a-z, or a-z to A-Z; any other string is mapped by the
    tables. *)
Definition toLowerCase {U : Unicode} (s : jsstring) : jsstring :=
  if forallb is_ascii s then map lower_char s else unicode_lower s.

Definition toUpperCase {U : Unicode} (s : jsstring) : jsstring :=
  if forallb is_ascii s then map upper_char s else unicode_upper s.

(** The lower case that takes no table: that of the [i] flag of a pattern
    without the [u] flag, under which no code unit outside ASCII matches an
    ASCII letter, and that of the names of a [Headers] object. *)
Definition ascii_lower (s : jsstring) : jsstring := map lower_char s.

Definition is_digit (c : N) : bool := (N.leb (chr "0") c && N.leb c (chr "9"))%bool.

(** The value of a digit in a radix up to 36; [None] for any other code unit. *)
Definition digit_value (c : N) : option Z :=
  if is_digit c then Some (Z.of_N c - 48)
  else if (N.leb (chr "a") c && N.leb c (chr "z"))%bool then Some (Z.of_N c - 87)
  else if (N.leb (chr "A") c && N.leb c (chr "Z"))%bool then Some (Z.of_N c - 55)
  else None.

Definition is_radix_digit (radix : Z) (c : N) : bool :=
  match digit_value c with
  | Some v => v <? radix
  | None => false
  end.

Definition is_hex (c : N) : bool := is_radix_digit 16 c.

(** The integer written by a string of digits of the radix, most
    significant first. *)
Definition digits_value (radix : Z) (ds : jsstring) : Z :=
  fold_left (fun acc c => acc * radix + default 0 (digit_value c)) ds 0.

(** WhiteSpace and LineTerminator code units (StrWhiteSpaceChar). *)
Definition is_space (c : N) : bool :=
  existsb (N.eqb c)
    [9; 10; 11; 12; 13; 32; 160; 5760; 8232; 8233; 8239; 8287; 12288; 65279]%N
  || (N.leb 8192 c && N.leb c 8202)%bool.

Fixpoint trimStart (s : jsstring) : jsstring :=
  match s with
  | c :: s' => if is_space c then trimStart s' else s
  | [] => []
  end.

Definition trim (s : jsstring) : jsstring := rev (trimStart (rev (trimStart s))).

(** The longest prefix of [s] whose code units satisfy [f], and the rest. *)
Fixpoint span (f : N -> bool) (s : jsstring) : jsstring * jsstring :=
  match s with
  | c :: s' => if f c then let (a, b) := span f s' in (c :: a, b) else ([], s)
  | [] => ([], [])
  end.

(** An optional sign: whether it is a minus, and the rest. *)
Definition take_sign (s : jsstring) : bool * jsstring :=
  match s with
  | c :: s' =>
      if N.eqb c (chr "-") then (true, s')
      else if N.eqb c (chr "+") then (false, s')
      else (false, s)
  | [] => (false, [])
  end.

(** *** Number values

    A Number is an IEEE 754 binary64 value.  Its finite values are carried
    as the rationals they denote; the two zeros are identified, as no
    operation used below tells them apart. *)
Inductive number : Type :=
| NaN
| Num (q : Q)
| PosInf
| NegInf.

Definition neg_number (x : number) : number :=
  match x with
  | NaN => NaN
  | Num q => Num (Qopp q)
  | PosInf => NegInf
  | NegInf => PosInf
  end.

(** The integer nearest to [n / d], ties to the even one ([n >= 0], [d > 0]). *)
Definition round_half_even (n d : Z) : Z :=
  let q := n / d in
  let r := n mod d in
  if 2 * r <? d then q
  else if d <? 2 * r then q + 1
  else if Z.even q then q else q + 1.

(** The binary64 value nearest to [n / d] ([n >= 0], [d > 0]): 53 bits of
    significand, least exponent -1074, overflow to infinity from 2^1024. *)
Definition binary64 (n d : Z) : number :=
  if n =? 0 then Num 0%Q
  else
    let g := Z.log2 n - Z.log2 d in
    let e0 := if 0 <=? g
              then (if d * 2 ^ g <=? n then g else g - 1)
              else (if d <=? n * 2 ^ (- g) then g else g - 1) in
    let e := Z.max (e0 - 52) (-1074) in
    if 0 <=? e
    then
      let m := round_half_even n (d * 2 ^ e) in
      if 2 ^ 1024 <=? m * 2 ^ e then PosInf else Num (inject_Z (m * 2 ^ e))
    else
      let m := round_half_even (n * 2 ^ (- e)) d in
      Num (Qmake m (Z.to_pos (2 ^ (- e)))).

(** The Number denoted by [m * 10^e] for a natural [m]. *)
Definition decimal_value (m e : Z) : number :=
  if 0 <=? e then binary64 (m * 10 ^ e) 1 else binary64 m (10 ^ (- e)).

(** A literal with a radix prefix: [0x], [0o], [0b] in either case. *)
Definition prefixed_literal (s : jsstring) : option number :=
  match s with
  | z :: p :: ds =>
      if N.eqb z (chr "0") then
        let lit radix :=
          if (negb (str_eqb ds []) && forallb (is_radix_digit radix) ds)%bool
          then Some (binary64 (digits_value radix ds) 1)
          else Some NaN in
        if (N.eqb p (chr "x") || N.eqb p (chr "X"))%bool then lit 16
        else if (N.eqb p (chr "o") || N.eqb p (chr "O"))%bool then lit 8
        else if (N.eqb p (chr "b") || N.eqb p (chr "B"))%bool then lit 2
        else None
      else None
  | _ => None
  end.

(** ExponentPart, when the rest of the literal is [s]: nothing, or [e]/[E],
    an optional sign and at least one digit up to the end. *)
Definition exponent_part (s : jsstring) : option Z :=
  match s with
  | [] => Some 0
  | c :: s' =>
      if (N.eqb c (chr "e") || N.eqb c (chr "E"))%bool then
        let (neg, ds) := take_sign s' in
        if (negb (str_eqb ds []) && forallb is_digit ds)%bool
        then Some (if neg then - digits_value 10 ds else digits_value 10 ds)
        else None
      else None
  end.

(** StrUnsignedDecimalLiteral: [Infinity], or digits with an optional
    fraction and exponent, at least one digit before the exponent. *)
Definition unsigned_decimal (s : jsstring) : number :=
  if str_eqb s (js "Infinity") then PosInf
  else
    let (ip, r1) := span is_digit s in
    let (fp, r2) :=
      match r1 with
      | c :: r1' => if N.eqb c (chr ".") then span is_digit r1' else ([], r1)
      | [] => ([], [])
      end in
    if (str_eqb ip [] && str_eqb fp [])%bool then NaN
    else
      match exponent_part r2 with
      | Some e => decimal_value (digits_value 10 (ip ++ fp)) (e - Z.of_nat (List.length fp))
      | None => NaN
      end.

(** [Number(s)] (StringToNumber). *)
Definition Number (s : jsstring) : number :=
  match trim s with
  | [] => Num 0%Q
  | t =>
      match prefixed_literal t with
      | Some x => x
      | None =>
          let (neg, u) := take_sign t in
          if neg then neg_number (unsigned_decimal u) else unsigned_decimal u
      end
  end.

Definition isNaN (x : number) : bool :=
  match x with NaN => true | _ => false end.

(** [x < y]; false when either is NaN. *)
Definition num_lt (x y : number) : bool :=
  match x, y with
  | NaN, _ | _, NaN => false
  | Num a, Num b => negb (Qle_bool b a)
  | NegInf, (Num _ | PosInf) => true
  | Num _, PosInf => true
  | _, _ => false
  end.

Definition num_gt (x y : number) : bool := num_lt y x.

(** [x <= y] and [x >= y]; false when either is NaN. *)
Definition num_le (x y : number) : bool :=
  match x, y with
  | NaN, _ | _, NaN => false
  | Num a, Num b => Qle_bool a b
  | NegInf, _ => true
  | _, PosInf => true
  | _, _ => false
  end.

Definition num_ge (x y : number) : bool := num_le y x.

(** [x === y] on numbers. *)
Definition num_eq (x y : number) : bool :=
  match x, y with
  | Num a, Num b => Qeq_bool a b
  | PosInf, PosInf | NegInf, NegInf => true
  | _, _ => false
  end.

Definition of_Z (z : Z) : number := Num (inject_Z z).

(** ToInt32: truncate, reduce modulo 2^32, read as a signed 32-bit integer. *)
Definition wrap32 (z : Z) : Z :=
  let m := z mod 2 ^ 32 in if 2 ^ 31 <=? m then m - 2 ^ 32 else m.

Definition ToInt32 (x : number) : Z :=
  match x with
  | Num q => wrap32 (Z.quot (Qnum q) (Z.pos (Qden q)))
  | _ => 0
  end.

(** [x << k] and [x | y] on Numbers, the result as a signed 32-bit integer. *)
Definition shl32 (x : number) (k : Z) : Z := wrap32 (Z.shiftl (ToInt32 x) k).
Definition or32 (x y : Z) : Z := Z.lor x y.

(** The digits of a natural in a radix, most significant first ([fuel]
    bounds their number). *)
Definition digit_char (d : Z) : N :=
  if d <? 10 then Z.to_N (48 + d) else Z.to_N (87 + d).

Fixpoint nat_digits (fuel : nat) (radix n : Z) (acc : jsstring) : jsstring :=
  match fuel with
  | O => acc
  | S k =>
      let acc' := digit_char (n mod radix) :: acc in
      if n / radix =? 0 then acc' else nat_digits k radix (n / radix) acc'
  end.

(** [n.toString(radix)] for an integer [n]. *)
Definition int_toString (radix n : Z) : jsstring :=
  let ds := nat_digits (S (Z.to_nat (Z.log2 (Z.abs n)))) radix (Z.abs n) [] in
  if n <? 0 then chr "-" :: ds else ds.

(** [parseInt(s, radix)] for a radix in 2..36: leading white space, an
    optional sign, for radix 16 an optional [0x], then the longest run of
    digits of the radix; [None] is NaN.  The result is the integer read; the
    callers below read at most four hexadecimal digits, or compare a decimal
    length with a limit below 2^53, where its rounding to a Number changes
    nothing. *)
Definition parseInt (s : jsstring) (radix : Z) : option Z :=
  let (neg, t) := take_sign (trimStart s) in
  let t' :=
    if (radix =? 16) && (startsWith (js "0x") t || startsWith (js "0X") t)
    then skipn 2 t else t in
  let ds := fst (span (is_radix_digit radix) t') in
  if str_eqb ds [] then None
  else Some (if neg then - digits_value radix ds else digits_value radix ds).

(** A parsed integer inside a template literal: [`${a}`]. *)
Definition show (a : option Z) : jsstring :=
  match a with
  | None => js "NaN"
  | Some z => int_toString 10 z
  end.

End JS.


(** ** Exceptions and effects *)

Module Eff.
Import JS.

(** What a [throw] carries: the error's class and its message. *)
Inductive exn : Type :=
| Error (msg : jsstring)
| RangeError (msg : jsstring)
| TypeError (msg : jsstring)
| AbortError (msg : jsstring).

(** [err.message] *)
Definition message (e : exn) : jsstring :=
  match e with Error m | RangeError m | TypeError m | AbortError m => m end.

(** The outcome of a call that may throw. *)
Inductive result (A : Type) : Type :=
| Ret (a : A)
| Throw (e : exn).
Arguments Ret {A} a.
Arguments Throw {A} e.

#[global] Instance result_bind : MBind result := fun A B k r =>
  match r with
  | Ret a => k a
  | Throw e => Throw e
  end.

(** [Array(n)] with a negative length, and a method call on [undefined]:
    the messages are the engine's (V8's here). *)
Definition invalid_array_length : exn := RangeError (js "Invalid array length").
Definition undefined_slice : exn :=
  TypeError (js "Cannot read properties of undefined (reading 'slice')").

(** An object literal [{}] used as a string-keyed map. *)
Abbreviation obj := (gmap (list N) (list N)).

(** [o[k] = v] for a string [v] on an object created by [{}].  The key
    [__proto__] reaches the accessor inherited from Object.prototype, whose
    setter ignores a value that is neither an object nor null: no own
    property is created. *)
Definition obj_set (k v : jsstring) (o : obj) : obj :=
  if str_eqb k (js "__proto__") then o else <[k := v]> o.

(** The options of one [fetch] call ([signal] and [redirect: 'manual'] are
    the same in every call). *)
Record FetchOptions : Type := {
  fo_method : jsstring;
  fo_headers : obj;
  fo_body : option jsstring
}.

(** The body of a response as its reader delivers it: the chunks that
    [read()] resolves with, then either [done] or a rejection. *)
Record BodyStream : Type := {
  chunks : list (list N);
  failure : option exn
}.

Record Response : Type := {
  status : Z;
  statusText : jsstring;
  headers : list (jsstring * jsstring);  (* as [headers.forEach] visits them *)
  body : option BodyStream
}.

(** [new URL(s)], as far as the code reads it. *)
Record URL : Type := {
  protocol : jsstring;
  hostname : jsstring
}.

(** The platform under the code: the URL parser, the resolver, [fetch],
    JSON and the text decoder.  [World] is whatever state the network has;
    every lookup and every fetch may change it, so two lookups of one name
    need not agree. *)
Record Platform (World Json : Type) : Type := {
  parseURL : jsstring -> option URL;
  (* [new URL(location, base).toString()] *)
  resolveURL : jsstring -> jsstring -> result jsstring;
  resolve4 : jsstring -> World -> result (list jsstring) * World;
  resolve6 : jsstring -> World -> result (list jsstring) * World;
  fetch : jsstring -> FetchOptions -> World -> result Response * World;
  JSON_parse : jsstring -> option Json;
  JSON_stringify : Json -> jsstring;
  (* a streaming [TextDecoder] fed the chunks in order, the pieces joined *)
  utf8_decode : list N -> jsstring
}.
Arguments parseURL {World Json} _ _.
Arguments resolveURL {World Json} _ _ _.
Arguments resolve4 {World Json} _ _ _.
Arguments resolve6 {World Json} _ _ _.
Arguments fetch {World Json} _ _ _ _.
Arguments JSON_parse {World Json} _ _.
Arguments JSON_stringify {World Json} _ _.
Arguments utf8_decode {World Json} _ _.

(** What the handler does to the outside, in order; a fetch is recorded
    with the state of the world in which it is issued. *)
Inductive Event (World : Type) : Type :=
| EvResolve4 (host : jsstring)
| EvResolve6 (host : jsstring)
| EvFetch (w : World) (url : jsstring) (opts : FetchOptions)
| EvRead (size : nat)
| EvCancel.
Arguments EvResolve4 {World} host.
Arguments EvResolve6 {World} host.
Arguments EvFetch {World} w url opts.
Arguments EvRead {World} size.
Arguments EvCancel {World}.

Record St (World : Type) : Type := {
  world : World;
  trace : list (Event World)   (* oldest first *)
}.
Arguments world {World} _.
Arguments trace {World} _.

(** A computation over the world that may throw.  [None] stands for a loop
    that has not ended within its fuel. *)
Definition M (World A : Type) : Type := St World -> option (result A * St World).

Section Monad.
Context {World : Type}.

Definition ret {A} (a : A) : M World A := fun s => Some (Ret a, s).
Definition throw {A} (e : exn) : M World A := fun s => Some (Throw e, s).
Definition lift {A} (r : result A) : M World A := fun s => Some (r, s).
Definition bindM {A B} (m : M World A) (k : A -> M World B) : M World B :=
  fun s =>
    match m s with
    | Some (Ret a, s') => k a s'
    | Some (Throw e, s') => Some (Throw e, s')
    | None => None
    end.

(** [try { m } catch (err) { h err }] *)
Definition try_catch {A} (m : M World A) (h : exn -> M World A) : M World A :=
  fun s =>
    match m s with
    | Some (Ret a, s') => Some (Ret a, s')
    | Some (Throw e, s') => h e s'
    | None => None
    end.

(** The outcome of [m] as a value. *)
Definition attempt {A} (m : M World A) : M World (result A) :=
  try_catch (bindM m (fun a => ret (Ret a))) (fun e => ret (Throw e)).

Definition emit (ev : Event World) : M World unit :=
  fun s => Some (Ret tt, {| world := world s; trace := trace s ++ [ev] |}).

(** A call of the platform, recorded in the trace. *)
Definition call {A} (ev : World -> Event World) (f : World -> result A * World) : M World A :=
  fun s =>
    let (r, w) := f (world s) in
    Some (r, {| world := w; trace := trace s ++ [ev (world s)] |}).

Definition out_of_fuel {A} : M World A := fun _ => None.

End Monad.

#[global] Instance M_bind {World} : MBind (M World) := fun A B k m => bindM m k.

End Eff.

(** ** The address classifier and the target resolver (src/utils/ssrf.ts) *)

Module Ssrf.
Import JS Eff.

Definition BLOCKED_HOSTNAMES : list jsstring :=
  [js "localhost"; js "metadata.google.internal"; js "metadata.goog"].

(** [isNaN(p) || p < 0 || p > 255] *)
Definition bad_octet (p : number) : bool :=
  isNaN p || num_lt p (of_Z 0) || num_gt p (of_Z 255).

Definition isPrivateIPv4 (ip : jsstring) : bool :=
  let parts := map Number (split (js ".") ip) in
  if negb (Nat.eqb (List.length parts) 4) || existsb bad_octet parts then
    true (* Invalid IP, treat as blocked *)
  else
    let a := nth 0 parts NaN in
    let b := nth 1 parts NaN in
    if num_eq a (of_Z 127) then true
    else if num_eq a (of_Z 10) then true
    else if num_eq a (of_Z 172) && num_ge b (of_Z 16) && num_le b (of_Z 31) then true
    else if num_eq a (of_Z 192) && num_eq b (of_Z 168) then true
    else if num_eq a (of_Z 169) && num_eq b (of_Z 254) then true
    else if num_eq a (of_Z 0) then true
    else false.

(** [\d+\.\d+\.\d+\.\d+] over the whole of [s]. *)
Definition dotted_digits (s : jsstring) : bool :=
  let parts := split (js ".") s in
  Nat.eqb (List.length parts) 4
  && forallb (fun p => negb (str_eqb p []) && forallb is_digit p) parts.

(** [ip.match(/::ffff:(\d+\.\d+\.\d+\.\d+)$/i)]: the capture of the leftmost
    match, if any.  The pattern is not anchored on the left, so each suffix
    of [ip] is tried in turn. *)
Fixpoint match_mapped (ip : jsstring) : option jsstring :=
  if startsWith (js "::ffff:") (ascii_lower (firstn 7 ip)) && dotted_digits (skipn 7 ip)
  then Some (skipn 7 ip)
  else
    match ip with
    | [] => None
    | _ :: ip' => match_mapped ip'
    end.

Section Classifier.
Context {U : Unicode}.

Definition normalizeIPv6 (ip : jsstring) : result jsstring :=
  match (if includes (js ".") ip then match_mapped ip else None) with
  | Some m =>
      let ipv4Parts := map Number (split (js ".") m) in
      let part i := nth i ipv4Parts NaN in
      let hex1 := padStart0 4 (int_toString 16 (or32 (shl32 (part 0%nat) 8) (ToInt32 (part 1%nat)))) in
      let hex2 := padStart0 4 (int_toString 16 (or32 (shl32 (part 2%nat) 8) (ToInt32 (part 3%nat)))) in
      Ret (js "0000:0000:0000:0000:0000:ffff:" ++ hex1 ++ js ":" ++ hex2)
  | None =>
      segments ←
        (if includes (js "::") ip then
           let pieces := split (js "::") ip in
           let left := nth 0 pieces [] in
           let right := nth 1 pieces [] in
           let leftParts := if str_eqb left [] then [] else split (js ":") left in
           let rightParts := if str_eqb right [] then [] else split (js ":") right in
           let missing := 8 - Z.of_nat (List.length leftParts) - Z.of_nat (List.length rightParts) in
           if missing <? 0 then Throw invalid_array_length
           else Ret (leftParts ++ repeat (js "0000") (Z.to_nat missing) ++ rightParts)
         else Ret (split (js ":") ip)) ;
      Ret (join (js ":") (map (fun s => toLowerCase (padStart0 4 s)) segments))
  end.

Definition in_range (lo hi : Z) (x : option Z) : bool :=
  match x with
  | Some z => (lo <=? z) && (z <=? hi)
  | None => false
  end.

Definition isPrivateIPv6 (ip : jsstring) : result bool :=
  match (if includes (js ".") ip then match_mapped ip else None) with
  | Some m => Ret (isPrivateIPv4 m)
  | None =>
      normalized ← normalizeIPv6 ip ;
      if str_eqb normalized (js "0000:0000:0000:0000:0000:0000:0000:0001") then Ret true
      else if startsWith (js "0000:0000:0000:0000:0000:ffff:") normalized then
        let lastTwoSegments := slice_last 9 normalized in
        match split (js ":") lastTwoSegments with
        | hex1 :: hex2 :: _ =>
            let a := parseInt (slice 0 2 hex1) 16 in
            let b := parseInt (slice 2 4 hex1) 16 in
            let c := parseInt (slice 0 2 hex2) 16 in
            let d := parseInt (slice 2 4 hex2) 16 in
            Ret (isPrivateIPv4 (show a ++ js "." ++ show b ++ js "." ++ show c ++ js "." ++ show d))
        | _ => Throw undefined_slice
        end
      else
        let firstSegment := parseInt (slice 0 4 normalized) 16 in
        if in_range 0xfc00 0xfdff firstSegment then Ret true
        else if in_range 0xfe80 0xfebf firstSegment then Ret true
        else Ret false
  end.

Definition isPrivateIP (ip : jsstring) : result bool :=
  if str_eqb ip (js "169.254.169.254") then Ret true
  else if includes (js ":") ip then isPrivateIPv6 ip
  else Ret (isPrivateIPv4 ip).

End Classifier.

(** [/^(\d{1,3}\.){3}\d{1,3}$/.test(h)]: four runs of one to three digits
    with dots between them. *)
Definition ipv4Regex (h : jsstring) : bool :=
  let parts := split (js ".") h in
  Nat.eqb (List.length parts) 4
  && forallb (fun p => Nat.leb 1 (List.length p) && Nat.leb (List.length p) 3
                       && forallb is_digit p) parts.

Definition strip_open (h : jsstring) : jsstring :=
  match h with
  | c :: h' => if N.eqb c (chr "[") then h' else h
  | [] => []
  end.

Definition strip_close (h : jsstring) : jsstring :=
  match rev h with
  | c :: r => if N.eqb c (chr "]") then rev r else h
  | [] => []
  end.

(** [/^\[?([a-fA-F0-9:]+)\]?$/.test(h)] *)
Definition ipv6Regex (h : jsstring) : bool :=
  let inner := strip_close (strip_open h) in
  negb (str_eqb inner [])
  && forallb (fun c => is_hex c || N.eqb c (chr ":")) inner.

(** [h.replace(/^\[|\]$/g, '')] *)
Definition remove_brackets (h : jsstring) : jsstring := strip_close (strip_open h).

Record Resolved : Type := {
  r_hostname : jsstring;
  r_ip : jsstring
}.

Definition msg_invalid_url := js "Invalid URL".
Definition msg_protocol := js "Only http and https protocols are allowed".
Definition msg_blocked := js "Hostname is blocked".
Definition msg_dns := js "DNS resolution failed".
Definition msg_private := js "URL resolves to a private/internal IP address".

Section Resolver.
Context {U : Unicode} {World Json : Type} (P : Platform World Json).

(** [addresses = await lookup(hostname); if (addresses.length === 0) throw
    ...; ip = addresses[0]] *)
Definition first_address (lookup : M World (list jsstring)) : M World jsstring :=
  addresses ← lookup;
  match addresses with
  | [] => throw (Error (js "No DNS records found"))
  | ip :: _ => ret ip
  end.

Definition resolveAndValidate (urlString : jsstring) : M World Resolved :=
  match parseURL P urlString with
  | None => throw (Error msg_invalid_url)
  | Some url =>
      (* Only allow http and https protocols *)
      if negb (str_eqb (protocol url) (js "http:")) && negb (str_eqb (protocol url) (js "https:"))
      then throw (Error msg_protocol)
      else
        let hostname := hostname url in
        (* Check blocked hostnames *)
        if existsb (str_eqb (toLowerCase hostname)) BLOCKED_HOSTNAMES
        then throw (Error msg_blocked)
        else
          ip ←
            (if ipv4Regex hostname then ret hostname
             else if ipv6Regex hostname then ret (remove_brackets hostname)
             else
               try_catch
                 (first_address (call (fun _ => EvResolve4 hostname) (resolve4 P hostname)))
                 (fun _ =>
                    try_catch
                      (first_address (call (fun _ => EvResolve6 hostname) (resolve6 P hostname)))
                      (fun _ => throw (Error msg_dns))));
          (* Validate the resolved IP *)
          private ← lift (isPrivateIP ip);
          if private : bool then throw (Error msg_private)
          else ret {| r_hostname := hostname; r_ip := ip |}
  end.

End Resolver.

End Ssrf.

(** ** The relay handler (src/routes/proxy.ts)

    The handler is entered here at its step 5, with the request that steps
    1 to 4 (content type, origin, size, JSON and shape validation) have
    admitted as [proxyReq]. *)

Module Proxy.
Import JS Eff Ssrf.

(** The part of [config] the relay reads.  The numbers are the integers
    that [parseInt] reads from the environment, below 2^53. *)
Record Config : Type := {
  proxyAllowedDomains : list jsstring;
  proxyMaxRedirects : Z;
  proxyMaxResponseSize : Z
}.

Inductive AuthType : Type := bearer | basic | api_key.

Record Auth : Type := {
  auth_type : AuthType;
  credentials : jsstring;
  headerName : option jsstring
}.

(** [ProxyRequest], by the fields the handler reads ([timeout] only sets
    the timer whose firing shows as an AbortError from [fetch]). *)
Record ProxyRequest (Json : Type) : Type := {
  url : jsstring;
  method : option jsstring;
  req_body : option Json;
  contentType : option jsstring;
  accept : option jsstring;
  auth : option Auth
}.
Arguments url {Json} _.
Arguments method {Json} _.
Arguments req_body {Json} _.
Arguments contentType {Json} _.
Arguments accept {Json} _.
Arguments auth {Json} _.

(** [body: unknown] of the reply: the parsed JSON value or the raw text. *)
Inductive Body (Json : Type) : Type :=
| Parsed (j : Json)
| Text (s : jsstring).
Arguments Parsed {Json} j.
Arguments Text {Json} s.

Record ProxyResponse (Json : Type) : Type := {
  pr_status : Z;
  pr_statusText : jsstring;
  pr_headers : obj;
  pr_body : Body Json
}.
Arguments pr_status {Json} _.
Arguments pr_statusText {Json} _.
Arguments pr_headers {Json} _.
Arguments pr_body {Json} _.

(** What the handler answers: [c.json({ error }, status)] or
    [c.json(proxyResponse)]. *)
Inductive Reply (Json : Type) : Type :=
| json_error (error : jsstring) (code : Z)
| json_ok (r : ProxyResponse Json).
Arguments json_error {Json} error code.
Arguments json_ok {Json} r.

Definition reply_status {Json} (r : Reply Json) : Z :=
  match r with
  | json_error _ code => code
  | json_ok _ => 200
  end.

(** How the redirect loop is left: by [break] (or its condition) with the
    last response, or by a [return] from inside it. *)
Inductive LoopExit (Json : Type) : Type :=
| Final (response : option Response)
| Replied (r : Reply Json).
Arguments Final {Json} response.
Arguments Replied {Json} r.

(** How the read loop is left: by [done] with the chunks, or by the size
    check with the chunks kept so far. *)
Inductive ReadExit : Type :=
| ReadDone (kept : list (list N))
| ReadTooLarge (kept : list (list N)).

(** [s.endsWith(suffix)] *)
Definition endsWith (suffix s : jsstring) : bool := startsWith (rev suffix) (rev s).

(** A value used as a condition: a string is truthy unless empty. *)
Definition truthy (o : option jsstring) : option jsstring :=
  match o with
  | Some [] => None
  | _ => o
  end.

(** [headers.get(name)] for a lower-case [name]. *)
Definition headers_get (name : jsstring) (hs : list (jsstring * jsstring)) : option jsstring :=
  snd <$> List.find (fun kv => str_eqb (ascii_lower (fst kv)) name) hs.

Definition is_redirect (code : Z) : bool :=
  existsb (Z.eqb code) [301; 302; 303; 307; 308].

Section Handler.
Context {U : Unicode} {World Json : Type} (P : Platform World Json) (config : Config).

(** [config.proxyAllowedDomains.some(domain => hostname ===
    domain.toLowerCase() || hostname.endsWith('.' + domain.toLowerCase()))] *)
Definition isAllowed (hostname : jsstring) : bool :=
  existsb (fun domain =>
             str_eqb hostname (toLowerCase domain)
             || endsWith (js "." ++ toLowerCase domain) hostname)
          (proxyAllowedDomains config).

(** The allowlist check, written once in the source for the target and once
    for a redirect target: whether [u] may be fetched. *)
Definition allowlist_check (u : jsstring) : M World bool :=
  match proxyAllowedDomains config with
  | [] => ret true
  | _ :: _ =>
      match parseURL P u with
      | None => throw (TypeError (js "Invalid URL"))
      | Some target => ret (isAllowed (toLowerCase (hostname target)))
      end
  end.

(** Step 7: the headers of the outgoing request. *)
Definition outgoingHeaders (proxyReq : ProxyRequest Json) : obj :=
  let h0 : obj := obj_set (js "User-Agent") (js "ZenBin-Proxy/1.0") ∅ in
  let h1 :=
    match truthy (contentType proxyReq), req_body proxyReq with
    | Some ct, _ => obj_set (js "Content-Type") ct h0
    | None, Some _ => obj_set (js "Content-Type") (js "application/json") h0
    | None, None => h0
    end in
  let h2 :=
    match truthy (accept proxyReq) with
    | Some a => obj_set (js "Accept") a h1
    | None => h1
    end in
  match auth proxyReq with
  | Some a =>
      match auth_type a with
      | bearer => obj_set (js "Authorization") (js "Bearer " ++ credentials a) h2
      | basic => obj_set (js "Authorization") (js "Basic " ++ credentials a) h2
      | api_key =>
          obj_set (default (js "X-API-Key") (truthy (headerName a))) (credentials a) h2
      end
  | None => h2
  end.

(** [(proxyReq.method || 'GET').toUpperCase()] *)
Definition request_method (proxyReq : ProxyRequest Json) : jsstring :=
  toUpperCase (default (js "GET") (truthy (method proxyReq))).

Definition fetchOptions (proxyReq : ProxyRequest Json) (redirectCount : Z) : FetchOptions :=
  let method := request_method proxyReq in
  {| fo_method := if redirectCount =? 0 then method else js "GET";
     fo_headers := outgoingHeaders proxyReq;
     (* Only include body on first request and if method supports it *)
     fo_body :=
       match req_body proxyReq with
       | Some b =>
           if (redirectCount =? 0)
              && negb (existsb (str_eqb method) [js "GET"; js "HEAD"])
           then Some (JSON_stringify P b) else None
       | None => None
       end |}.

(** Step 8: the loop [while (redirectCount <= maxRedirects)].  [fuel]
    bounds the iterations still to come. *)
Fixpoint redirect_loop (proxyReq : ProxyRequest Json) (fuel : nat)
    (currentUrl : jsstring) (redirectCount : Z) (response : option Response)
    : M World (LoopExit Json) :=
  let maxRedirects := proxyMaxRedirects config in
  if redirectCount <=? maxRedirects then
    match fuel with
    | O => out_of_fuel
    | S fuel' =>
        let opts := fetchOptions proxyReq redirectCount in
        response ← call (fun w => EvFetch w currentUrl opts) (fetch P currentUrl opts);
        (* Check for redirect *)
        if is_redirect (status response) then
          match truthy (headers_get (js "location") (headers response)) with
          | None => ret (Final (Some response))
          | Some location =>
              (* Resolve relative URLs *)
              redirectUrl ← lift (resolveURL P location currentUrl);
              (* Validate redirect target for SSRF *)
              checked ← attempt (resolveAndValidate P redirectUrl);
              match checked with
              | Throw err =>
                  ret (Replied (json_error (js "Redirect blocked: " ++ message err) 400))
              | Ret _ =>
                  (* Check domain allowlist for redirect *)
                  allowed ← allowlist_check redirectUrl;
                  if negb allowed then
                    ret (Replied (json_error (js "Redirect target domain is not in the allowlist") 400))
                  else
                    let redirectCount := redirectCount + 1 in
                    if redirectCount >? maxRedirects then
                      ret (Replied (json_error
                             (js "Too many redirects (max: " ++ int_toString 10 maxRedirects ++ js ")")
                             502))
                    else
                      redirect_loop proxyReq fuel' redirectUrl redirectCount (Some response)
              end
          end
        else ret (Final (Some response))
    end
  else ret (Final response).

(** The read loop of step 9: [chunks] and [totalSize] are the loop's
    variables, [pending] what the reader has yet to deliver. *)
Fixpoint read_loop (pending : list (list N)) (failure : option exn)
    (chunks : list (list N)) (totalSize : Z) : M World ReadExit :=
  match pending with
  | [] =>
      match failure with
      | None => ret (ReadDone chunks)
      | Some err => throw err
      end
  | value :: pending' =>
      _ ← emit (EvRead (List.length value));
      let totalSize := totalSize + Z.of_nat (List.length value) in
      if totalSize >? proxyMaxResponseSize config then
        _ ← emit EvCancel;
        ret (ReadTooLarge chunks)
      else read_loop pending' failure (chunks ++ [value]) totalSize
  end.

(** Step 10: the headers of the reply. *)
Definition responseHeaders (hs : list (jsstring * jsstring)) : obj :=
  fold_left (fun acc kv =>
               if negb (str_eqb (toLowerCase (fst kv)) (js "set-cookie"))
               then obj_set (fst kv) (snd kv) acc
               else acc)
            hs ∅.

(** Steps 10 and 11, from the response and the text of its body. *)
Definition proxyResponse (response : Response) (responseBody : jsstring) : ProxyResponse Json :=
  let responseContentType := default [] (truthy (headers_get (js "content-type") (headers response))) in
  {| pr_status := status response;
     pr_statusText := statusText response;
     pr_headers := responseHeaders (headers response);
     pr_body :=
       if includes (js "application/json") responseContentType then
         match JSON_parse P responseBody with
         | Some j => Parsed j
         | None => Text responseBody
         end
       else Text responseBody |}.

(** Steps 9 to 11, from the final response. *)
Definition finish (response : Response) : M World (Reply Json) :=
  let too_large := json_error (js "Response too large") 502 in
  let declared :=
    match truthy (headers_get (js "content-length") (headers response)) with
    | Some responseContentLength =>
        match parseInt responseContentLength 10 with
        | Some n => n >? proxyMaxResponseSize config
        | None => false
        end
    | None => false
    end in
  if declared then ret too_large
  else
    match body response with
    | None => ret (json_ok (proxyResponse response []))
    | Some reader =>
        read ← attempt (read_loop (chunks reader) (failure reader) [] 0);
        match read with
        | Throw err => ret (json_error (message err) 502)
        | Ret (ReadTooLarge _) => ret too_large
        | Ret (ReadDone chunks) =>
            ret (json_ok (proxyResponse response (utf8_decode P (concat chunks))))
        end
    end.

(** Steps 5 to 11 of [proxy.post('/')]. *)
Definition handler (proxyReq : ProxyRequest Json) : M World (Reply Json) :=
  (* 5. Check domain allowlist *)
  allowed ← allowlist_check (url proxyReq);
  if negb allowed then ret (json_error (js "Target domain is not in the allowlist") 400)
  else
    (* 6. SSRF validation *)
    checked ← attempt (resolveAndValidate P (url proxyReq));
    match checked with
    | Throw err => ret (json_error (message err) 400)
    | Ret _ =>
        (* 8. Make fetch with timeout and redirect limit *)
        exit ←
          try_catch
            (redirect_loop proxyReq (Z.to_nat (proxyMaxRedirects config + 1))
                           (url proxyReq) 0 None)
            (fun err =>
               match err with
               | AbortError _ => ret (Replied (json_error (js "Request timed out") 504))
               | _ => ret (Replied (json_error (message err) 502))
               end);
        match exit with
        | Replied r => ret r
        | Final None => ret (json_error (js "No response received") 502)
        | Final (Some response) => finish response
        end
    end.

End Handler.

End Proxy.

(** ** A small platform to run the handler on *)

Module Toy.
Import JS Eff Ssrf Proxy.

(** Tables that map nothing. *)
#[export] Instance tables : Unicode :=
  {| unicode_lower := fun s => s; unicode_upper := fun s => s |}.

(** The world counts the fetches made.  A URL is its own host name; every
    fetch before the [hops]-th answers with a redirect to [next], the
    others with [last]. *)
Definition toy (hops : nat) (next : jsstring) (last : Response) : Platform nat unit :=
  {| parseURL := fun u => Some {| protocol := js "http:"; hostname := u |};
     resolveURL := fun location _ => Ret location;
     resolve4 := fun host w =>
       (if str_eqb host (js "example.com") || str_eqb host (js "cafe")
        then Ret [js "93.184.216.34"]
        else if str_eqb host (js "example.org") then Ret [js "93.184.215.14"]
        else if str_eqb host (js "intranet.example") then Ret [js "10.0.0.7"]
        else Throw (Error (js "queryA ENOTFOUND")), w);
     resolve6 := fun host w => (Throw (Error (js "queryAaaa ENOTFOUND")), w);
     fetch := fun u opts w =>
       (Ret (if (w <? hops)%nat
             then {| status := 302; statusText := js "Found";
                     headers := [(js "location", next)]; body := None |}
             else last), S w);
     JSON_parse := fun _ => None;
     JSON_stringify := fun _ => js "{}";
     utf8_decode := fun bytes => bytes |}.

Definition ok_response (hs : list (jsstring * jsstring)) (bytes : list (list N)) : Response :=
  {| status := 200; statusText := js "OK"; headers := hs;
     body := Some {| chunks := bytes; failure := None |} |}.

Definition get (u : jsstring) : ProxyRequest unit :=
  {| url := u; method := None; req_body := None; contentType := None;
     accept := None; auth := None |}.

Definition post (u : jsstring) : ProxyRequest unit :=
  {| url := u; method := Some (js "post"); req_body := Some tt; contentType := None;
     accept := None; auth := None |}.

Definition cfg (maxRedirects cap : Z) : Config :=
  {| proxyAllowedDomains := []; proxyMaxRedirects := maxRedirects;
     proxyMaxResponseSize := cap |}.

(** A configuration with an allowlist. *)
Definition cfg_only (domains : list jsstring) (maxRedirects cap : Z) : Config :=
  {| proxyAllowedDomains := domains; proxyMaxRedirects := maxRedirects;
     proxyMaxResponseSize := cap |}.

Definition start : St nat := {| world := O; trace := [] |}.

End Toy.

(** ** ETags (src/utils/etag.ts) *)

Module Etag.
Import JS Proxy.

(** The double quote. *)
Definition quote : N := 34%N.

Section Hash.
(** [createHash('sha256').update(content, 'utf-8').digest('hex')] *)
Variable sha256_hex : jsstring -> jsstring.

Definition generateEtag (content : jsstring) : jsstring :=
  let hash := slice 0 32 (sha256_hex content) in (* Use first 32 chars of hash *)
  [quote] ++ hash ++ [quote].

End Hash.

Definition etagMatches (ifNoneMatch : option jsstring) (etag : jsstring) : bool :=
  match truthy ifNoneMatch with
  | None => false
  | Some ifNoneMatch =>
      (* Handle multiple ETags (comma-separated) *)
      let tags := map trim (split (js ",") ifNoneMatch) in
      (* Check for wildcard or exact match *)
      existsb (str_eqb (js "*")) tags || existsb (str_eqb etag) tags
  end.

End Etag.

(** ** The rate limiters (src/middleware/rateLimit.ts, proxyRateLimit.ts) *)

Module RateLimit.
Import JS Proxy.

Record RateLimitEntry : Type := {
  count : Z;
  resetAt : Z
}.

(** [new Map<string, RateLimitEntry>()].  Times are the integers of
    [Date.now()], in milliseconds, far below 2^53; the window and the
    maximum are the integers that [parseInt] read for the configuration. *)
Abbreviation Store := (gmap (list N) RateLimitEntry).

(** [c.req.header(name)], for a lower-case name. *)
Abbreviation Headers := (jsstring -> option jsstring).

Definition getClientIp (header : Headers) : jsstring :=
  (* Check common proxy headers *)
  match truthy (header (js "x-forwarded-for")) with
  | Some forwarded => trim (nth 0 (split (js ",") forwarded) [])
  | None =>
      match truthy (header (js "x-real-ip")) with
      | Some realIp => realIp
      | None => js "unknown"
      end
  end.

(** [Math.ceil(x / 1000)] for an integer [x]. *)
Definition ceil_seconds (x : Z) : Z := - ((- x) / 1000).

(** How the middleware ends: [await next()], or the 429 reply. *)
Inductive Outcome : Type :=
| Next
| TooManyRequests (error : jsstring).

(** The store after the call, the headers set with [c.header] in their
    order, and how the call ends. *)
Record Limited : Type := {
  store_after : Store;
  set_headers : list (jsstring * jsstring);
  outcome : Outcome
}.

(** The body the two middlewares share, from [store.get(key)] on. *)
Definition limit (key : jsstring) (windowMs maxRequests now : Z) (store : Store) : Limited :=
  let entry :=
    match store !! key with
    | Some entry =>
        if resetAt entry <? now
        then {| count := 1; resetAt := now + windowMs |} (* New window *)
        else {| count := count entry + 1; resetAt := resetAt entry |}
    | None => {| count := 1; resetAt := now + windowMs |}
    end in
  let store := <[key := entry]> store in
  (* Set rate limit headers *)
  let remaining := Z.max 0 (maxRequests - count entry) in
  let hs := [(js "X-RateLimit-Limit", int_toString 10 maxRequests);
             (js "X-RateLimit-Remaining", int_toString 10 remaining);
             (js "X-RateLimit-Reset", int_toString 10 (ceil_seconds (resetAt entry)))] in
  if count entry >? maxRequests then
    let retryAfter := ceil_seconds (resetAt entry - now) in
    {| store_after := store;
       set_headers := hs ++ [(js "Retry-After", int_toString 10 retryAfter)];
       outcome := TooManyRequests (js "Too many requests. Please try again later.") |}
  else {| store_after := store; set_headers := hs; outcome := Next |}.

(** [rateLimit]: the bucket is the client's address. *)
Definition rateLimit (windowMs maxRequests : Z) (header : Headers) (now : Z)
    (rateLimitStore : Store) : Limited :=
  let ip := getClientIp header in
  limit ip windowMs maxRequests now rateLimitStore.

(** [proxyRateLimit]: a store of its own, keyed [proxy:<address>]. *)
Definition proxyRateLimit (windowMs maxRequests : Z) (header : Headers) (now : Z)
    (proxyRateLimitStore : Store) : Limited :=
  let ip := getClientIp header in
  let key := js "proxy:" ++ ip in
  limit key windowMs maxRequests now proxyRateLimitStore.

(** The periodic clean-up: [if (entry.resetAt < now) store.delete(key)]. *)
Definition cleanup (now : Z) (store : Store) : Store :=
  filter (fun kv => ~ (resetAt (snd kv) < now)) store.

End RateLimit.

(** ** Page ids and page bodies (src/utils/validation.ts) *)

Module Validation.
Import JS Proxy Etag.

Record ValidationError : Type := {
  field : jsstring;
  message : jsstring
}.

(** [/^[A-Za-z0-9._-]+$/.test(id)] *)
Definition id_char (c : N) : bool :=
  is_upper c || is_lower c || is_digit c
  || N.eqb c (chr ".") || N.eqb c (chr "_") || N.eqb c (chr "-").

Definition ID_PATTERN (id : jsstring) : bool :=
  negb (str_eqb id []) && forallb id_char id.

(** Validate a page ID *)
Definition validateId (maxIdLength : Z) (id : jsstring) : option ValidationError :=
  if str_eqb id [] then
    Some {| field := js "id"; message := js "Page ID is required" |}
  else if Z.of_nat (List.length id) >? maxIdLength then
    Some {| field := js "id";
            message := js "Page ID must be " ++ int_toString 10 maxIdLength
                       ++ js " characters or less" |}
  else if negb (ID_PATTERN id) then
    Some {| field := js "id";
            message := js "Page ID can only contain letters, numbers, dots, underscores, and hyphens" |}
  else None.

(** A value that [JSON.parse] returns. *)
#[warnings="-register-all"] Inductive json : Type :=
| JNull
| JBool (b : bool)
| JNumber (x : number)
| JString (s : jsstring)
| JArray (items : list json)
| JObject (props : list (jsstring * json)).

(** [!v] *)
Definition falsy (v : json) : bool :=
  match v with
  | JNull => true
  | JBool b => negb b
  | JNumber x => isNaN x || num_eq x (of_Z 0)
  | JString s => str_eqb s []
  | JArray _ | JObject _ => false
  end.

(** [typeof v === 'object'] *)
Definition typeof_object (v : json) : bool :=
  match v with
  | JNull | JArray _ | JObject _ => true
  | _ => false
  end.

(** [typeof v === 'string'] *)
Definition typeof_string (v : json) : bool :=
  match v with JString _ => true | _ => false end.

(** [data.key] for a key that is neither an index nor a property every
    object or array has: the property of that name that was parsed last;
    [None] is [undefined]. *)
Definition get (data : json) (key : jsstring) : option json :=
  match data with
  | JObject props => snd <$> List.find (fun kv => str_eqb (fst kv) key) (rev props)
  | _ => None
  end.

(** The UTF-16 code units of a surrogate pair. *)
Definition is_lead (c : N) : bool := (N.leb 55296 c && N.leb c 56319)%bool.
Definition is_trail (c : N) : bool := (N.leb 56320 c && N.leb c 57343)%bool.

(** [Buffer.byteLength(s, 'utf-8')]: one to three bytes for a code unit,
    four for a surrogate pair, three (U+FFFD) for a surrogate left alone. *)
Fixpoint byteLength_utf8 (s : jsstring) : nat :=
  match s with
  | [] => 0
  | c :: s' =>
      if N.ltb c 128 then S (byteLength_utf8 s')
      else if N.ltb c 2048 then 2 + byteLength_utf8 s'
      else if is_lead c then
        match s' with
        | d :: s'' => if is_trail d then 4 + byteLength_utf8 s'' else 3 + byteLength_utf8 s'
        | [] => 3
        end
      else 3 + byteLength_utf8 s'
  end.

Section Buffer.
(** [Buffer.from(s, 'base64')], which does not throw on a string, and
    [buffer.toString('utf-8')]. *)
Variable from_base64 : jsstring -> list N.
Variable toString_utf8 : list N -> jsstring.

(** Validate request body for creating/updating a page *)
Definition validatePageBody (maxPayloadSize : Z) (body : json) : option ValidationError :=
  if falsy body || negb (typeof_object body) then
    Some {| field := js "body"; message := js "Request body must be a JSON object" |}
  else
    let data := body in
    (* Validate html field *)
    match get data (js "html") with
    | Some (JString ((_ :: _) as html)) =>
        let encoding := get data (js "encoding") in
        (* Validate encoding if provided *)
        let bad_encoding :=
          match encoding with
          | None => false
          | Some (JString e) => negb (str_eqb e (js "utf-8")) && negb (str_eqb e (js "base64"))
          | Some _ => true
          end in
        if bad_encoding then
          Some {| field := js "encoding";
                  message := js "encoding must be " ++ [quote] ++ js "utf-8" ++ [quote]
                             ++ js " or " ++ [quote] ++ js "base64" ++ [quote] |}
        else
          (* Validate content_type if provided *)
          match get data (js "content_type") with
          | Some (JString _) | None =>
              (* Validate title if provided *)
              match get data (js "title") with
              | Some (JString _) | None =>
                  (* Calculate actual HTML size (decode base64 if needed) *)
                  let htmlSize :=
                    match encoding with
                    | Some (JString e) =>
                        if str_eqb e (js "base64")
                        then List.length (from_base64 html)
                        else byteLength_utf8 html
                    | _ => byteLength_utf8 html
                    end in
                  if Z.of_nat htmlSize >? maxPayloadSize then
                    Some {| field := js "html";
                            message := js "HTML content exceeds maximum size of "
                                       ++ int_toString 10 maxPayloadSize ++ js " bytes" |}
                  else None
              | Some _ => Some {| field := js "title"; message := js "title must be a string" |}
              end
          | Some _ =>
              Some {| field := js "content_type";
                      message := js "content_type must be a string" |}
          end
    | _ => Some {| field := js "html";
                   message := js "html field is required and must be a string" |}
    end.

(** Decode HTML content from request body *)
Definition decodeHtml (html : jsstring) (encoding : option json) : jsstring :=
  match encoding with
  | Some (JString e) =>
      if str_eqb e (js "base64") then toString_utf8 (from_base64 html) else html
  | _ => html
  end.

End Buffer.

End Validation.

(** ** The page store (src/storage/db.ts) *)

Module Db.
Import JS Eff Proxy.

(** Page data model *)
Record Page : Type := {
  id : jsstring;
  html : jsstring;
  encoding : jsstring;
  content_type : jsstring;
  title : option jsstring;
  etag : jsstring;
  created_at : jsstring;
  updated_at : jsstring
}.

(** Result type for save operations *)
Record SaveResult : Type := {
  page : Page;
  created : bool
}.

(** The LMDB database as a map from keys to pages, which gives back the
    page that was put, read and written by one call at a time; [None] is the
    variable [db] before [initDatabase]. *)
Abbreviation Database := (gmap (list N) Page).

Definition getDatabase (db : option Database) : result Database :=
  match db with
  | None => Throw (Error (js "Database not initialized. Call initDatabase() first."))
  | Some db => Ret db
  end.

(** The [data] argument of [savePage]. *)
Record PageData : Type := {
  data_html : jsstring;
  data_encoding : option jsstring;
  data_content_type : option jsstring;
  data_title : option jsstring
}.

(** [savePage]; [now] is [new Date().toISOString()]. *)
Definition savePage (id : jsstring) (data : PageData) (etag now : jsstring)
    (db : option Database) : result SaveResult * option Database :=
  match getDatabase db with
  | Throw e => (Throw e, db)
  | Ret store =>
      let existing := store !! id in
      let page :=
        {| id := id;
           html := data_html data;
           encoding := default (js "utf-8") (truthy (data_encoding data));
           content_type :=
             default (js "text/html; charset=utf-8") (truthy (data_content_type data));
           title := data_title data;
           etag := etag;
           created_at := default now (truthy (created_at <$> existing));
           updated_at := now |} in
      (Ret {| page := page;
              created := match existing with None => true | Some _ => false end |},
       Some (<[id := page]> store))
  end.

Definition getPage (id : jsstring) (db : option Database) : result (option Page) :=
  store ← getDatabase db; Ret (store !! id).

Definition deletePage (id : jsstring) (db : option Database)
    : result bool * option Database :=
  match getDatabase db with
  | Throw e => (Throw e, db)
  | Ret store =>
      match store !! id with
      | None => (Ret false, db)
      | Some _ => (Ret true, Some (delete id store))
      end
  end.

End Db.

(** ** The page routes (src/routes/pages.ts, src/routes/render.ts) *)

Module Routes.
Import JS Eff Proxy Etag Validation Db.

(** What a route answers: [c.json(fields, status)] with string fields, or
    [c.body(body, status)], and the headers set with [c.header], in their
    order. *)
Inductive Answer : Type :=
| json_answer (status : Z) (fields : list (jsstring * jsstring))
| body_answer (status : Z) (body : option jsstring).

Record Served : Type := {
  answer : Answer;
  headers_set : list (jsstring * jsstring)
}.

Definition error_answer (status : Z) (error : jsstring) : Served :=
  {| answer := json_answer status [(js "error", error)]; headers_set := [] |}.

(** Security headers for sandboxed rendering *)
Definition SECURITY_HEADERS : list (jsstring * jsstring) :=
  [(js "Content-Security-Policy",
    join (js "; ")
      [js "default-src 'self'";
       js "script-src 'self' 'unsafe-inline' 'unsafe-eval'";
       js "style-src 'self' 'unsafe-inline'";
       js "img-src 'self' data: blob: https:";
       js "font-src 'self' data:";
       js "connect-src 'none'";
       js "frame-ancestors 'none'";
       js "base-uri 'self'";
       js "form-action 'self'"]);
   (js "X-Content-Type-Options", js "nosniff");
   (js "Referrer-Policy", js "no-referrer");
   (js "Cross-Origin-Opener-Policy", js "same-origin");
   (js "Cross-Origin-Resource-Policy", js "same-site");
   (js "X-Frame-Options", js "DENY")].

Section Routes.
Variable maxIdLength maxPayloadSize : Z.
Variable baseUrl : jsstring.
Variable sha256_hex : jsstring -> jsstring.
Variable from_base64 : jsstring -> list N.
Variable toString_utf8 : list N -> jsstring.

(** What the two render routes do alike: validate the id, get the page,
    check If-None-Match; then [serve] the page. *)
Definition render_with (serve : Page -> Served) (id : jsstring)
    (ifNoneMatch : option jsstring) (db : option Database) : result Served :=
  (* Validate ID *)
  match validateId maxIdLength id with
  | Some idError => Ret (error_answer 400 (message idError))
  | None =>
      (* Get page from database *)
      page ← getPage id db;
      match page with
      | None => Ret (error_answer 404 (js "Page not found"))
      | Some page =>
          (* Check If-None-Match for caching *)
          if etagMatches ifNoneMatch (etag page)
          then Ret {| answer := body_answer 304 None; headers_set := [] |}
          else Ret (serve page)
      end
  end.

(** GET /p/:id - Render page in browser *)
Definition render_page (id : jsstring) (ifNoneMatch : option jsstring)
    (db : option Database) : result Served :=
  render_with
    (fun page =>
       {| answer := body_answer 200 (Some (html page));
          headers_set :=
            SECURITY_HEADERS
            ++ [(js "ETag", etag page);
                (js "Cache-Control", js "public, max-age=0, must-revalidate");
                (js "Content-Type",
                 default (js "text/html; charset=utf-8") (truthy (Some (content_type page))))] |})
    id ifNoneMatch db.

(** GET /p/:id/raw - Fetch raw HTML *)
Definition render_raw (id : jsstring) (ifNoneMatch : option jsstring)
    (db : option Database) : result Served :=
  render_with
    (fun page =>
       {| answer := body_answer 200 (Some (html page));
          headers_set :=
            [(js "Content-Type", js "text/plain; charset=utf-8");
             (js "Content-Disposition",
              js "inline; filename=" ++ [quote] ++ id ++ js ".html" ++ [quote]);
             (js "ETag", etag page);
             (js "Cache-Control", js "public, max-age=0, must-revalidate")] |})
    id ifNoneMatch db.

(** A property of the validated body that is a string, or [undefined]. *)
Definition string_of (v : option json) : option jsstring :=
  match v with
  | Some (JString s) => Some s
  | _ => None
  end.

(** POST /v1/pages/:id - Create or replace a page.  [body] is what
    [c.req.json()] resolves with, [None] when it rejects; [now] is the time
    [savePage] reads. *)
Definition create_page (id : jsstring) (body : option json) (now : jsstring)
    (db : option Database) : result Served * option Database :=
  (* Validate ID *)
  match validateId maxIdLength id with
  | Some idError => (Ret (error_answer 400 (message idError)), db)
  | None =>
      (* Parse and validate body *)
      match body with
      | None => (Ret (error_answer 400 (js "Invalid JSON body")), db)
      | Some body =>
          match validatePageBody from_base64 maxPayloadSize body with
          | Some bodyError => (Ret (error_answer 400 (message bodyError)), db)
          | None =>
              (* Check if ID is already taken *)
              match getPage id db with
              | Throw e => (Throw e, db)
              | Ret (Some existing) =>
                  (Ret (error_answer 409
                          (js "Page ID " ++ [quote] ++ id ++ [quote] ++ js " is already taken")),
                   db)
              | Ret None =>
                  (* Decode HTML if base64 encoded *)
                  let decodedHtml :=
                    decodeHtml from_base64 toString_utf8
                      (default [] (string_of (get body (js "html"))))
                      (get body (js "encoding")) in
                  (* Generate ETag from decoded content *)
                  let etag := generateEtag sha256_hex decodedHtml in
                  (* Save to database *)
                  match savePage id
                          {| data_html := decodedHtml;
                             data_encoding := Some (js "utf-8");
                             data_content_type := string_of (get body (js "content_type"));
                             data_title := string_of (get body (js "title")) |}
                          etag now db with
                  | (Throw e, db') => (Throw e, db')
                  | (Ret saved, db') =>
                      let page := page saved in
                      (* Build response URLs *)
                      let response :=
                        [(js "id", Db.id page);
                         (js "url", baseUrl ++ js "/p/" ++ Db.id page);
                         (js "raw_url", baseUrl ++ js "/p/" ++ Db.id page ++ js "/raw");
                         (js "etag", Db.etag page)] in
                      (Ret {| answer := json_answer 201 response;
                              headers_set := [(js "ETag", Db.etag page)] |}, db')
                  end
              end
          end
      end
  end.

End Routes.

End Routes.

(** * Facts about the JavaScript primitives *)

Module JSFacts.
Import JS.

(** Replace the code units written as characters by their numbers. *)
Ltac chr_eval :=
  repeat match goal with
  | |- context [chr ?a] =>
      let v := eval vm_compute in (chr a) in change (chr a) with v
  | H : context [chr ?a] |- _ =>
      let v := eval vm_compute in (chr a) in change (chr a) with v in H
  end.

(** Decide the comparisons of a code unit [c] with constants by [lia]. *)
Ltac eqb_cases c :=
  repeat match goal with
  | |- context [N.eqb c ?k] => destruct (N.eqb_spec c k); [try lia|]
  end.

Lemma str_eqb_eq (a b : jsstring) : str_eqb a b = true <-> a = b.
Proof.
  revert b; induction a as [|x a IH]; intros [|y b]; simpl; split; try congruence; try discriminate.
  - intros H. apply andb_prop in H as [Hx Hab]. apply N.eqb_eq in Hx.
    apply IH in Hab. congruence.
  - intros H. injection H as -> ->. rewrite N.eqb_refl. simpl. now apply IH.
Qed.

Lemma str_eqb_refl (a : jsstring) : str_eqb a a = true.
Proof. now apply str_eqb_eq. Qed.

Lemma str_eqb_neq (a b : jsstring) : a <> b -> str_eqb a b = false.
Proof.
  intros H. destruct (str_eqb a b) eqn:E; [|reflexivity].
  apply str_eqb_eq in E. contradiction.
Qed.

Lemma str_eqb_nil (a : jsstring) : str_eqb a [] = match a with [] => true | _ => false end.
Proof. now destruct a. Qed.

(** ** split on a separator of one code unit *)

Lemma split_cons (c x : N) (s : jsstring) :
  split [c] (x :: s) = if N.eqb c x then [] :: split [c] s else cons_head x (split [c] s).
Proof.
  unfold split. simpl. destruct (N.eqb c x); reflexivity.
Qed.

Lemma split_nil (c : N) : split [c] [] = [[]].
Proof. reflexivity. Qed.

Lemma split_not_nil (c : N) (s : jsstring) : split [c] s <> [].
Proof.
  destruct s as [|x s]; [discriminate|].
  rewrite split_cons. destruct (N.eqb c x); [discriminate|].
  destruct (split [c] s); discriminate.
Qed.

Lemma split_free (c : N) (a : jsstring) : ~ In c a -> split [c] a = [a].
Proof.
  induction a as [|x a IH]; intros H; [reflexivity|].
  rewrite split_cons. destruct (N.eqb_spec c x) as [->|Hne].
  - exfalso. apply H. now left.
  - rewrite IH; [reflexivity|]. intros Hin. apply H. now right.
Qed.

Lemma split_app (c : N) (a b : jsstring) :
  ~ In c a -> split [c] (a ++ c :: b) = a :: split [c] b.
Proof.
  induction a as [|x a IH]; intros H; simpl.
  - rewrite split_cons, N.eqb_refl. reflexivity.
  - rewrite split_cons. destruct (N.eqb_spec c x) as [->|Hne].
    + exfalso. apply H. now left.
    + rewrite IH; [reflexivity|]. intros Hin. apply H. now right.
Qed.

(** A string without the separator is one part; with it, more than one. *)
Lemma split_length_one (c : N) (s : jsstring) :
  List.length (split [c] s) = 1%nat <-> ~ In c s.
Proof.
  induction s as [|x s IH].
  - simpl. split; [intros _ []|reflexivity].
  - rewrite split_cons. destruct (N.eqb_spec c x) as [->|Hne].
    + simpl. split.
      * intros H. injection H as H. pose proof (split_not_nil x s).
        destruct (split [x] s); [contradiction|discriminate].
      * intros H. exfalso. apply H. now left.
    + pose proof (split_not_nil c s).
      destruct (split [c] s) as [|h t] eqn:E; [contradiction|].
      simpl in *. rewrite IH. split.
      * intros H1 [H2|H2]; [congruence|contradiction].
      * intros H1 H2. apply H1. now right.
Qed.

Lemma includes_char (c : N) (s : jsstring) : includes [c] s = true <-> In c s.
Proof.
  induction s as [|x s IH]; simpl.
  - split; [discriminate|intros []].
  - rewrite orb_true_iff, andb_true_r, N.eqb_eq, IH. split; intros [H|H]; auto.
Qed.

Lemma includes_char_false (c : N) (s : jsstring) : includes [c] s = false <-> ~ In c s.
Proof.
  rewrite <- includes_char. destruct (includes [c] s); split; congruence.
Qed.

(** ** Digits *)

Lemma is_digit_range (c : N) : is_digit c = true <-> (48 <= c <= 57)%N.
Proof.
  unfold is_digit. chr_eval. rewrite andb_true_iff, !N.leb_le. reflexivity.
Qed.

Lemma digit_value_digit (c : N) : is_digit c = true -> digit_value c = Some (Z.of_N c - 48).
Proof. unfold digit_value. now intros ->. Qed.

Lemma digits_value_snoc (radix : Z) (ds : jsstring) (c : N) :
  digits_value radix (ds ++ [c]) = digits_value radix ds * radix + default 0 (digit_value c).
Proof. unfold digits_value. now rewrite fold_left_app. Qed.

Lemma span_all (f : N -> bool) (s : jsstring) :
  forallb f s = true -> span f s = (s, []).
Proof.
  induction s as [|c s IH]; simpl; [reflexivity|].
  intros H. apply andb_prop in H as [Hc Hs]. rewrite Hc, (IH Hs). reflexivity.
Qed.

Lemma trimStart_id (c : N) (s : jsstring) : is_space c = false -> trimStart (c :: s) = c :: s.
Proof. simpl. now intros ->. Qed.

Lemma digit_not_space (c : N) : is_digit c = true -> is_space c = false.
Proof.
  rewrite is_digit_range. intros H. unfold is_space, existsb.
  eqb_cases c. simpl. destruct (N.leb_spec 8192 c); [lia|reflexivity].
Qed.

Lemma trim_digits (ds : jsstring) : forallb is_digit ds = true -> trim ds = ds.
Proof.
  intros H. unfold trim.
  assert (Hs : forall l, forallb is_digit l = true -> trimStart l = l).
  { intros [|c l] Hl; [reflexivity|]. simpl in Hl. apply andb_prop in Hl as [Hc _].
    apply trimStart_id. now apply digit_not_space. }
  rewrite (Hs ds H). rewrite Hs.
  - apply rev_involutive.
  - rewrite forallb_forall in *. intros x Hx. apply H. now apply in_rev.
Qed.

(** ** Rounding is exact on the small naturals *)

Lemma binary64_exact (v : Z) :
  0 <= v < 2 ^ 52 -> exists q, binary64 v 1 = Num q /\ (q == inject_Z v)%Q.
Proof.
  intros Hv. unfold binary64.
  destruct (Z.eqb_spec v 0) as [->|Hnz].
  - exists 0%Q. split; reflexivity.
  - assert (Hpos : 0 < v) by lia.
    pose proof (Z.log2_spec v Hpos) as [Hlo Hhi].
    pose proof (Z.log2_nonneg v) as Hg0.
    assert (Hg : Z.log2 v < 52).
    { apply Z.log2_lt_pow2; lia. }
    change (Z.log2 1) with 0. rewrite Z.sub_0_r.
    destruct (Z.leb_spec 0 (Z.log2 v)); [|lia].
    rewrite Z.mul_1_l.
    destruct (Z.leb_spec (2 ^ Z.log2 v) v); [|lia].
    rewrite Z.max_l by lia.
    destruct (Z.leb_spec 0 (Z.log2 v - 52)); [lia|].
    set (k := - (Z.log2 v - 52)).
    assert (Hk : 0 < 2 ^ k) by (apply Z.pow_pos_nonneg; lia).
    eexists. split; [reflexivity|].
    unfold round_half_even. rewrite Z.mod_1_r, Z.div_1_r. simpl (2 * 0 <? 1).
    cbv iota. unfold Qeq. simpl. rewrite Z2Pos.id by lia. lia.
Qed.

Lemma Number_digits (ds : jsstring) :
  ds <> [] -> forallb is_digit ds = true -> 0 <= digits_value 10 ds < 2 ^ 52 ->
  exists q, Number ds = Num q /\ (q == inject_Z (digits_value 10 ds))%Q.
Proof.
  intros Hne Hd Hv. unfold Number. rewrite (trim_digits ds Hd).
  destruct ds as [|c ds]; [contradiction|].
  assert (Hc : is_digit c = true) by (simpl in Hd; now apply andb_prop in Hd as [? _]).
  apply is_digit_range in Hc.
  assert (Hpre : prefixed_literal (c :: ds) = None).
  { unfold prefixed_literal. destruct ds as [|p ds]; [reflexivity|].
    simpl in Hd. apply andb_prop in Hd as [_ Hd]. apply andb_prop in Hd as [Hp _].
    apply is_digit_range in Hp. chr_eval.
    destruct (N.eqb c 48); [|reflexivity].
    eqb_cases p. reflexivity. }
  rewrite Hpre.
  assert (Hsign : take_sign (c :: ds) = (false, c :: ds)).
  { unfold take_sign. chr_eval. eqb_cases c. reflexivity. }
  rewrite Hsign. unfold unsigned_decimal.
  assert (Hinf : str_eqb (c :: ds) (js "Infinity") = false).
  { change (js "Infinity") with (73%N :: js "nfinity"). simpl.
    destruct (N.eqb_spec c 73); [lia|reflexivity]. }
  rewrite Hinf, (span_all _ _ Hd). simpl exponent_part. cbv iota.
  rewrite str_eqb_nil. simpl andb. cbv iota.
  rewrite app_nil_r. unfold decimal_value. simpl (0 <=? 0 - Z.of_nat (List.length [])).
  cbv iota. change (10 ^ (0 - Z.of_nat (List.length (@nil N)))) with 1.
  rewrite Z.mul_1_r. now apply binary64_exact.
Qed.

(** Comparisons of a Number that denotes an integer. *)
Lemma num_eq_int (q : Q) (v k : Z) :
  (q == inject_Z v)%Q -> num_eq (Num q) (of_Z k) = (v =? k).
Proof.
  intros Hq. unfold num_eq, of_Z.
  destruct (Z.eqb_spec v k) as [->|Hne].
  - now apply Qeq_bool_iff.
  - destruct (Qeq_bool q (inject_Z k)) eqn:E; [|reflexivity].
    apply Qeq_bool_iff in E. rewrite Hq in E. unfold Qeq in E. simpl in E. lia.
Qed.

Lemma num_le_int (q : Q) (v k : Z) :
  (q == inject_Z v)%Q -> num_le (Num q) (of_Z k) = (v <=? k).
Proof.
  intros Hq. unfold num_le, of_Z.
  destruct (Z.leb_spec v k) as [H|H].
  - apply Qle_bool_iff. rewrite Hq. unfold Qle. simpl. lia.
  - destruct (Qle_bool q (inject_Z k)) eqn:E; [|reflexivity].
    apply Qle_bool_iff in E. rewrite Hq in E. unfold Qle in E. simpl in E. lia.
Qed.

Lemma num_ge_int (q : Q) (v k : Z) :
  (q == inject_Z v)%Q -> num_ge (Num q) (of_Z k) = (k <=? v).
Proof.
  intros Hq. unfold num_ge, num_le, of_Z.
  destruct (Z.leb_spec k v) as [H|H].
  - apply Qle_bool_iff. rewrite Hq. unfold Qle. simpl. lia.
  - destruct (Qle_bool (inject_Z k) q) eqn:E; [|reflexivity].
    apply Qle_bool_iff in E. rewrite Hq in E. unfold Qle in E. simpl in E. lia.
Qed.

Lemma num_lt_int (q : Q) (v k : Z) :
  (q == inject_Z v)%Q -> num_lt (Num q) (of_Z k) = (v <? k).
Proof.
  intros Hq. unfold num_lt, of_Z.
  pose proof (num_ge_int q v k Hq) as H. unfold num_ge, num_le, of_Z in H.
  rewrite H. destruct (Z.leb_spec k v), (Z.ltb_spec v k); simpl; try reflexivity; lia.
Qed.

Lemma num_gt_int (q : Q) (v k : Z) :
  (q == inject_Z v)%Q -> num_gt (Num q) (of_Z k) = (k <? v).
Proof.
  intros Hq. unfold num_gt, num_lt, of_Z.
  pose proof (num_le_int q v k Hq) as H. unfold num_le, of_Z in H.
  rewrite H. destruct (Z.leb_spec v k), (Z.ltb_spec k v); simpl; try reflexivity; lia.
Qed.

Lemma digit_radix10 (c : N) : is_digit c = true -> is_radix_digit 10 c = true.
Proof.
  intros H. unfold is_radix_digit. rewrite (digit_value_digit c H).
  apply is_digit_range in H. apply Z.ltb_lt. lia.
Qed.

(** [parseInt] of a run of decimal digits is the integer they write. *)
Lemma parseInt_digits (v : jsstring) :
  v <> [] -> forallb is_digit v = true -> parseInt v 10 = Some (digits_value 10 v).
Proof.
  intros Hne Hd. unfold parseInt.
  destruct v as [|c v]; [contradiction|].
  assert (Hc : is_digit c = true) by (simpl in Hd; now apply andb_prop in Hd as [? _]).
  rewrite (trimStart_id c v (digit_not_space c Hc)).
  assert (Hsign : take_sign (c :: v) = (false, c :: v)).
  { apply is_digit_range in Hc. unfold take_sign. chr_eval. eqb_cases c. reflexivity. }
  rewrite Hsign. change (10 =? 16) with false. cbv beta iota. simpl andb. cbv iota.
  rewrite span_all.
  - reflexivity.
  - apply forallb_forall. intros x Hx. rewrite forallb_forall in Hd.
    apply digit_radix10. now apply Hd.
Qed.

(** ** Case *)

Lemma toLowerCase_ascii {U : Unicode} (s : jsstring) :
  forallb is_ascii s = true -> toLowerCase s = map lower_char s.
Proof. intros H. unfold toLowerCase. now rewrite H. Qed.

Lemma toUpperCase_ascii {U : Unicode} (s : jsstring) :
  forallb is_ascii s = true -> toUpperCase s = map upper_char s.
Proof. intros H. unfold toUpperCase. now rewrite H. Qed.

(** The parts of a string are one more than its separators. *)
Lemma split_length (c : N) (s : jsstring) :
  List.length (split [c] s) = S (count_occ N.eq_dec s c).
Proof.
  induction s as [|x s IH]; [reflexivity|].
  rewrite split_cons. destruct (N.eqb_spec c x) as [->|Hne].
  - simpl List.length. rewrite IH. now rewrite count_occ_cons_eq.
  - rewrite count_occ_cons_neq by congruence. rewrite <- IH.
    pose proof (split_not_nil c s) as Hn. now destruct (split [c] s).
Qed.

End JSFacts.

(** * The address classifier *)

Module SsrfFacts.
Import JS Eff Ssrf JSFacts.

(** A run of decimal digits that writes the octet [v]. *)
Definition octet (s : jsstring) (v : Z) : Prop :=
  s <> [] /\ forallb is_digit s = true /\ digits_value 10 s = v /\ 0 <= v <= 255.

(** The dotted quad [s1.s2.s3.s4]. *)
Definition dotted (s1 s2 s3 s4 : jsstring) : jsstring :=
  s1 ++ js "." ++ s2 ++ js "." ++ s3 ++ js "." ++ s4.

(** 127.0.0.0/8, 10.0.0.0/8, 172.16.0.0 to 172.31.255.255, 192.168.0.0/16,
    169.254.0.0/16 and 0.0.0.0/8, by the first two octets. *)
Definition private_block (a b : Z) : Prop :=
  a = 127 \/ a = 10 \/ (a = 172 /\ 16 <= b <= 31) \/ (a = 192 /\ b = 168)
  \/ (a = 169 /\ b = 254) \/ a = 0.

Definition private_blockb (a b : Z) : bool :=
  (a =? 127) || (a =? 10) || ((a =? 172) && (16 <=? b) && (b <=? 31))
  || ((a =? 192) && (b =? 168)) || ((a =? 169) && (b =? 254)) || (a =? 0).

Lemma private_blockb_spec (a b : Z) : private_blockb a b = true <-> private_block a b.
Proof. unfold private_blockb, private_block. lia. Qed.

Lemma digits_no_char (s : jsstring) (c : N) :
  forallb is_digit s = true -> is_digit c = false -> ~ In c s.
Proof.
  intros Hs Hc Hin. rewrite forallb_forall in Hs. specialize (Hs c Hin). congruence.
Qed.

Lemma split_dotted (s1 s2 s3 s4 : jsstring) :
  forallb is_digit s1 = true -> forallb is_digit s2 = true ->
  forallb is_digit s3 = true -> forallb is_digit s4 = true ->
  split (js ".") (dotted s1 s2 s3 s4) = [s1; s2; s3; s4].
Proof.
  intros H1 H2 H3 H4. unfold dotted. change (js ".") with [46%N]. simpl app.
  rewrite !split_app, split_free; auto using digits_no_char.
Qed.

Lemma dotted_no_colon (s1 s2 s3 s4 : jsstring) :
  forallb is_digit s1 = true -> forallb is_digit s2 = true ->
  forallb is_digit s3 = true -> forallb is_digit s4 = true ->
  includes (js ":") (dotted s1 s2 s3 s4) = false.
Proof.
  intros H1 H2 H3 H4. change (js ":") with [58%N]. apply includes_char_false.
  unfold dotted. change (js ".") with [46%N]. simpl app.
  repeat (rewrite in_app_iff; simpl).
  pose proof (digits_no_char s1 58%N H1 eq_refl).
  pose proof (digits_no_char s2 58%N H2 eq_refl).
  pose proof (digits_no_char s3 58%N H3 eq_refl).
  pose proof (digits_no_char s4 58%N H4 eq_refl).
  intuition congruence.
Qed.

Lemma octet_Number (s : jsstring) (v : Z) :
  octet s v -> exists q, Number s = Num q /\ (q == inject_Z v)%Q.
Proof.
  intros (Hne & Hd & Hv & Hr). subst v. apply Number_digits; auto.
  split; [lia|]. change (2 ^ 52) with 4503599627370496. lia.
Qed.

Lemma octet_not_bad (q : Q) (v : Z) :
  (q == inject_Z v)%Q -> 0 <= v <= 255 -> bad_octet (Num q) = false.
Proof.
  intros Hq Hv. unfold bad_octet. simpl isNaN.
  rewrite (num_lt_int q v 0 Hq), (num_gt_int q v 255 Hq).
  destruct (Z.ltb_spec v 0), (Z.ltb_spec 255 v); try lia; reflexivity.
Qed.

(** On a dotted quad of octets the IPv4 rules decide by the first two. *)
Lemma isPrivateIPv4_dotted (s1 s2 s3 s4 : jsstring) (a b c d : Z) :
  octet s1 a -> octet s2 b -> octet s3 c -> octet s4 d ->
  isPrivateIPv4 (dotted s1 s2 s3 s4) = private_blockb a b.
Proof.
  intros O1 O2 O3 O4.
  destruct (octet_Number _ _ O1) as (q1 & N1 & E1).
  destruct (octet_Number _ _ O2) as (q2 & N2 & E2).
  destruct (octet_Number _ _ O3) as (q3 & N3 & E3).
  destruct (octet_Number _ _ O4) as (q4 & N4 & E4).
  unfold isPrivateIPv4.
  rewrite split_dotted by (apply O1 || apply O2 || apply O3 || apply O4).
  simpl map. rewrite N1, N2, N3, N4. simpl List.length. simpl Nat.eqb. simpl negb.
  simpl existsb.
  rewrite (octet_not_bad q1 a), (octet_not_bad q2 b), (octet_not_bad q3 c),
    (octet_not_bad q4 d) by (assumption || apply O1 || apply O2 || apply O3 || apply O4).
  simpl orb. cbv iota. simpl nth.
  rewrite !(num_eq_int q1 a) by assumption.
  rewrite !(num_eq_int q2 b) by assumption.
  rewrite (num_ge_int q2 b 16), (num_le_int q2 b 31) by assumption.
  unfold private_blockb.
  destruct (a =? 127), (a =? 10), (a =? 172), (16 <=? b), (b <=? 31), (a =? 192),
    (b =? 168), (a =? 169), (b =? 254), (a =? 0); reflexivity.
Qed.

(** A dotted quad in which an octet is written by a number above 255 is
    treated as private. *)
Lemma isPrivateIPv4_large (s1 s2 s3 s4 : jsstring) :
  Forall (fun p => p <> [] /\ forallb is_digit p = true /\ digits_value 10 p < 2 ^ 52)
         [s1; s2; s3; s4] ->
  Exists (fun p => 255 < digits_value 10 p) [s1; s2; s3; s4] ->
  isPrivateIPv4 (dotted s1 s2 s3 s4) = true.
Proof.
  intros Hall Hex. unfold isPrivateIPv4.
  assert (Hd : Forall (fun p => forallb is_digit p = true) [s1; s2; s3; s4]).
  { eapply Forall_impl; [exact Hall|]. simpl. tauto. }
  rewrite split_dotted by (repeat (apply Forall_cons_iff in Hd as [? Hd]); assumption).
  change (negb (Nat.eqb (List.length (map Number [s1; s2; s3; s4])) 4)) with false.
  rewrite orb_false_l.
  assert (Hbad : existsb bad_octet (map Number [s1; s2; s3; s4]) = true);
    [|now rewrite Hbad].
  apply List.existsb_exists. apply List.Exists_exists in Hex as (p & Hin & Hp).
  rewrite List.Forall_forall in Hall. destruct (Hall p Hin) as (Hne & Hdig & Hlt).
  exists (Number p). split; [now apply in_map|].
  assert (H0 : 0 <= digits_value 10 p) by lia.
  destruct (Number_digits p Hne Hdig (conj H0 Hlt)) as (q & -> & Hq).
  unfold bad_octet. simpl isNaN. rewrite (num_gt_int q _ 255 Hq).
  destruct (Z.ltb_spec 255 (digits_value 10 p)); [|lia]. now rewrite orb_true_r.
Qed.

(** The strings that write an IPv4 address: four decimal octets with dots
    between them. *)
Definition dotted_quad (ip : jsstring) : Prop :=
  exists s1 s2 s3 s4 a b c d,
    octet s1 a /\ octet s2 b /\ octet s3 c /\ octet s4 d /\ ip = dotted s1 s2 s3 s4.

Lemma dotted_quad_digits (ip : jsstring) : dotted_quad ip -> dotted_digits ip = true.
Proof.
  intros (s1 & s2 & s3 & s4 & a & b & c & d & O1 & O2 & O3 & O4 & ->).
  unfold dotted_digits.
  rewrite split_dotted by (apply O1 || apply O2 || apply O3 || apply O4).
  destruct O1 as (N1 & D1 & _), O2 as (N2 & D2 & _), O3 as (N3 & D3 & _),
    O4 as (N4 & D4 & _).
  simpl. rewrite D1, D2, D3, D4.
  rewrite (str_eqb_neq _ _ N1), (str_eqb_neq _ _ N2), (str_eqb_neq _ _ N3),
    (str_eqb_neq _ _ N4). reflexivity.
Qed.

Section Classifier.
Context {U : Unicode}.

Lemma isPrivateIP_dotted (s1 s2 s3 s4 : jsstring) (a b c d : Z) :
  octet s1 a -> octet s2 b -> octet s3 c -> octet s4 d ->
  isPrivateIP (dotted s1 s2 s3 s4) = Ret (private_blockb a b).
Proof.
  intros O1 O2 O3 O4. unfold isPrivateIP.
  destruct (str_eqb (dotted s1 s2 s3 s4) (js "169.254.169.254")) eqn:E.
  - apply str_eqb_eq in E.
    pose proof (isPrivateIPv4_dotted _ _ _ _ _ _ _ _ O1 O2 O3 O4) as H.
    rewrite E in H. rewrite <- H. reflexivity.
  - rewrite dotted_no_colon by (apply O1 || apply O2 || apply O3 || apply O4).
    f_equal. now apply isPrivateIPv4_dotted with (c := c) (d := d).
Qed.

(** On a string without a colon the IPv4 rules decide. *)
Lemma isPrivateIP_colon_free (ip : jsstring) :
  includes (js ":") ip = false -> isPrivateIPv4 ip = true -> isPrivateIP ip = Ret true.
Proof.
  intros Hc Hp. unfold isPrivateIP. rewrite Hc, Hp. now destruct (str_eqb _ _).
Qed.

(** C1 (as the code has it).  A string without a colon that is no dotted
    quad of decimal octets is not always classified private: [Number] takes
    white space around the digits, an empty part (as 0), and literals in
    base 16, 8 and 2 or with an exponent, so " 8.8.8.8 ", "8.8.8." and
    "0x8.0b1000.0o10.8e0" all pass for the public 8.8.8.8 (8.8.8.0 for the
    second), against the comment "Invalid IP, treat as blocked". *)
Theorem malformed_quad_not_private :
  (~ dotted_quad (js " 8.8.8.8 ")
   /\ includes (js ":") (js " 8.8.8.8 ") = false
   /\ isPrivateIP (js " 8.8.8.8 ") = Ret false)
  /\ (~ dotted_quad (js "8.8.8.")
      /\ includes (js ":") (js "8.8.8.") = false
      /\ isPrivateIP (js "8.8.8.") = Ret false)
  /\ (~ dotted_quad (js "0x8.0b1000.0o10.8e0")
      /\ includes (js ":") (js "0x8.0b1000.0o10.8e0") = false
      /\ isPrivateIP (js "0x8.0b1000.0o10.8e0") = Ret false).
Proof.
  repeat split; try reflexivity; intros H; apply dotted_quad_digits in H;
    vm_compute in H; discriminate.
Qed.

(** C5 (as the code has it).  isPrivateIP is not total, and it does not
    classify every malformed string as private: with more than eight groups
    around a "::" the length handed to [Array] is negative and a RangeError
    is thrown; with a last group of nine digits after the IPv4-mapped prefix
    the second of the "last two segments" is undefined and its [slice] throws
    a TypeError; "8..8.8", whose empty part [Number] converts to 0, and
    "zzzz::1", whose first group is no number at all, are classified not
    private. *)
Theorem isPrivateIP_throws_and_fails_open :
  isPrivateIP (js "1:2:3:4:5::6:7:8:9") = Throw invalid_array_length
  /\ isPrivateIP (js "::ffff:0:123456789") = Throw undefined_slice
  /\ isPrivateIP (js "8..8.8") = Ret false
  /\ isPrivateIP (js "zzzz::1") = Ret false.
Proof. repeat split; reflexivity. Qed.

(** X4.  A dotted quad of decimal octets outside the six blocks is
    classified not private. *)
Theorem public_quad_not_private (s1 s2 s3 s4 : jsstring) (a b c d : Z) :
  octet s1 a -> octet s2 b -> octet s3 c -> octet s4 d ->
  ~ private_block a b ->
  isPrivateIP (dotted s1 s2 s3 s4) = Ret false.
Proof.
  intros O1 O2 O3 O4 Hb.
  rewrite (isPrivateIP_dotted s1 s2 s3 s4 a b c d) by assumption. f_equal.
  destruct (private_blockb a b) eqn:E; [|reflexivity].
  apply private_blockb_spec in E. contradiction.
Qed.

(** X22.  The IPv4 rules where they hold.  Every dotted quad of decimal
    octets in 127.0.0.0/8, 10.0.0.0/8, 172.16.0.0 to 172.31.255.255,
    192.168.0.0/16, 169.254.0.0/16 or 0.0.0.0/8 is classified private; so is
    every string without a colon that has more or fewer than three dots, and
    every dotted quad of decimal numbers (below 2^52) of which one is above
    255. *)
Theorem private_quad_is_private :
  (forall s1 s2 s3 s4 a b c d,
      octet s1 a -> octet s2 b -> octet s3 c -> octet s4 d ->
      private_block a b ->
      isPrivateIP (dotted s1 s2 s3 s4) = Ret true)
  /\ (forall ip,
        ~ In (chr ":") ip -> count_occ N.eq_dec ip (chr ".") <> 3%nat ->
        isPrivateIP ip = Ret true)
  /\ (forall s1 s2 s3 s4,
        Forall (fun p => p <> [] /\ forallb is_digit p = true /\ digits_value 10 p < 2 ^ 52)
               [s1; s2; s3; s4] ->
        Exists (fun p => 255 < digits_value 10 p) [s1; s2; s3; s4] ->
        isPrivateIP (dotted s1 s2 s3 s4) = Ret true).
Proof.
  split; [|split].
  - intros s1 s2 s3 s4 a b c d O1 O2 O3 O4 Hb.
    rewrite (isPrivateIP_dotted s1 s2 s3 s4 a b c d) by assumption.
    f_equal. now apply private_blockb_spec.
  - intros ip Hc Hdots. apply isPrivateIP_colon_free.
    + now apply includes_char_false.
    + unfold isPrivateIPv4. rewrite length_map. change (js ".") with [chr "."].
      rewrite split_length.
      destruct (Nat.eqb_spec (S (count_occ N.eq_dec ip (chr "."))) 4) as [E|E];
        [|reflexivity].
      exfalso. apply Hdots. lia.
  - intros s1 s2 s3 s4 Hall Hex. apply isPrivateIP_colon_free.
    + apply dotted_no_colon;
        repeat (apply Forall_cons_iff in Hall as [(_ & ? & _) Hall]); assumption.
    + now apply isPrivateIPv4_large.
Qed.

End Classifier.

Lemma octet_intro (s : jsstring) (v : Z) :
  (negb (str_eqb s []) && forallb is_digit s && (digits_value 10 s =? v)
   && (0 <=? v) && (v <=? 255))%bool = true -> octet s v.
Proof.
  intros H. repeat (apply andb_prop in H as [H ?]).
  apply negb_true_iff in H. repeat split; try lia; auto.
  intros ->. discriminate.
Qed.

Import Toy.

Lemma public_quad_not_private_witness : isPrivateIP (js "93.184.216.34") = Ret false.
Proof.
  apply (public_quad_not_private (js "93") (js "184") (js "216") (js "34") 93 184 216 34);
    try (apply octet_intro; reflexivity).
  unfold private_block. lia.
Defined.

End SsrfFacts.

(** * The target resolver *)

Module ResolverFacts.
Import JS Eff Ssrf JSFacts SsrfFacts.

Ltac munfold :=
  repeat progress
    (unfold mbind, M_bind, bindM, try_catch, attempt, first_address, call, emit,
       ret, throw, lift, out_of_fuel in * ).

Lemma is_hex_range (c : N) :
  is_hex c = true <-> (48 <= c <= 57 \/ 97 <= c <= 102 \/ 65 <= c <= 70)%N.
Proof.
  unfold is_hex, is_radix_digit, digit_value, is_digit. chr_eval.
  destruct (N.leb_spec 48 c), (N.leb_spec c 57), (N.leb_spec 97 c), (N.leb_spec c 122),
    (N.leb_spec 65 c), (N.leb_spec c 90); simpl;
    rewrite ?Z.ltb_lt; split; intros; try lia; try discriminate.
Qed.

Lemma hex_lower_range (c : N) :
  is_hex c = true -> (48 <= lower_char c <= 57 \/ 97 <= lower_char c <= 102)%N.
Proof.
  rewrite is_hex_range. unfold lower_char, is_upper. chr_eval.
  destruct (N.leb_spec 65 c), (N.leb_spec c 90); simpl; lia.
Qed.

Lemma hex_no_char (h : jsstring) (c : N) :
  forallb is_hex h = true -> is_hex c = false -> ~ In c h.
Proof.
  intros Hs Hc Hin. rewrite forallb_forall in Hs. specialize (Hs c Hin). congruence.
Qed.

Lemma hex_not_ipv4 (h : jsstring) : forallb is_hex h = true -> ipv4Regex h = false.
Proof.
  intros H. unfold ipv4Regex. change (js ".") with [46%N].
  rewrite split_free by (now apply hex_no_char). reflexivity.
Qed.

Lemma strip_open_hex (h : jsstring) : forallb is_hex h = true -> strip_open h = h.
Proof.
  destruct h as [|c h]; [reflexivity|]. simpl. intros H.
  apply andb_prop in H as [Hc _]. apply is_hex_range in Hc. chr_eval.
  destruct (N.eqb_spec c 91); [lia|reflexivity].
Qed.

Lemma strip_close_hex (h : jsstring) : forallb is_hex h = true -> strip_close h = h.
Proof.
  intros H. unfold strip_close.
  destruct (rev h) as [|c r] eqn:E.
  - apply (f_equal (@rev N)) in E. rewrite rev_involutive in E. now subst.
  - assert (Hc : is_hex c = true).
    { rewrite forallb_forall in H. apply H. apply in_rev. rewrite E. now left. }
    apply is_hex_range in Hc. chr_eval. destruct (N.eqb_spec c 93); [lia|reflexivity].
Qed.

Lemma hex_ipv6 (h : jsstring) : h <> [] -> forallb is_hex h = true -> ipv6Regex h = true.
Proof.
  intros Hne H. unfold ipv6Regex.
  rewrite (strip_open_hex h H), (strip_close_hex h H), str_eqb_nil.
  destruct h as [|c h]; [contradiction|]. cbv beta iota. simpl negb.
  rewrite andb_true_l.
  apply forallb_forall. intros x Hx. rewrite forallb_forall in H. now rewrite (H x Hx).
Qed.

Lemma hex_ascii (h : jsstring) : forallb is_hex h = true -> forallb is_ascii h = true.
Proof.
  intros H. apply forallb_forall. intros c Hc. rewrite forallb_forall in H.
  specialize (H c Hc). apply is_hex_range in H. unfold is_ascii. apply N.ltb_lt. lia.
Qed.

(** A code unit of a string that is no separator lies in one of its parts. *)
Lemma In_split (sep c : N) (s : jsstring) :
  In c s -> c <> sep -> exists p, In p (split [sep] s) /\ In c p.
Proof.
  intros Hin Hne. induction s as [|x s IH]; [destruct Hin|].
  rewrite split_cons. destruct Hin as [->|Hin].
  - destruct (N.eqb_spec sep c) as [E|_]; [congruence|].
    destruct (split [sep] s) as [|p ps]; simpl; eexists;
      (split; [left; reflexivity|left; reflexivity]).
  - destruct (IH Hin) as (p & Hp & Hc).
    destruct (N.eqb_spec sep x) as [_|_]; [exists p; split; [now right|assumption]|].
    destruct (split [sep] s) as [|q qs]; [destruct Hp|]. simpl.
    destruct Hp as [->|Hp].
    + exists (x :: p). split; [now left|now right].
    + exists p. split; [now right|assumption].
Qed.

(** What the pattern for IPv4 takes holds digits and dots only. *)
Lemma ipv4Regex_chars (h : jsstring) (c : N) :
  ipv4Regex h = true -> In c h -> c = chr "." \/ is_digit c = true.
Proof.
  intros H Hin. destruct (N.eq_dec c (chr ".")) as [E|Hne]; [now left|right].
  unfold ipv4Regex in H. apply andb_prop in H as [_ H].
  destruct (In_split (chr ".") c h Hin Hne) as (p & Hp & Hc).
  rewrite forallb_forall in H. specialize (H p Hp).
  apply andb_prop in H as [_ H]. rewrite forallb_forall in H. auto.
Qed.

(** What is left of [h] without a bracket in front and one at the end. *)
Lemma remove_brackets_spec (h : jsstring) :
  exists a b, h = a ++ remove_brackets h ++ b
              /\ (a = [] \/ a = js "[") /\ (b = [] \/ b = js "]").
Proof.
  unfold remove_brackets.
  assert (Ho : exists a, h = a ++ strip_open h /\ (a = [] \/ a = js "[")).
  { destruct h as [|c h]; [exists []; auto|]. simpl.
    destruct (N.eqb_spec c (chr "[")) as [->|_].
    - exists (js "["). auto.
    - exists []. auto. }
  destruct Ho as (a & Ha & Hab). exists a.
  assert (Hc : exists b, strip_open h = strip_close (strip_open h) ++ b
                         /\ (b = [] \/ b = js "]")).
  { generalize (strip_open h). intros t. unfold strip_close.
    destruct (rev t) as [|c r] eqn:E.
    - apply (f_equal (@rev N)) in E. rewrite rev_involutive in E. subst t.
      exists []. auto.
    - destruct (N.eqb_spec c (chr "]")) as [->|_].
      + exists (js "]"). split; [|now right].
        apply (f_equal (@rev N)) in E. rewrite rev_involutive in E. now subst t.
      + exists []. rewrite app_nil_r. auto. }
  destruct Hc as (b & Hb & Hbb). exists b. rewrite <- Hb. auto.
Qed.

Section Resolver.
Context {U : Unicode} {World Json : Type} (P : Platform World Json).

(** A name made of hexadecimal digits is none of the blocked names. *)
Lemma hex_not_blocked (h : jsstring) :
  forallb is_hex h = true ->
  existsb (str_eqb (toLowerCase h)) BLOCKED_HOSTNAMES = false.
Proof.
  intros H. rewrite toLowerCase_ascii by now apply hex_ascii.
  destruct h as [|c h]; [reflexivity|].
  simpl in H. apply andb_prop in H as [Hc _]. apply hex_lower_range in Hc.
  unfold BLOCKED_HOSTNAMES.
  change (js "localhost") with (108%N :: js "ocalhost").
  change (js "metadata.google.internal") with (109%N :: js "etadata.google.internal").
  change (js "metadata.goog") with (109%N :: js "etadata.goog").
  simpl. eqb_cases (lower_char c). reflexivity.
Qed.

Lemma hex_private (h : jsstring) : forallb is_hex h = true -> isPrivateIP h = Ret true.
Proof.
  intros H.
  assert (Hdot : ~ In 46%N h) by (now apply hex_no_char).
  assert (Hcol : ~ In 58%N h) by (now apply hex_no_char).
  unfold isPrivateIP.
  destruct (str_eqb h (js "169.254.169.254")) eqn:E; [reflexivity|].
  change (js ":") with [58%N].
  apply includes_char_false in Hcol. rewrite Hcol.
  unfold isPrivateIPv4. change (js ".") with [46%N]. now rewrite split_free.
Qed.

(** C10.  For an http or https URL whose host name is made of hexadecimal
    digits only (so it has no dot), such as "beef" or "cafe",
    resolveAndValidate throws the private/internal-IP error, and it makes no
    DNS lookup: the world and the trace are left as they were. *)
Theorem hex_hostname_rejected (urlString : jsstring) (u : URL) (s : St World) :
  parseURL P urlString = Some u ->
  protocol u = js "http:" \/ protocol u = js "https:" ->
  hostname u <> [] ->
  forallb is_hex (hostname u) = true ->
  resolveAndValidate P urlString s = Some (Throw (Error msg_private), s).
Proof.
  intros Hu Hp Hne Hhex. unfold resolveAndValidate. rewrite Hu.
  assert (Hscheme : negb (str_eqb (protocol u) (js "http:"))
                    && negb (str_eqb (protocol u) (js "https:")) = false).
  { destruct Hp as [-> | ->]; reflexivity. }
  rewrite Hscheme, (hex_not_blocked _ Hhex), (hex_not_ipv4 _ Hhex), (hex_ipv6 _ Hne Hhex).
  unfold remove_brackets. rewrite (strip_open_hex _ Hhex), (strip_close_hex _ Hhex).
  munfold. rewrite (hex_private _ Hhex). reflexivity.
Qed.

Lemma blocked_In (h : jsstring) :
  existsb (str_eqb h) BLOCKED_HOSTNAMES = true <-> In h BLOCKED_HOSTNAMES.
Proof.
  rewrite List.existsb_exists. split.
  - intros (x & Hx & E). apply str_eqb_eq in E. now subst.
  - intros H. exists h. split; [assumption|apply str_eqb_refl].
Qed.

Lemma scheme_check (u : URL) :
  negb (str_eqb (protocol u) (js "http:")) && negb (str_eqb (protocol u) (js "https:")) = true
  <-> protocol u <> js "http:" /\ protocol u <> js "https:".
Proof.
  rewrite andb_true_iff, !negb_true_iff. split; intros [H1 H2]; split.
  - intros E. apply str_eqb_eq in E. congruence.
  - intros E. apply str_eqb_eq in E. congruence.
  - now apply str_eqb_neq.
  - now apply str_eqb_neq.
Qed.

(** A lookup fails: it is rejected, or it has no records. *)
Definition lookup_failed (r : result (list jsstring)) : Prop :=
  match r with
  | Ret (_ :: _) => False
  | _ => True
  end.

(** A host name that writes an IP address is a dotted quad of decimal
    octets or, for IPv6, holds a colon. *)
Definition ip_literal (h : jsstring) : Prop := dotted_quad h \/ In (chr ":") h.

(** The first address that the lookups of [h] give in world [w]: that of
    the A lookup, or, when it fails, that of the AAAA lookup after it. *)
Definition first_resolved (h : jsstring) (w : World) : option jsstring :=
  match resolve4 P h w with
  | (Ret (ip :: _), _) => Some ip
  | (_, w') =>
      match resolve6 P h w' with
      | (Ret (ip :: _), _) => Some ip
      | _ => None
      end
  end.

(** The five cases in which the resolver is said to throw: the URL does not
    parse; its scheme is neither http nor https; its host name is, in lower
    case, on the blocklist; the host name is no IP literal and both lookups
    fail; the literal, or the first address resolved, is classified
    private. *)
Definition said_to_throw (urlString : jsstring) (w : World) : Prop :=
  parseURL P urlString = None
  \/ exists u,
       parseURL P urlString = Some u
       /\ ((protocol u <> js "http:" /\ protocol u <> js "https:")
           \/ In (toLowerCase (hostname u)) BLOCKED_HOSTNAMES
           \/ (~ ip_literal (hostname u) /\ first_resolved (hostname u) w = None)
           \/ (ip_literal (hostname u)
               /\ exists ip, (hostname u = ip \/ hostname u = js "[" ++ ip ++ js "]")
                             /\ isPrivateIP ip = Ret true)
           \/ (~ ip_literal (hostname u)
               /\ exists ip, first_resolved (hostname u) w = Some ip
                             /\ isPrivateIP ip = Ret true)).

(** C4 (as the code has it).  resolveAndValidate also throws when none of
    the five cases holds.  A host name made of hexadecimal digits, some of
    them letters, writes no IP address (it has neither dot nor colon) and is
    on no blocklist; yet the pattern "is already an IP address" takes it for
    an IPv6 literal, so it is never looked up, the classifier is handed the
    name itself, and the call throws the private/internal-IP error, although
    the A lookup of the name returns a public address. *)
Theorem hex_name_taken_for_address (urlString : jsstring) (u : URL) (s : St World)
    (ip : jsstring) (rest : list jsstring) (w1 : World) :
  parseURL P urlString = Some u ->
  protocol u = js "http:" \/ protocol u = js "https:" ->
  forallb is_hex (hostname u) = true ->
  forallb is_digit (hostname u) = false ->
  resolve4 P (hostname u) (world s) = (Ret (ip :: rest), w1) ->
  isPrivateIP ip = Ret false ->
  resolveAndValidate P urlString s = Some (Throw (Error msg_private), s)
  /\ ~ said_to_throw urlString (world s).
Proof.
  intros Hu Hp Hhex Hletter Hlookup Hpublic.
  assert (Hne : hostname u <> []).
  { intros E. rewrite E in Hletter. discriminate. }
  assert (Hlit : ~ ip_literal (hostname u)).
  { intros [Hq|Hc].
    - apply dotted_quad_digits in Hq. unfold dotted_digits in Hq.
      change (js ".") with [46%N] in Hq.
      rewrite split_free in Hq by (now apply hex_no_char).
      discriminate.
    - revert Hc. now apply hex_no_char. }
  assert (Hfirst : first_resolved (hostname u) (world s) = Some ip).
  { unfold first_resolved. now rewrite Hlookup. }
  split.
  - unfold resolveAndValidate. rewrite Hu.
    assert (Hscheme : negb (str_eqb (protocol u) (js "http:"))
                      && negb (str_eqb (protocol u) (js "https:")) = false).
    { destruct Hp as [-> | ->]; reflexivity. }
    rewrite Hscheme, (hex_not_blocked _ Hhex), (hex_not_ipv4 _ Hhex), (hex_ipv6 _ Hne Hhex).
    unfold remove_brackets. rewrite (strip_open_hex _ Hhex), (strip_close_hex _ Hhex).
    munfold. rewrite (hex_private _ Hhex). reflexivity.
  - intros [Hnone|(u' & Hu' & Hcase)]; [congruence|].
    rewrite Hu in Hu'. injection Hu' as <-.
    destruct Hcase as [[H1 H2]|[Hb|[[_ Hf]|[[Hl _]|(_ & ip' & Hf & Hpriv)]]]].
    + destruct Hp as [Hp|Hp]; contradiction.
    + apply blocked_In in Hb. rewrite (hex_not_blocked _ Hhex) in Hb. discriminate.
    + congruence.
    + contradiction.
    + rewrite Hfirst in Hf. injection Hf as <-. congruence.
Qed.

(** How the address to classify is found for the host name [h]: it is the
    name itself, without a bracket in front and one at the end, and nothing
    is looked up; or the first address of the A lookup; or, that lookup
    having failed, the first address of the AAAA lookup. *)
Definition address_of (h : jsstring) (s : St World) (ip : jsstring) (s' : St World) : Prop :=
  (s' = s
   /\ ~ In (chr "[") ip /\ ~ In (chr "]") ip
   /\ exists a b, h = a ++ ip ++ b /\ (a = [] \/ a = js "[") /\ (b = [] \/ b = js "]"))
  \/ (exists rest w1,
        resolve4 P h (world s) = (Ret (ip :: rest), w1)
        /\ s' = {| world := w1; trace := trace s ++ [EvResolve4 h] |})
  \/ (exists r4 w1 rest w2,
        resolve4 P h (world s) = (r4, w1) /\ lookup_failed r4
        /\ resolve6 P h w1 = (Ret (ip :: rest), w2)
        /\ s' = {| world := w2; trace := trace s ++ [EvResolve4 h; EvResolve6 h] |}).

Lemma address_found (h : jsstring) (s : St World) (ip : jsstring) (s' : St World) :
  (if ipv4Regex h then ret h
   else if ipv6Regex h then ret (remove_brackets h)
   else
     try_catch
       (first_address (call (fun _ => EvResolve4 h) (resolve4 P h)))
       (fun _ =>
          try_catch
            (first_address (call (fun _ => EvResolve6 h) (resolve6 P h)))
            (fun _ => throw (Error msg_dns)))) s = Some (Ret ip, s') ->
  address_of h s ip s'.
Proof.
  destruct (ipv4Regex h) eqn:E4.
  { intros [= <- <-]. left. split; [reflexivity|].
    split; [|split].
    - intros H. destruct (ipv4Regex_chars h _ E4 H) as [H'|H']; vm_compute in H'; discriminate.
    - intros H. destruct (ipv4Regex_chars h _ E4 H) as [H'|H']; vm_compute in H'; discriminate.
    - exists [], []. rewrite app_nil_r. auto. }
  destruct (ipv6Regex h) eqn:E6.
  { intros [= <- <-]. left. split; [reflexivity|].
    unfold ipv6Regex in E6. apply andb_prop in E6 as [_ E6].
    fold (remove_brackets h) in E6. rewrite forallb_forall in E6.
    split; [|split].
    - intros H. specialize (E6 _ H). vm_compute in E6. discriminate.
    - intros H. specialize (E6 _ H). vm_compute in E6. discriminate.
    - apply remove_brackets_spec. }
  munfold. destruct (resolve4 P h (world s)) as [[[|ip4 l]|e] w1] eqn:R4; simpl.
  2:{ intros [= <- <-]. right; left. exists l, w1. auto. }
  all: destruct (resolve6 P h w1) as [[[|ip6 l6]|e6] w2] eqn:R6; simpl;
    intros H; try discriminate; injection H as <- <-;
    right; right; eexists _, w1, l6, w2; rewrite <- app_assoc;
    (split; [exact R4|]); (split; [exact I|]); (split; [exact R6|]); reflexivity.
Qed.

(** What an accepted URL has passed. *)
Lemma resolveAndValidate_accepts (urlString : jsstring) (s : St World) (res : Resolved)
    (s' : St World) :
  resolveAndValidate P urlString s = Some (Ret res, s') ->
  exists u,
    parseURL P urlString = Some u
    /\ (protocol u = js "http:" \/ protocol u = js "https:")
    /\ ~ In (toLowerCase (hostname u)) BLOCKED_HOSTNAMES
    /\ r_hostname res = hostname u
    /\ isPrivateIP (r_ip res) = Ret false
    /\ address_of (hostname u) s (r_ip res) s'.
Proof.
  unfold resolveAndValidate.
  destruct (parseURL P urlString) as [u|]; [|discriminate].
  destruct (negb (str_eqb (protocol u) (js "http:"))
            && negb (str_eqb (protocol u) (js "https:"))) eqn:Hs; [discriminate|].
  destruct (existsb (str_eqb (toLowerCase (hostname u))) BLOCKED_HOSTNAMES) eqn:Hb;
    [discriminate|].
  unfold mbind at 1. unfold M_bind, bindM.
  match goal with |- context [match ?m s with _ => _ end] => destruct (m s) as [[[ip|e] s1]|] eqn:Hip end;
    try discriminate.
  unfold mbind, M_bind, bindM, lift.
  destruct (isPrivateIP ip) as [[|]|e] eqn:Hp; try discriminate.
  intros [= <- <-]. exists u. split; [reflexivity|].
  split.
  { apply andb_false_iff in Hs as [Hs|Hs]; apply negb_false_iff, str_eqb_eq in Hs; auto. }
  split.
  { intros H. apply blocked_In in H. congruence. }
  split; [reflexivity|]. split; [exact Hp|].
  now apply address_found.
Qed.

(** A host name with a letter after f: it writes no IP address. *)
Definition named (h : jsstring) : Prop :=
  exists c, In c h /\ (chr "g" <= c <= chr "z")%N.

Lemma named_not_ipv4 (h : jsstring) : named h -> ipv4Regex h = false.
Proof.
  intros (c & Hin & Hc). destruct (ipv4Regex h) eqn:E; [|reflexivity]. exfalso.
  revert Hc. chr_eval. intros Hc.
  destruct (ipv4Regex_chars h c E Hin) as [->|Hd].
  - vm_compute in Hc. destruct Hc as [Hc _]. now apply Hc.
  - apply is_digit_range in Hd. lia.
Qed.

Lemma named_not_ipv6 (h : jsstring) : named h -> ipv6Regex h = false.
Proof.
  intros (c & Hin & Hc). destruct (ipv6Regex h) eqn:E; [|reflexivity]. exfalso.
  revert Hc. chr_eval. intros Hc.
  unfold ipv6Regex in E. apply andb_prop in E as [_ E]. fold (remove_brackets h) in E.
  destruct (remove_brackets_spec h) as (a & b & Hh & Ha & Hb).
  rewrite Hh in Hin. apply in_app_iff in Hin as [Hin|Hin].
  { destruct Ha as [ -> | -> ]; [destruct Hin|].
    destruct Hin as [ <- | [] ]. vm_compute in Hc. destruct Hc as [Hc _]. now apply Hc. }
  apply in_app_iff in Hin as [Hin|Hin].
  2:{ destruct Hb as [ -> | -> ]; [destruct Hin|].
      destruct Hin as [ <- | [] ]. vm_compute in Hc. destruct Hc as [Hc _]. now apply Hc. }
  rewrite forallb_forall in E. specialize (E c Hin).
  apply orb_prop in E as [E|E].
  - apply is_hex_range in E. lia.
  - apply N.eqb_eq in E. subst c. vm_compute in Hc. destruct Hc as [Hc _]. now apply Hc.
Qed.

(** A name that resolves to a private address is rejected, after its A
    lookup. *)
Lemma private_name_rejected (urlString : jsstring) (u : URL) (s : St World)
    (ip : jsstring) (rest : list jsstring) (w1 : World) :
  parseURL P urlString = Some u ->
  protocol u = js "http:" \/ protocol u = js "https:" ->
  ~ In (toLowerCase (hostname u)) BLOCKED_HOSTNAMES ->
  named (hostname u) ->
  resolve4 P (hostname u) (world s) = (Ret (ip :: rest), w1) ->
  isPrivateIP ip = Ret true ->
  resolveAndValidate P urlString s
  = Some (Throw (Error msg_private),
          {| world := w1; trace := trace s ++ [EvResolve4 (hostname u)] |}).
Proof.
  intros Hu Hp Hb Hn Hl Hpriv. unfold resolveAndValidate. rewrite Hu.
  assert (Hscheme : negb (str_eqb (protocol u) (js "http:"))
                    && negb (str_eqb (protocol u) (js "https:")) = false).
  { destruct Hp as [-> | ->]; reflexivity. }
  rewrite Hscheme.
  destruct (existsb (str_eqb (toLowerCase (hostname u))) BLOCKED_HOSTNAMES) eqn:Eb.
  { apply blocked_In in Eb. contradiction. }
  rewrite (named_not_ipv4 _ Hn), (named_not_ipv6 _ Hn).
  munfold. rewrite Hl. simpl. rewrite Hpriv. reflexivity.
Qed.

(** X23.  What resolveAndValidate lets through.  When it returns, the URL
    has parsed with the scheme http or https, its host name is not (in lower
    case) on the blocklist and is the host name returned, and the address
    returned is one that isPrivateIP classifies as not private; that address
    is either the host name itself, without its brackets and with nothing
    looked up, or the first address of the A lookup of the name, or, when
    that lookup failed or had no records, the first address of the AAAA
    lookup.  The lookups made are all the call does to the outside. *)
Theorem accepted_target_is_checked (urlString : jsstring) (s : St World) (res : Resolved)
    (s' : St World) :
  resolveAndValidate P urlString s = Some (Ret res, s') ->
  exists u,
    parseURL P urlString = Some u
    /\ (protocol u = js "http:" \/ protocol u = js "https:")
    /\ ~ In (toLowerCase (hostname u)) BLOCKED_HOSTNAMES
    /\ r_hostname res = hostname u
    /\ isPrivateIP (r_ip res) = Ret false
    /\ ((s' = s
         /\ ~ In (chr "[") (r_ip res) /\ ~ In (chr "]") (r_ip res)
         /\ exists a b, hostname u = a ++ r_ip res ++ b
                        /\ (a = [] \/ a = js "[") /\ (b = [] \/ b = js "]"))
        \/ (exists rest w1,
              resolve4 P (hostname u) (world s) = (Ret (r_ip res :: rest), w1)
              /\ s' = {| world := w1; trace := trace s ++ [EvResolve4 (hostname u)] |})
        \/ (exists r4 w1 rest w2,
              resolve4 P (hostname u) (world s) = (r4, w1) /\ lookup_failed r4
              /\ resolve6 P (hostname u) w1 = (Ret (r_ip res :: rest), w2)
              /\ s' = {| world := w2;
                         trace := trace s ++ [EvResolve4 (hostname u);
                                              EvResolve6 (hostname u)] |})).
Proof.
  intros H. destruct (resolveAndValidate_accepts _ _ _ _ H) as (u & Hu & Hp & Hb & Hh & Hc & Ha).
  exists u. repeat (split; [assumption|]). exact Ha.
Qed.

(** A DNS lookup, as an event. *)
Definition is_lookup (ev : Event World) : Prop :=
  match ev with
  | EvResolve4 _ | EvResolve6 _ => True
  | _ => False
  end.

(** resolveAndValidate always comes back, and what it does to the outside
    is DNS lookups only. *)
Lemma resolveAndValidate_total (urlString : jsstring) (s : St World) :
  exists r s' evs,
    resolveAndValidate P urlString s = Some (r, s')
    /\ trace s' = trace s ++ evs
    /\ Forall is_lookup evs.
Proof.
  assert (Hnil : forall (r : result Resolved),
             exists r0 s' evs, Some (r, s) = Some (r0, s')
                               /\ trace s' = trace s ++ evs /\ Forall is_lookup evs).
  { intros r. exists r, s, []. rewrite app_nil_r. auto. }
  unfold resolveAndValidate.
  destruct (parseURL P urlString) as [u|]; [|apply Hnil].
  destruct (negb _ && negb _); [apply Hnil|].
  destruct (existsb _ BLOCKED_HOSTNAMES); [apply Hnil|].
  assert (Hk : forall ip s1 evs,
             trace s1 = trace s ++ evs -> Forall is_lookup evs ->
             exists r0 s' evs',
               (private ← lift (isPrivateIP ip);
                if private : bool then throw (Error msg_private)
                else ret {| r_hostname := hostname u; r_ip := ip |}) s1 = Some (r0, s')
               /\ trace s' = trace s ++ evs' /\ Forall is_lookup evs').
  { intros ip s1 evs Ht Hf. munfold.
    destruct (isPrivateIP ip) as [[|]|e]; eexists _, s1, evs; auto. }
  unfold mbind at 1. unfold M_bind, bindM.
  destruct (ipv4Regex (hostname u)).
  { unfold ret at 1. apply (Hk _ s []); [now rewrite app_nil_r|constructor]. }
  destruct (ipv6Regex (hostname u)).
  { unfold ret at 1. apply (Hk _ s []); [now rewrite app_nil_r|constructor]. }
  unfold try_catch, first_address, call.
  unfold mbind at 1. unfold M_bind, bindM.
  destruct (resolve4 P (hostname u) (world s)) as [[[|ip l]|e] w1]; simpl.
  2:{ apply (Hk _ _ [EvResolve4 (hostname u)]); [reflexivity|].
      repeat constructor. }
  all: unfold mbind at 1; unfold M_bind, bindM; simpl;
    destruct (resolve6 P (hostname u) w1) as [[[|ip' l']|e'] w2]; simpl;
    try (apply (Hk _ _ [EvResolve4 (hostname u); EvResolve6 (hostname u)]);
         [simpl; now rewrite <- app_assoc|repeat constructor]);
    eexists _, _, [EvResolve4 (hostname u); EvResolve6 (hostname u)];
    (split; [reflexivity|]); (split; [simpl; now rewrite <- app_assoc|repeat constructor]).
Qed.

End Resolver.

Import Toy.

Lemma hex_hostname_rejected_witness :
  resolveAndValidate (Toy.toy 0 [] (Toy.ok_response [] [])) (js "beef") Toy.start
  = Some (Throw (Error msg_private), Toy.start).
Proof.
  apply (hex_hostname_rejected (Toy.toy 0 [] (Toy.ok_response [] [])) (js "beef")
           {| protocol := js "http:"; hostname := js "beef" |} Toy.start).
  - reflexivity.
  - left. reflexivity.
  - discriminate.
  - reflexivity.
Defined.

Lemma hex_name_taken_for_address_witness :
  resolveAndValidate (toy 0 [] (ok_response [] [])) (js "cafe") start
  = Some (Throw (Error msg_private), start)
  /\ ~ said_to_throw (toy 0 [] (ok_response [] [])) (js "cafe") O.
Proof.
  apply (hex_name_taken_for_address (toy 0 [] (ok_response [] [])) (js "cafe")
           {| protocol := js "http:"; hostname := js "cafe" |} start
           (js "93.184.216.34") [] O).
  - reflexivity.
  - left. reflexivity.
  - reflexivity.
  - reflexivity.
  - reflexivity.
  - reflexivity.
Defined.

Lemma accepted_target_is_checked_witness :
  isPrivateIP (js "93.184.216.34") = Ret false
  /\ exists rest w1,
       resolve4 (toy 0 [] (ok_response [] [])) (js "example.com") O
       = (Ret (js "93.184.216.34" :: rest), w1).
Proof.
  destruct (accepted_target_is_checked (toy 0 [] (ok_response [] [])) (js "example.com")
              start {| r_hostname := js "example.com"; r_ip := js "93.184.216.34" |}
              {| world := O; trace := [EvResolve4 (js "example.com")] |} eq_refl)
    as (u & Hu & _ & _ & _ & Hc & Ho).
  split; [exact Hc|].
  injection Hu as <-.
  destruct Ho as [(E & _)|[(rest & w1 & Hr & _)|(r4 & w1 & rest & w2 & _ & _ & _ & E)]].
  - discriminate E.
  - exists rest, w1. exact Hr.
  - discriminate E.
Defined.

End ResolverFacts.

(** * The relay handler *)

Module ProxyFacts.
Import JS Eff Ssrf Proxy JSFacts SsrfFacts ResolverFacts.

Lemma startsWith_prefix (p s : jsstring) :
  startsWith p s = true <-> exists t, s = p ++ t.
Proof.
  revert s. induction p as [|x p IH]; intros s; simpl.
  - split; [intros _; now exists s|reflexivity].
  - destruct s as [|y s].
    + split; [discriminate|intros (t & H); discriminate].
    + rewrite andb_true_iff, N.eqb_eq, IH. split.
      * intros (-> & t & ->). now exists t.
      * intros (t & H). injection H as -> ->. split; [reflexivity|now exists t].
Qed.

Lemma endsWith_suffix (suffix s : jsstring) :
  endsWith suffix s = true <-> exists pre, s = pre ++ suffix.
Proof.
  unfold endsWith. rewrite startsWith_prefix. split.
  - intros (t & H). exists (rev t).
    apply (f_equal (@rev N)) in H. rewrite rev_involutive in H.
    now rewrite H, rev_app_distr, rev_involutive.
  - intros (pre & ->). exists (rev pre). now rewrite rev_app_distr.
Qed.

Section Handler.
Context {U : Unicode} {World Json : Type} (P : Platform World Json) (config : Config).

Local Abbreviation maxRedirects := (proxyMaxRedirects config).

(** The fetches among some events: world, URL and options of each. *)
Fixpoint fetches (evs : list (Event World)) : list (World * jsstring * FetchOptions) :=
  match evs with
  | [] => []
  | EvFetch w u o :: evs' => (w, u, o) :: fetches evs'
  | _ :: evs' => fetches evs'
  end.

(** The state after a fetch of [u] with [opts] that left the world [w1]. *)
Definition fetched (s : St World) (u : jsstring) (opts : FetchOptions) (w1 : World) : St World :=
  {| world := w1; trace := trace s ++ [EvFetch (world s) u opts] |}.

(** [u] is on the allowlist, or there is none. *)
Definition allowed (u : jsstring) : Prop :=
  forall st, allowlist_check P config u st = Some (Ret true, st).

(** The host name [h] is on the allowlist: in lower case it is one of the
    listed domains in lower case, or it ends with a dot and such a domain. *)
Definition on_allowlist (h : jsstring) : Prop :=
  exists domain,
    In domain (proxyAllowedDomains config)
    /\ (toLowerCase h = toLowerCase domain
        \/ exists sub, toLowerCase h = sub ++ js "." ++ toLowerCase domain).

(** [u] may be fetched as far as the allowlist goes: there is no list, or
    the host of [u] is on it. *)
Definition permitted (u : jsstring) : Prop :=
  proxyAllowedDomains config = []
  \/ exists target, parseURL P u = Some target /\ on_allowlist (hostname target).

(** [u] has passed both checks, and [w] is the world that its validation
    left. *)
Definition checked_at (u : jsstring) (w : World) : Prop :=
  allowed u
  /\ exists sa res sb, resolveAndValidate P u sa = Some (Ret res, sb) /\ world sb = w.

(** The fetches of the hops from the [k]-th on: each within the limit,
    with the options of its hop, of a URL that has passed the checks, made
    in the world its validation left. *)
Fixpoint hops (proxyReq : ProxyRequest Json) (k : Z)
    (fs : list (World * jsstring * FetchOptions)) : Prop :=
  match fs with
  | [] => True
  | (w, u, o) :: rest =>
      k <= maxRedirects /\ o = fetchOptions P proxyReq k /\ checked_at u w
      /\ hops proxyReq (k + 1) rest
  end.

Lemma fetches_app (a b : list (Event World)) : fetches (a ++ b) = fetches a ++ fetches b.
Proof.
  induction a as [|[]]; simpl; auto. now rewrite IHa.
Qed.

Lemma fetches_lookups (evs : list (Event World)) :
  Forall (is_lookup (World := World)) evs -> fetches evs = [].
Proof.
  induction 1 as [|ev evs Hev _ IH]; [reflexivity|].
  destruct ev; simpl in *; try contradiction; assumption.
Qed.

Lemma In_fetches (w : World) (u : jsstring) (o : FetchOptions) (evs : list (Event World)) :
  In (EvFetch w u o) evs <-> In (w, u, o) (fetches evs).
Proof.
  induction evs as [|ev evs IH]; simpl; [tauto|].
  destruct ev; simpl; rewrite <- IH; intuition (try discriminate; try congruence).
Qed.

Lemma allowlist_pure (u : jsstring) :
  exists r, forall st, allowlist_check P config u st = Some (r, st).
Proof.
  unfold allowlist_check. destruct (proxyAllowedDomains config).
  - eexists. reflexivity.
  - destruct (parseURL P u); eexists; reflexivity.
Qed.

Lemma allowlist_true (u : jsstring) (st : St World) (st' : St World) :
  allowlist_check P config u st = Some (Ret true, st') -> allowed u.
Proof.
  intros H. destruct (allowlist_pure u) as (r & Hr). rewrite Hr in H.
  injection H as -> _. exact Hr.
Qed.

Lemma isAllowed_spec (h : jsstring) :
  isAllowed config (toLowerCase h) = true <-> on_allowlist h.
Proof.
  unfold isAllowed, on_allowlist. rewrite List.existsb_exists. split.
  - intros (domain & Hin & H). exists domain. split; [assumption|].
    apply orb_true_iff in H as [H|H].
    + left. now apply str_eqb_eq.
    + right. now apply endsWith_suffix.
  - intros (domain & Hin & H). exists domain. split; [assumption|].
    apply orb_true_iff. destruct H as [->|H].
    + left. apply str_eqb_refl.
    + right. now apply endsWith_suffix.
Qed.

Lemma permitted_allowed (u : jsstring) : permitted u -> allowed u.
Proof.
  intros [E|(target & Hu & Ho)] st; unfold allowlist_check.
  - now rewrite E.
  - rewrite Hu. apply isAllowed_spec in Ho. rewrite Ho.
    now destruct (proxyAllowedDomains config).
Qed.

Lemma allowed_permitted (u : jsstring) (st : St World) : allowed u -> permitted u.
Proof.
  intros H. specialize (H st). unfold allowlist_check in H. unfold permitted.
  destruct (proxyAllowedDomains config) as [|d ds] eqn:E; [now left|].
  right. destruct (parseURL P u) as [target|]; [|discriminate].
  exists target. split; [reflexivity|]. apply isAllowed_spec.
  unfold ret in H. congruence.
Qed.

Lemma off_allowlist (u : jsstring) (target : URL) (st : St World) :
  proxyAllowedDomains config <> [] -> parseURL P u = Some target ->
  ~ on_allowlist (hostname target) ->
  allowlist_check P config u st = Some (Ret false, st).
Proof.
  intros Hne Hu Ho. unfold allowlist_check. rewrite Hu.
  destruct (isAllowed config (toLowerCase (hostname target))) eqn:E.
  - apply isAllowed_spec in E. contradiction.
  - now destruct (proxyAllowedDomains config).
Qed.

Lemma attempt_eval {A} (m : M World A) (s s' : St World) (r : result A) :
  m s = Some (r, s') -> attempt m s = Some (Ret r, s').
Proof. intros H. munfold. rewrite H. now destruct r. Qed.

Lemma hops_length (proxyReq : ProxyRequest Json) (fs : list (World * jsstring * FetchOptions)) :
  forall k, hops proxyReq k fs -> (List.length fs <= Z.to_nat (maxRedirects + 1 - k))%nat.
Proof.
  induction fs as [|[[w u] o] rest IH]; intros k H; simpl; [lia|].
  destruct H as (Hk & _ & _ & Hrest). specialize (IH _ Hrest). lia.
Qed.

Lemma hops_nth (proxyReq : ProxyRequest Json) (fs : list (World * jsstring * FetchOptions)) :
  forall k i w u o, hops proxyReq k fs -> nth_error fs i = Some (w, u, o) ->
    o = fetchOptions P proxyReq (k + Z.of_nat i) /\ checked_at u w.
Proof.
  induction fs as [|[[w0 u0] o0] rest IH]; intros k i w u o H Hi.
  - destruct i; discriminate.
  - destruct H as (Hk & Ho & Hc & Hrest). destruct i as [|i]; simpl in Hi.
    + injection Hi as <- <- <-. rewrite Z.add_0_r. auto.
    + destruct (IH _ _ _ _ _ Hrest Hi) as [E C]. split; [|exact C].
      rewrite E. f_equal. lia.
Qed.

(** One turn of the loop, spelled out. *)
Lemma redirect_loop_step (proxyReq : ProxyRequest Json) (fuel : nat) (currentUrl : jsstring)
    (redirectCount : Z) (response0 : option Response) (s : St World) :
  redirectCount <= maxRedirects ->
  redirect_loop P config proxyReq (S fuel) currentUrl redirectCount response0 s =
  let opts := fetchOptions P proxyReq redirectCount in
  match fetch P currentUrl opts (world s) with
  | (Throw e, w1) => Some (Throw e, fetched s currentUrl opts w1)
  | (Ret response, w1) =>
      let s1 := fetched s currentUrl opts w1 in
      if is_redirect (status response) then
        match truthy (headers_get (js "location") (headers response)) with
        | None => Some (Ret (Final (Some response)), s1)
        | Some location =>
            match resolveURL P location currentUrl with
            | Throw e => Some (Throw e, s1)
            | Ret redirectUrl =>
                match resolveAndValidate P redirectUrl s1 with
                | None => None
                | Some (Throw err, s2) =>
                    Some (Ret (Replied (json_error (js "Redirect blocked: " ++ message err) 400)), s2)
                | Some (Ret _, s2) =>
                    match allowlist_check P config redirectUrl s2 with
                    | None => None
                    | Some (Throw e, s3) => Some (Throw e, s3)
                    | Some (Ret false, s3) =>
                        Some (Ret (Replied (json_error
                                (js "Redirect target domain is not in the allowlist") 400)), s3)
                    | Some (Ret true, s3) =>
                        if redirectCount + 1 >? maxRedirects then
                          Some (Ret (Replied (json_error
                                  (js "Too many redirects (max: "
                                   ++ int_toString 10 maxRedirects ++ js ")") 502)), s3)
                        else
                          redirect_loop P config proxyReq fuel redirectUrl (redirectCount + 1)
                            (Some response) s3
                    end
                end
            end
        end
      else Some (Ret (Final (Some response)), s1)
  end.
Proof.
  intros Hk. simpl redirect_loop. destruct (Z.leb_spec redirectCount maxRedirects); [|lia].
  munfold. unfold fetched.
  destruct (fetch P currentUrl (fetchOptions P proxyReq redirectCount) (world s))
    as [[response|e] w1]; [|reflexivity].
  cbv zeta.
  destruct (is_redirect (status response)); [|reflexivity].
  destruct (truthy (headers_get (js "location") (headers response))) as [location|];
    [|reflexivity].
  destruct (resolveURL P location currentUrl) as [redirectUrl|e]; [|reflexivity].
  destruct (resolveAndValidate P redirectUrl _) as [[[res|err] s2]|]; try reflexivity.
  destruct (allowlist_check P config redirectUrl s2) as [[[[|]|e] s3]|]; try reflexivity.
  simpl negb. cbv iota.
  destruct (redirectCount + 1 >? maxRedirects); reflexivity.
Qed.

(** The loop ends within the fuel the handler gives it, and its fetches
    are the one of [currentUrl] followed by those of checked hops. *)
Lemma redirect_loop_trace (proxyReq : ProxyRequest Json) :
  forall fuel currentUrl k response0 s,
    (Z.to_nat (maxRedirects + 1 - k) <= fuel)%nat ->
    exists r s' evs,
      redirect_loop P config proxyReq fuel currentUrl k response0 s = Some (r, s')
      /\ trace s' = trace s ++ evs
      /\ ((maxRedirects < k /\ fetches evs = []) \/
          exists rest,
            fetches evs = (world s, currentUrl, fetchOptions P proxyReq k) :: rest
            /\ k <= maxRedirects /\ hops proxyReq (k + 1) rest).
Proof.
  induction fuel as [|fuel IH]; intros url k resp s Hfuel.
  - simpl. destruct (Z.leb_spec k maxRedirects); [lia|].
    exists (Ret (Final resp)), s, []. rewrite app_nil_r. auto.
  - destruct (Z.leb_spec k maxRedirects) as [Hk|Hk].
    2:{ simpl. destruct (Z.leb_spec k maxRedirects); [lia|].
        exists (Ret (Final resp)), s, []. rewrite app_nil_r. auto. }
    rewrite redirect_loop_step by assumption. cbv zeta.
    set (opts := fetchOptions P proxyReq k).
    assert (Hstop : forall (r : result (LoopExit Json)) s2 evs2,
               trace s2 = trace s ++ EvFetch (world s) url opts :: evs2 ->
               fetches evs2 = [] ->
               exists r0 s' evs,
                 Some (r, s2) = Some (r0, s') /\ trace s' = trace s ++ evs
                 /\ ((maxRedirects < k /\ fetches evs = []) \/
                     exists rest, fetches evs = (world s, url, opts) :: rest
                                  /\ k <= maxRedirects /\ hops proxyReq (k + 1) rest)).
    { intros r s2 evs2 Ht Hf. exists r, s2, (EvFetch (world s) url opts :: evs2).
      split; [reflexivity|]. split; [assumption|]. right. exists [].
      simpl. rewrite Hf. auto. }
    destruct (fetch P url opts (world s)) as [[response|e] w1].
    2:{ apply (Hstop _ _ []); reflexivity. }
    destruct (is_redirect (status response)); [|apply (Hstop _ _ []); reflexivity].
    destruct (truthy (headers_get (js "location") (headers response))) as [location|];
      [|apply (Hstop _ _ []); reflexivity].
    destruct (resolveURL P location url) as [target|e];
      [|apply (Hstop _ _ []); reflexivity].
    destruct (resolveAndValidate_total P target (fetched s url opts w1))
      as (rv & s2 & evs2 & E & Ht & Hl).
    rewrite E. simpl in Ht. rewrite <- app_assoc in Ht. simpl in Ht.
    apply fetches_lookups in Hl.
    destruct rv as [res|err]; [|now apply (Hstop _ _ evs2)].
    destruct (allowlist_pure target) as (ra & Hra). rewrite Hra.
    destruct ra as [[|]|e]; try (now apply (Hstop _ _ evs2)).
    destruct (k + 1 >? maxRedirects) eqn:Hc; [now apply (Hstop _ _ evs2)|].
    destruct (IH target (k + 1) (Some response) s2) as (r & s3 & evs3 & E3 & Ht3 & Hf3).
    { lia. }
    exists r, s3, (EvFetch (world s) url opts :: evs2 ++ evs3).
    split; [exact E3|]. split.
    { rewrite Ht3, Ht, <- app_assoc. reflexivity. }
    right. exists (fetches evs3). simpl. rewrite fetches_app, Hl. simpl.
    split; [reflexivity|]. split; [assumption|].
    destruct Hf3 as [[_ ->] | (rest & -> & Hk1 & Hrest)]; [exact I|].
    simpl. split; [assumption|]. split; [reflexivity|]. split; [|assumption].
    split; [exact Hra|]. exists (fetched s url opts w1), res, s2. auto.
Qed.

(** ** Reading the body *)

Local Abbreviation cap := (proxyMaxResponseSize config).

(** The bytes of some chunks. *)
Definition bytes (cs : list (list N)) : Z := Z.of_nat (List.length (concat cs)).

(** The reads that deliver the chunks [cs]. *)
Definition reads (cs : list (list N)) : list (Event World) :=
  map (fun c => EvRead (List.length c)) cs.

Lemma bytes_cons (c : list N) (cs : list (list N)) :
  bytes (c :: cs) = Z.of_nat (List.length c) + bytes cs.
Proof. unfold bytes. simpl. rewrite length_app. lia. Qed.

Lemma bytes_app (a b : list (list N)) : bytes (a ++ b) = bytes a + bytes b.
Proof. unfold bytes. rewrite concat_app, length_app. lia. Qed.

Lemma bytes_nonneg (cs : list (list N)) : 0 <= bytes cs.
Proof. unfold bytes. lia. Qed.

Lemma fetches_reads (cs : list (list N)) : fetches (reads cs) = [].
Proof. induction cs; simpl; auto. Qed.

Definition after (s : St World) (evs : list (Event World)) : St World :=
  {| world := world s; trace := trace s ++ evs |}.

(** What the read loop comes to.  While the chunks still to come fit under
    the cap it reads them all and ends as the stream ends; otherwise it
    stops at the first chunk that takes the total over the cap, cancels, and
    has kept only the chunks before that one. *)
Lemma read_loop_spec (failure : option exn) :
  forall pending chunks totalSize s,
    totalSize <= cap ->
    (totalSize + bytes pending <= cap ->
     read_loop config pending failure chunks totalSize s
     = Some (match failure with
             | None => Ret (ReadDone (chunks ++ pending))
             | Some err => Throw err
             end, after s (reads pending)))
    /\ (cap < totalSize + bytes pending ->
        exists taken c rest,
          pending = taken ++ c :: rest
          /\ totalSize + bytes taken <= cap
          /\ cap < totalSize + bytes taken + Z.of_nat (List.length c)
          /\ read_loop config pending failure chunks totalSize s
             = Some (Ret (ReadTooLarge (chunks ++ taken)),
                     after s (reads (taken ++ [c]) ++ [EvCancel]))).
Proof.
  induction pending as [|value pending IH]; intros chunks totalSize s Hinv.
  - split.
    + intros _. simpl. unfold after, reads. simpl. rewrite !app_nil_r.
      destruct s. destruct failure; reflexivity.
    + unfold bytes. simpl. lia.
  - simpl read_loop. munfold. cbv zeta. rewrite bytes_cons.
    set (total' := totalSize + Z.of_nat (List.length value)).
    destruct (Z.gtb_spec total' cap) as [Hover|Hfit].
    + split; [pose proof (bytes_nonneg pending); lia|].
      intros _. exists [], value, pending. unfold bytes at 1 2. simpl.
      split; [reflexivity|]. split; [lia|]. split; [lia|].
      unfold after. simpl. rewrite app_nil_r, <- app_assoc. reflexivity.
    + destruct (IH (chunks ++ [value])%list total'
                  {| world := world s;
                     trace := trace s ++ [EvRead (List.length value)] |})
        as [IHfit IHover]; [lia|].
      split.
      * intros H. rewrite IHfit by (unfold total'; lia).
        unfold after. simpl. rewrite <- !app_assoc. reflexivity.
      * intros H. destruct IHover as (taken & c & rest & -> & H1 & H2 & E).
        { unfold total'. lia. }
        exists (value :: taken), c, rest. rewrite bytes_cons.
        split; [reflexivity|]. split; [unfold total' in *; lia|].
        split; [unfold total' in *; lia|].
        rewrite E. unfold after. simpl. rewrite <- !app_assoc. reflexivity.
Qed.

Lemma read_loop_total (failure : option exn) :
  forall pending chunks totalSize s,
    exists r s' evs,
      read_loop config pending failure chunks totalSize s = Some (r, s')
      /\ trace s' = trace s ++ evs /\ fetches evs = [].
Proof.
  induction pending as [|value pending IH]; intros chunks totalSize s.
  - simpl. destruct failure; eexists _, s, []; rewrite app_nil_r; auto.
  - simpl read_loop. munfold. cbv zeta.
    destruct (_ >? _).
    + eexists _, _, [EvRead _; EvCancel]. split; [reflexivity|].
      simpl. rewrite <- app_assoc. auto.
    + destruct (IH (chunks ++ [value])%list (totalSize + Z.of_nat (List.length value))
                  {| world := world s;
                     trace := trace s ++ [EvRead (List.length value)] |})
        as (r & s' & evs & E & Ht & Hf).
      exists r, s', (EvRead (List.length value) :: evs). split; [exact E|].
      simpl in Ht. rewrite <- app_assoc in Ht. auto.
Qed.

(** Steps 9 to 11 always come to a reply, and fetch nothing. *)
Lemma finish_total (response : Response) (s : St World) :
  exists r s' evs,
    finish P config response s = Some (Ret r, s')
    /\ trace s' = trace s ++ evs /\ fetches evs = [].
Proof.
  unfold finish. cbv zeta.
  match goal with |- context [if ?d then _ else _] => destruct d end.
  { eexists _, s, []. rewrite app_nil_r. auto. }
  destruct (body response) as [reader|].
  2:{ eexists _, s, []. rewrite app_nil_r. auto. }
  destruct (read_loop_total (failure reader) (chunks reader) [] 0 s)
    as (r & s' & evs & E & Ht & Hf).
  unfold mbind, M_bind, bindM. rewrite (attempt_eval _ _ _ _ E).
  destruct r as [[kept|kept]|err]; eexists _, s', evs; auto.
Qed.

(** The handler always comes back, and its fetches are those of checked
    hops, counted from 0. *)
Lemma handler_trace (proxyReq : ProxyRequest Json) (s : St World) :
  exists r s' evs,
    handler P config proxyReq s = Some (r, s')
    /\ trace s' = trace s ++ evs
    /\ hops proxyReq 0 (fetches evs).
Proof.
  unfold handler.
  destruct (allowlist_pure (url proxyReq)) as (ra & Hra).
  unfold mbind at 1. unfold M_bind, bindM. rewrite Hra.
  destruct ra as [[|]|e]; try (eexists _, s, []; rewrite app_nil_r; simpl; now auto).
  change (negb true) with false. cbv beta iota.
  destruct (resolveAndValidate_total P (url proxyReq) s) as (rv & s2 & evs2 & E & Ht & Hl).
  unfold mbind at 1. unfold M_bind, bindM. rewrite (attempt_eval _ _ _ _ E).
  apply fetches_lookups in Hl.
  destruct rv as [res|err].
  2:{ eexists _, s2, evs2. rewrite Hl. simpl. auto. }
  destruct (redirect_loop_trace proxyReq (Z.to_nat (maxRedirects + 1)) (url proxyReq) 0 None s2)
    as (r & s3 & evs3 & E3 & Ht3 & Hf3); [lia|].
  assert (Hhops : hops proxyReq 0 (fetches (evs2 ++ evs3))).
  { rewrite fetches_app, Hl. simpl.
    destruct Hf3 as [[_ ->] | (rest & -> & Hk & Hrest)]; [exact I|].
    simpl. split; [assumption|]. split; [reflexivity|]. split; [|assumption].
    split; [exact Hra|]. exists s, res, s2. auto. }
  assert (Ht23 : trace s3 = trace s ++ evs2 ++ evs3).
  { rewrite Ht3, Ht, <- app_assoc. reflexivity. }
  unfold mbind at 1. unfold M_bind, bindM, try_catch. rewrite E3.
  assert (Hreply : forall (reply : Reply Json),
             exists r0 s' evs, Some (Ret reply, s3) = Some (r0, s')
                               /\ trace s' = trace s ++ evs /\ hops proxyReq 0 (fetches evs)).
  { intros reply. eexists _, s3, (evs2 ++ evs3). auto. }
  assert (Hexit : forall (exit : LoopExit Json),
             exists r0 s' evs,
               match exit with
               | Replied r => ret r
               | Final None => ret (json_error (js "No response received") 502)
               | Final (Some response) => finish P config response
               end s3 = Some (r0, s')
               /\ trace s' = trace s ++ evs /\ hops proxyReq 0 (fetches evs)).
  { intros [[response|]|reply]; try apply Hreply.
    destruct (finish_total response s3) as (r4 & s4 & evs4 & E4 & Ht4 & Hf4).
    exists (Ret r4), s4, (evs2 ++ evs3 ++ evs4). split; [exact E4|]. split.
    - rewrite Ht4, Ht23, <- !app_assoc. reflexivity.
    - rewrite app_assoc, fetches_app, Hf4, app_nil_r. exact Hhops. }
  destruct r as [exit|err]; [apply Hexit|].
  destruct err; unfold ret at 1; apply (Hexit (Replied _)).
Qed.

Lemma hops_In (proxyReq : ProxyRequest Json) :
  forall fs k w u o, hops proxyReq k fs -> In (w, u, o) fs -> checked_at u w.
Proof.
  induction fs as [|[[w0 u0] o0] rest IH]; intros k w u o H Hin; [contradiction|].
  destruct H as (_ & _ & Hc & Hrest). destruct Hin as [E|Hin].
  - injection E as <- <- <-. exact Hc.
  - eapply IH; eauto.
Qed.

(** ** Turns of the redirect loop *)

(** The loop's variables and the state of the outside at the top of a turn. *)
Record Turn : Type := {
  t_url : jsstring;
  t_count : Z;
  t_response : option Response;
  t_state : St World
}.

Definition run_loop (proxyReq : ProxyRequest Json) (fuel : nat) (t : Turn)
  : option (result (LoopExit Json) * St World) :=
  redirect_loop P config proxyReq fuel (t_url t) (t_count t) (t_response t) (t_state t).

(** The first turn of a call: the target is on the allowlist and has
    passed resolveAndValidate, which left the state the loop starts in. *)
Definition first_turn (proxyReq : ProxyRequest Json) (s : St World) (t : Turn) : Prop :=
  allowed (url proxyReq)
  /\ (exists res, resolveAndValidate P (url proxyReq) s = Some (Ret res, t_state t))
  /\ t_url t = url proxyReq /\ t_count t = 0 /\ t_response t = None.

(** The fetch of turn [t] is answered by [response], a redirect whose
    Location resolves against the current URL to [target]; [s1] is the state
    after the fetch. *)
Definition redirected (proxyReq : ProxyRequest Json) (t : Turn) (response : Response)
    (target : jsstring) (s1 : St World) : Prop :=
  t_count t <= maxRedirects
  /\ exists w1 location,
       fetch P (t_url t) (fetchOptions P proxyReq (t_count t)) (world (t_state t))
       = (Ret response, w1)
       /\ is_redirect (status response) = true
       /\ truthy (headers_get (js "location") (headers response)) = Some location
       /\ resolveURL P location (t_url t) = Ret target
       /\ s1 = fetched (t_state t) (t_url t) (fetchOptions P proxyReq (t_count t)) w1.

(** The redirect of turn [t] is followed to turn [t']: its target has
    passed both checks and the hop count stays within the limit. *)
Definition followed (proxyReq : ProxyRequest Json) (t t' : Turn) : Prop :=
  exists response s1 res,
    redirected proxyReq t response (t_url t') s1
    /\ resolveAndValidate P (t_url t') s1 = Some (Ret res, t_state t')
    /\ allowed (t_url t')
    /\ t_count t + 1 <= maxRedirects
    /\ t_count t' = t_count t + 1
    /\ t_response t' = Some response.

Inductive reaches (proxyReq : ProxyRequest Json) : Turn -> Turn -> Prop :=
| reaches_here t : reaches proxyReq t t
| reaches_next t t' t'' :
    followed proxyReq t t' -> reaches proxyReq t' t'' -> reaches proxyReq t t''.

(** What a turn that is answered by a redirect comes to, once its target
    has gone through resolveAndValidate. *)
Lemma redirected_step (proxyReq : ProxyRequest Json) (fuel : nat) (t : Turn)
    (response : Response) (target : jsstring) (s1 : St World) :
  redirected proxyReq t response target s1 ->
  run_loop proxyReq (S fuel) t =
  match resolveAndValidate P target s1 with
  | None => None
  | Some (Throw err, s2) =>
      Some (Ret (Replied (json_error (js "Redirect blocked: " ++ message err) 400)), s2)
  | Some (Ret _, s2) =>
      match allowlist_check P config target s2 with
      | None => None
      | Some (Throw e, s3) => Some (Throw e, s3)
      | Some (Ret false, s3) =>
          Some (Ret (Replied (json_error
                  (js "Redirect target domain is not in the allowlist") 400)), s3)
      | Some (Ret true, s3) =>
          if t_count t + 1 >? maxRedirects then
            Some (Ret (Replied (json_error
                    (js "Too many redirects (max: "
                     ++ int_toString 10 maxRedirects ++ js ")") 502)), s3)
          else
            redirect_loop P config proxyReq fuel target (t_count t + 1) (Some response) s3
      end
  end.
Proof.
  intros (Hk & w1 & location & Hf & Hr & Hl & Hu & ->).
  unfold run_loop. rewrite redirect_loop_step by assumption. cbv zeta.
  rewrite Hf, Hr, Hl, Hu. reflexivity.
Qed.

Lemma loop_followed (proxyReq : ProxyRequest Json) (fuel : nat) (t t' : Turn) :
  followed proxyReq t t' -> run_loop proxyReq (S fuel) t = run_loop proxyReq fuel t'.
Proof.
  intros (response & s1 & res & Hred & Hv & Ha & Hk & Hc & Hresp).
  rewrite (redirected_step _ _ _ _ _ _ Hred), Hv, Ha.
  destruct (Z.gtb_spec (t_count t + 1) maxRedirects); [lia|].
  unfold run_loop. rewrite Hc, Hresp. reflexivity.
Qed.

Lemma loop_reaches (proxyReq : ProxyRequest Json) (t t' : Turn) :
  reaches proxyReq t t' ->
  forall fuel, (Z.to_nat (maxRedirects + 1 - t_count t) <= fuel)%nat ->
  exists fuel', (Z.to_nat (maxRedirects + 1 - t_count t') <= fuel')%nat
                /\ run_loop proxyReq fuel t = run_loop proxyReq fuel' t'.
Proof.
  induction 1 as [t|t t' t'' Hf _ IH]; intros fuel Hfuel.
  - exists fuel. auto.
  - pose proof Hf as (response & s1 & res & _ & _ & _ & Hk & Hc & _).
    destruct fuel as [|fuel]; [lia|].
    rewrite (loop_followed _ _ _ _ Hf). apply IH. lia.
Qed.

(** From the first turn on, the handler is the loop and what follows it. *)
Lemma handler_loop (proxyReq : ProxyRequest Json) (s : St World) (t0 : Turn) :
  first_turn proxyReq s t0 ->
  handler P config proxyReq s =
  match run_loop proxyReq (Z.to_nat (maxRedirects + 1)) t0 with
  | None => None
  | Some (Ret (Replied r), s3) => Some (Ret r, s3)
  | Some (Ret (Final None), s3) => Some (Ret (json_error (js "No response received") 502), s3)
  | Some (Ret (Final (Some response)), s3) => finish P config response s3
  | Some (Throw (AbortError _), s3) => Some (Ret (json_error (js "Request timed out") 504), s3)
  | Some (Throw err, s3) => Some (Ret (json_error (message err) 502), s3)
  end.
Proof.
  intros (Ha & (res & Hv) & Hu & Hc & Hr).
  unfold handler, run_loop. rewrite Hu, Hc, Hr.
  unfold mbind at 1. unfold M_bind, bindM. rewrite Ha.
  change (negb true) with false. cbv beta iota.
  unfold mbind at 1. unfold M_bind, bindM. rewrite (attempt_eval _ _ _ _ Hv).
  unfold mbind at 1. unfold M_bind, bindM, try_catch.
  destruct (redirect_loop P config proxyReq _ _ _ _ _) as [[[[[response|]|r]|err] s3]|];
    try reflexivity.
  destruct err; reflexivity.
Qed.

(** A reply made at some turn of the loop is the reply of the call. *)
Lemma handler_replied (proxyReq : ProxyRequest Json) (s : St World) (t0 t : Turn)
    (r : Reply Json) (s3 : St World) :
  first_turn proxyReq s t0 -> reaches proxyReq t0 t ->
  t_count t <= maxRedirects ->
  (forall fuel, run_loop proxyReq (S fuel) t = Some (Ret (Replied r), s3)) ->
  handler P config proxyReq s = Some (Ret r, s3).
Proof.
  intros Hfirst Hreach Hk Hrun.
  rewrite (handler_loop _ _ _ Hfirst).
  destruct (loop_reaches _ _ _ Hreach (Z.to_nat (maxRedirects + 1))) as (fuel' & Hf & ->).
  { destruct Hfirst as (_ & _ & _ & -> & _). lia. }
  destruct fuel' as [|fuel']; [lia|]. now rewrite Hrun.
Qed.

(** ** What the redirect loop guarantees *)

(** C3.  Every URL the handler fetches, the target and every redirect
    target alike, has passed the same two checks before: it has gone through
    resolveAndValidate, which returned an address classified as not private
    and left the world in which the URL is fetched, and, when there is an
    allowlist, its host is on the list.  A redirect, at whatever hop, whose
    resolved target resolveAndValidate rejects ends the call with status 400
    and the message "Redirect blocked: ..."; so does one whose target is a
    name that resolves to a private address, with the private/internal-IP
    message; and one whose target has passed resolveAndValidate but whose
    host is not on a non-empty allowlist ends it with status 400 and
    "Redirect target domain is not in the allowlist".  Nothing is fetched
    after any of them. *)
Theorem redirect_targets_checked (proxyReq : ProxyRequest Json) (s : St World) :
  (exists r s' evs,
      handler P config proxyReq s = Some (r, s')
      /\ trace s' = trace s ++ evs
      /\ forall w u opts,
           In (EvFetch w u opts) evs ->
           permitted u
           /\ exists sa res sb,
                resolveAndValidate P u sa = Some (Ret res, sb) /\ world sb = w
                /\ isPrivateIP (r_ip res) = Ret false)
  /\ (forall t0 t response target s1 err s2,
        first_turn proxyReq s t0 -> reaches proxyReq t0 t ->
        redirected proxyReq t response target s1 ->
        resolveAndValidate P target s1 = Some (Throw err, s2) ->
        handler P config proxyReq s
        = Some (Ret (json_error (js "Redirect blocked: " ++ message err) 400), s2))
  /\ (forall t0 t response target s1 tu ip rest w2,
        first_turn proxyReq s t0 -> reaches proxyReq t0 t ->
        redirected proxyReq t response target s1 ->
        parseURL P target = Some tu ->
        protocol tu = js "http:" \/ protocol tu = js "https:" ->
        ~ In (toLowerCase (hostname tu)) BLOCKED_HOSTNAMES ->
        named (hostname tu) ->
        resolve4 P (hostname tu) (world s1) = (Ret (ip :: rest), w2) ->
        isPrivateIP ip = Ret true ->
        handler P config proxyReq s
        = Some (Ret (json_error (js "Redirect blocked: " ++ msg_private) 400),
                {| world := w2; trace := trace s1 ++ [EvResolve4 (hostname tu)] |}))
  /\ (forall t0 t response target s1 res s2 tu,
        first_turn proxyReq s t0 -> reaches proxyReq t0 t ->
        redirected proxyReq t response target s1 ->
        resolveAndValidate P target s1 = Some (Ret res, s2) ->
        proxyAllowedDomains config <> [] ->
        parseURL P target = Some tu ->
        ~ on_allowlist (hostname tu) ->
        handler P config proxyReq s
        = Some (Ret (json_error (js "Redirect target domain is not in the allowlist") 400), s2)).
Proof.
  assert (Hblocked : forall t0 t response target s1 err s2,
             first_turn proxyReq s t0 -> reaches proxyReq t0 t ->
             redirected proxyReq t response target s1 ->
             resolveAndValidate P target s1 = Some (Throw err, s2) ->
             handler P config proxyReq s
             = Some (Ret (json_error (js "Redirect blocked: " ++ message err) 400), s2)).
  { intros t0 t response target s1 err s2 Hfirst Hreach Hred Hv.
    apply (handler_replied proxyReq s t0 t); auto; [apply Hred|].
    intros fuel. now rewrite (redirected_step _ _ _ _ _ _ Hred), Hv. }
  split; [|split; [exact Hblocked|split]].
  - destruct (handler_trace proxyReq s) as (r & s' & evs & E & Ht & Hh).
    exists r, s', evs. split; [exact E|]. split; [exact Ht|].
    intros w u opts Hin. apply In_fetches in Hin.
    destruct (hops_In proxyReq _ _ _ _ _ Hh Hin) as (Ha & sa & res & sb & Hv & Hw).
    split; [now apply (allowed_permitted u s)|].
    exists sa, res, sb. split; [exact Hv|]. split; [exact Hw|].
    now destruct (resolveAndValidate_accepts P _ _ _ _ Hv) as (tu & _ & _ & _ & _ & Hc & _).
  - intros t0 t response target s1 tu ip rest w2 Hfirst Hreach Hred Hu Hp Hb Hn Hl Hpriv.
    apply (Hblocked t0 t response target s1 (Error msg_private)); auto.
    now apply (private_name_rejected P target tu s1 ip rest w2).
  - intros t0 t response target s1 res s2 tu Hfirst Hreach Hred Hv Hne Hu Ho.
    apply (handler_replied proxyReq s t0 t); auto; [apply Hred|].
    intros fuel.
    now rewrite (redirected_step _ _ _ _ _ _ Hred), Hv, (off_allowlist _ _ _ Hne Hu Ho).
Qed.

(** C7.  A call makes at most maxRedirects + 1 fetches; and when a
    followed redirect takes the hop count over the configured maximum, the
    call ends with status 502 and the message "Too many redirects (max: N)",
    N the configured maximum. *)
Theorem redirects_bounded (proxyReq : ProxyRequest Json) (s : St World) :
  (exists r s' evs,
      handler P config proxyReq s = Some (r, s')
      /\ trace s' = trace s ++ evs
      /\ (List.length (fetches evs) <= Z.to_nat (maxRedirects + 1))%nat)
  /\ (forall t0 t response target s1 res s2,
        first_turn proxyReq s t0 -> reaches proxyReq t0 t ->
        redirected proxyReq t response target s1 ->
        resolveAndValidate P target s1 = Some (Ret res, s2) ->
        allowed target ->
        t_count t + 1 > maxRedirects ->
        handler P config proxyReq s
        = Some (Ret (json_error
                  (js "Too many redirects (max: " ++ int_toString 10 maxRedirects ++ js ")")
                  502), s2)).
Proof.
  split.
  - destruct (handler_trace proxyReq s) as (r & s' & evs & E & Ht & Hh).
    exists r, s', evs. split; [exact E|]. split; [exact Ht|].
    apply hops_length in Hh. now rewrite Z.sub_0_r in Hh.
  - intros t0 t response target s1 res s2 Hfirst Hreach Hred Hv Ha Hover.
    apply (handler_replied proxyReq s t0 t); auto; [apply Hred|].
    intros fuel. rewrite (redirected_step _ _ _ _ _ _ Hred), Hv, Ha.
    destruct (Z.gtb_spec (t_count t + 1) maxRedirects); [reflexivity|lia].
Qed.

(** The body that goes with the first fetch: the request's, when it has
    one and the method is neither GET nor HEAD. *)
Definition first_body (proxyReq : ProxyRequest Json) : option jsstring :=
  match req_body proxyReq with
  | Some b =>
      if existsb (str_eqb (request_method proxyReq)) [js "GET"; js "HEAD"]
      then None else Some (JSON_stringify P b)
  | None => None
  end.

(** The trace grows along the turns, by one fetch for each redirect that
    is followed. *)
Lemma reaches_fetched (proxyReq : ProxyRequest Json) (base : list (Event World))
    (t t' : Turn) :
  reaches proxyReq t t' ->
  forall evs,
    trace (t_state t) = base ++ evs ->
    exists evs',
      trace (t_state t') = base ++ evs'
      /\ t_count t <= t_count t'
      /\ List.length (fetches evs')
         = (List.length (fetches evs) + Z.to_nat (t_count t' - t_count t))%nat.
Proof.
  induction 1 as [t|t t' t'' Hf _ IH]; intros evs Ht.
  - exists evs. split; [assumption|]. split; [lia|]. rewrite Z.sub_diag. simpl. lia.
  - destruct Hf as (response & s1 & res & Hred & Hv & _ & _ & Hc & _).
    destruct Hred as (_ & w1 & location & _ & _ & _ & _ & ->).
    destruct (resolveAndValidate_total P (t_url t')
                (fetched (t_state t) (t_url t) (fetchOptions P proxyReq (t_count t)) w1))
      as (rv & s2 & lookups & E & Ht2 & Hl).
    rewrite E in Hv. injection Hv as -> ->.
    simpl in Ht2. rewrite Ht, <- !app_assoc in Ht2.
    destruct (IH _ Ht2) as (evs'' & Ht'' & Hle & Hlen).
    exists evs''. split; [assumption|]. split; [lia|].
    rewrite Hlen, !fetches_app, (fetches_lookups _ Hl), app_nil_r, length_app.
    simpl. lia.
Qed.

Lemma nth_fetch (a b c : list (Event World)) (n : nat) (x : World * jsstring * FetchOptions)
    (rest : list (World * jsstring * FetchOptions)) :
  List.length (fetches a) = n -> fetches b = x :: rest ->
  nth_error (fetches (a ++ b ++ c)) n = Some x.
Proof.
  intros Ha Hb. rewrite !fetches_app, Hb.
  rewrite nth_error_app2 by lia. now rewrite Ha, Nat.sub_diag.
Qed.

(** C8.  Of the fetches of a call, the first has the request's method and
    carries the body only when there is one and the method is neither GET
    nor HEAD; every later one, whatever the method and the redirect status
    were, is a GET without a body.  And there is such a fetch for every turn
    of the loop: the target is fetched first, and when redirects are
    followed up to a hop within the limit, the URL of that hop is fetched,
    as the fetch of that number, in the world its validation left, with the
    options of its hop: GET and no body from the first redirect on. *)
Theorem redirects_refetched_with_get (proxyReq : ProxyRequest Json) (s : St World) :
  (exists r s' evs,
      handler P config proxyReq s = Some (r, s')
      /\ trace s' = trace s ++ evs
      /\ forall i w u opts,
           nth_error (fetches evs) i = Some (w, u, opts) ->
           (i = O -> fo_method opts = request_method proxyReq
                     /\ fo_body opts = first_body proxyReq)
           /\ (i <> O -> fo_method opts = js "GET" /\ fo_body opts = None))
  /\ (forall t0 t,
        first_turn proxyReq s t0 -> reaches proxyReq t0 t ->
        t_count t <= maxRedirects ->
        let opts := fetchOptions P proxyReq (t_count t) in
        exists r s' evs,
          handler P config proxyReq s = Some (r, s')
          /\ trace s' = trace s ++ evs
          /\ nth_error (fetches evs) (Z.to_nat (t_count t))
             = Some (world (t_state t), t_url t, opts)
          /\ (t_count t = 0 -> fo_method opts = request_method proxyReq
                               /\ fo_body opts = first_body proxyReq)
          /\ (0 < t_count t -> fo_method opts = js "GET" /\ fo_body opts = None)).
Proof.
  assert (Hfirst_opts : fo_method (fetchOptions P proxyReq 0) = request_method proxyReq
                        /\ fo_body (fetchOptions P proxyReq 0) = first_body proxyReq).
  { unfold fetchOptions, first_body. cbn [fo_method fo_body].
    change (0 =? 0) with true. cbv iota.
    destruct (req_body proxyReq); [|auto].
    destruct (existsb (str_eqb (request_method proxyReq)) [js "GET"; js "HEAD"]); auto. }
  assert (Hlater_opts : forall k, k <> 0 ->
             fo_method (fetchOptions P proxyReq k) = js "GET"
             /\ fo_body (fetchOptions P proxyReq k) = None).
  { intros k Hk. unfold fetchOptions. cbn [fo_method fo_body].
    destruct (Z.eqb_spec k 0) as [H0|H0]; [lia|].
    destruct (req_body proxyReq); auto. }
  split.
  - destruct (handler_trace proxyReq s) as (r & s' & evs & E & Ht & Hh).
    exists r, s', evs. split; [exact E|]. split; [exact Ht|].
    intros i w u opts Hi. destruct (hops_nth _ _ _ _ _ _ _ Hh Hi) as [-> _].
    split.
    + intros ->. exact Hfirst_opts.
    + intros Hne. apply Hlater_opts. lia.
  - intros t0 t Hfirst Hreach Hk. cbv zeta.
    pose proof Hfirst as (_ & (res & Hv) & _ & Hc0 & _).
    destruct (resolveAndValidate_total P (url proxyReq) s) as (rv & s0 & evs0 & E0 & Ht0 & Hl0).
    rewrite E0 in Hv. injection Hv as -> ->.
    destruct (reaches_fetched proxyReq (trace s) t0 t Hreach evs0 Ht0)
      as (evs_t & Ht & Hle & Hlen).
    rewrite (fetches_lookups _ Hl0), Hc0, Z.sub_0_r in Hlen. simpl in Hlen.
    rewrite (handler_loop _ _ _ Hfirst).
    destruct (loop_reaches _ _ _ Hreach (Z.to_nat (maxRedirects + 1))) as (fuel' & Hf & ->).
    { rewrite Hc0. lia. }
    destruct (redirect_loop_trace proxyReq fuel' (t_url t) (t_count t) (t_response t)
                (t_state t) Hf) as (r3 & s3 & evs3 & E3 & Ht3 & Hf3).
    destruct Hf3 as [[Hover _]|(rest & Hfs & _ & _)]; [lia|].
    unfold run_loop. rewrite E3.
    assert (Hopts : (t_count t = 0 ->
                     fo_method (fetchOptions P proxyReq (t_count t)) = request_method proxyReq
                     /\ fo_body (fetchOptions P proxyReq (t_count t)) = first_body proxyReq)
                    /\ (0 < t_count t ->
                        fo_method (fetchOptions P proxyReq (t_count t)) = js "GET"
                        /\ fo_body (fetchOptions P proxyReq (t_count t)) = None)).
    { split; [intros ->; exact Hfirst_opts|intros H; apply Hlater_opts; lia]. }
    assert (Hhere : forall (r : result (Reply Json)),
               exists r0 s' evs,
                 Some (r, s3) = Some (r0, s')
                 /\ trace s' = trace s ++ evs
                 /\ nth_error (fetches evs) (Z.to_nat (t_count t))
                    = Some (world (t_state t), t_url t, fetchOptions P proxyReq (t_count t))
                 /\ (t_count t = 0 ->
                     fo_method (fetchOptions P proxyReq (t_count t)) = request_method proxyReq
                     /\ fo_body (fetchOptions P proxyReq (t_count t)) = first_body proxyReq)
                 /\ (0 < t_count t ->
                     fo_method (fetchOptions P proxyReq (t_count t)) = js "GET"
                     /\ fo_body (fetchOptions P proxyReq (t_count t)) = None)).
    { intros r. exists r, s3, (evs_t ++ evs3 ++ []).
      split; [reflexivity|]. split; [now rewrite app_nil_r, Ht3, Ht, <- app_assoc|].
      split; [now apply (nth_fetch _ _ _ _ _ rest)|exact Hopts]. }
    destruct r3 as [[[response|]|reply]|err]; try apply Hhere.
    + destruct (finish_total response s3) as (r4 & s4 & evs4 & E4 & Ht4 & Hf4).
      exists (Ret r4), s4, (evs_t ++ evs3 ++ evs4).
      split; [exact E4|]. split; [now rewrite Ht4, Ht3, Ht, <- !app_assoc|].
      split; [now apply (nth_fetch _ _ _ _ _ rest)|exact Hopts].
    + destruct err; apply Hhere.
Qed.

(** ** The size of the response *)

(** C6.  With a cap that is not negative: a response whose Content-Length
    is a decimal number above the cap is answered with status 502 before
    anything of the body is read (the state is as it was); a body with more
    bytes than the cap is always answered with status 502, and when it is
    read, the reading stops at the first chunk that takes the running total
    over the cap and is cancelled there, only the chunks before that one
    (at most cap bytes) having been kept; so a reply that succeeds carries a
    body within the cap.  What steps 9 to 11 reply for the final response is
    the reply of the call. *)
Theorem response_size_capped (response : Response) (s : St World) :
  0 <= cap ->
  (forall v,
      truthy (headers_get (js "content-length") (headers response)) = Some v ->
      forallb is_digit v = true ->
      cap < digits_value 10 v ->
      finish P config response s = Some (Ret (json_error (js "Response too large") 502), s))
  /\ (forall reader,
        body response = Some reader ->
        cap < bytes (chunks reader) ->
        exists s',
          finish P config response s = Some (Ret (json_error (js "Response too large") 502), s')
          /\ (s' = s
              \/ exists taken c rest,
                   chunks reader = taken ++ c :: rest
                   /\ bytes taken <= cap
                   /\ cap < bytes (taken ++ [c])
                   /\ read_loop config (chunks reader) (failure reader) [] 0 s
                      = Some (Ret (ReadTooLarge taken), s')
                   /\ s' = after s (reads (taken ++ [c]) ++ [EvCancel])))
  /\ (forall r s' reader,
        finish P config response s = Some (Ret (json_ok r), s') ->
        body response = Some reader ->
        bytes (chunks reader) <= cap)
  /\ (forall proxyReq s0 t0,
        first_turn proxyReq s0 t0 ->
        run_loop proxyReq (Z.to_nat (maxRedirects + 1)) t0
        = Some (Ret (Final (Some response)), s) ->
        handler P config proxyReq s0 = finish P config response s).
Proof.
  intros Hcap.
  assert (Hstream : forall reader,
             body response = Some reader ->
             cap < bytes (chunks reader) ->
             exists s',
               finish P config response s
               = Some (Ret (json_error (js "Response too large") 502), s')
               /\ (s' = s
                   \/ exists taken c rest,
                        chunks reader = taken ++ c :: rest
                        /\ bytes taken <= cap
                        /\ cap < bytes (taken ++ [c])
                        /\ read_loop config (chunks reader) (failure reader) [] 0 s
                           = Some (Ret (ReadTooLarge taken), s')
                        /\ s' = after s (reads (taken ++ [c]) ++ [EvCancel]))).
  { intros reader Hb Hover. unfold finish. cbv zeta.
    match goal with |- context [if ?d then _ else _] => destruct d end.
    { exists s. auto. }
    rewrite Hb.
    destruct (read_loop_spec (failure reader) (chunks reader) [] 0 s Hcap) as [_ H].
    destruct H as (taken & c & rest & Hsplit & H1 & H2 & E); [lia|].
    simpl in E. unfold mbind, M_bind, bindM. rewrite (attempt_eval _ _ _ _ E).
    eexists. split; [reflexivity|]. right. exists taken, c, rest.
    rewrite bytes_app, bytes_cons. unfold bytes at 3. simpl.
    repeat split; auto; lia. }
  split; [|split; [exact Hstream|split]].
  - intros v Hv Hd Hover. unfold finish. cbv zeta. rewrite Hv.
    rewrite parseInt_digits; auto.
    + destruct (Z.gtb_spec (digits_value 10 v) cap); [reflexivity|lia].
    + intros ->. destruct (headers_get _ _) as [[|]|]; discriminate.
  - intros r s' reader Hok Hb.
    destruct (Z.le_gt_cases (bytes (chunks reader)) cap) as [|Hover]; [assumption|].
    destruct (Hstream reader Hb Hover) as (s'' & E & _). congruence.
  - intros proxyReq s0 t0 Hfirst Hrun.
    now rewrite (handler_loop _ _ _ Hfirst), Hrun.
Qed.

(** ** The body of the reply *)

(** X3.  A final response whose body arrives whole and within the cap, and
    whose Content-Length (if it has one that [parseInt] reads) is not above
    the cap, is answered with [c.json(proxyResponse)], status 200, carrying
    the status of the response; and when [JSON.parse] rejects the text of
    the body, the body of the reply is that text as it is, whatever the
    Content-Type says: malformed JSON makes no error. *)
Theorem malformed_json_kept_as_text (response : Response) (reader : BodyStream)
    (s : St World) :
  body response = Some reader -> failure reader = None ->
  0 <= cap -> bytes (chunks reader) <= cap ->
  (forall v n, truthy (headers_get (js "content-length") (headers response)) = Some v ->
               parseInt v 10 = Some n -> n <= cap) ->
  JSON_parse P (utf8_decode P (concat (chunks reader))) = None ->
  exists r,
    finish P config response s = Some (Ret (json_ok r), after s (reads (chunks reader)))
    /\ pr_status r = status response
    /\ pr_body r = Text (utf8_decode P (concat (chunks reader)))
    /\ reply_status (json_ok r) = 200.
Proof.
  intros Hb Hf Hcap Hfit Hlen Hjson.
  exists (proxyResponse P response (utf8_decode P (concat (chunks reader)))).
  split; [|split; [reflexivity|split; [|reflexivity]]].
  - unfold finish. cbv zeta.
    assert (Hd : match truthy (headers_get (js "content-length") (headers response)) with
                 | Some responseContentLength =>
                     match parseInt responseContentLength 10 with
                     | Some n => n >? cap
                     | None => false
                     end
                 | None => false
                 end = false).
    { destruct (truthy (headers_get (js "content-length") (headers response))) as [v|] eqn:Ev;
        [|reflexivity].
      destruct (parseInt v 10) as [n|] eqn:En; [|reflexivity].
      specialize (Hlen v n eq_refl En). destruct (Z.gtb_spec n cap); [lia|reflexivity]. }
    rewrite Hd, Hb.
    destruct (read_loop_spec (failure reader) (chunks reader) [] 0 s Hcap) as [Hread _].
    specialize (Hread ltac:(lia)). rewrite Hf in Hread |- *.
    unfold mbind, M_bind, bindM. rewrite (attempt_eval _ _ _ _ Hread). reflexivity.
  - unfold proxyResponse. cbn [pr_body]. rewrite Hjson.
    now destruct (includes _ _).
Qed.

End Handler.

Section Headers.
Context {U : Unicode}.

(** C9 (as the code has it).  A response header named [__proto__] is not
    copied into the reply: the assignment [responseHeaders[key] = value]
    reaches the prototype accessor, which ignores the string, so the header
    is dropped although it is no Set-Cookie. *)
Theorem proto_header_dropped :
  responseHeaders [(js "__proto__", js "x"); (js "x-request-id", js "7")]
  = {[ js "x-request-id" := js "7" ]}.
Proof. reflexivity. Qed.

(** ** The headers of the reply *)

(** One step of the copy: [if (lowerKey !== 'set-cookie') responseHeaders[key] = value]. *)
Definition kept (acc : obj) (kv : jsstring * jsstring) : obj :=
  if negb (str_eqb (toLowerCase (fst kv)) (js "set-cookie"))
  then obj_set (fst kv) (snd kv) acc
  else acc.

Lemma responseHeaders_fold (hs : list (jsstring * jsstring)) :
  responseHeaders hs = fold_left kept hs ∅.
Proof. reflexivity. Qed.

Lemma kept_other (acc : obj) (kv : jsstring * jsstring) (k : jsstring) :
  fst kv <> k -> kept acc kv !! k = acc !! k.
Proof.
  intros Hne. unfold kept, obj_set.
  destruct (negb _); [|reflexivity].
  destruct (str_eqb (fst kv) _); [reflexivity|].
  now apply lookup_insert_ne.
Qed.

Lemma kept_same (acc : obj) (k v : jsstring) :
  toLowerCase k <> js "set-cookie" -> k <> js "__proto__" ->
  kept acc (k, v) !! k = Some v.
Proof.
  intros Hc Hp. unfold kept, obj_set. cbn [fst snd].
  rewrite (str_eqb_neq _ _ Hc), (str_eqb_neq _ _ Hp). cbn [negb].
  apply lookup_insert_eq.
Qed.

Lemma kept_dropped (acc : obj) (k v : jsstring) :
  toLowerCase k = js "set-cookie" \/ k = js "__proto__" -> kept acc (k, v) = acc.
Proof.
  intros [H|H]; unfold kept, obj_set; cbn [fst snd].
  - rewrite H. reflexivity.
  - rewrite H. now destruct (negb _).
Qed.

Lemma fold_kept_absent (hs : list (jsstring * jsstring)) (acc : obj) (k : jsstring) :
  ~ In k (map fst hs) -> fold_left kept hs acc !! k = acc !! k.
Proof.
  revert acc. induction hs as [|kv hs IH]; intros acc Hk; [reflexivity|].
  simpl. rewrite IH by (intros H; apply Hk; now right).
  apply kept_other. intros E. apply Hk. now left.
Qed.

Lemma fold_kept_lookup (hs : list (jsstring * jsstring)) (acc : obj) (k v : jsstring) :
  fold_left kept hs acc !! k = Some v ->
  acc !! k = Some v
  \/ (In (k, v) hs /\ toLowerCase k <> js "set-cookie" /\ k <> js "__proto__").
Proof.
  revert acc. induction hs as [|[k' v'] hs IH]; intros acc H; [now left|].
  simpl in H. destruct (IH _ H) as [Hacc|(Hin & Hc & Hp)].
  - destruct (str_eqb k' k) eqn:E.
    + apply str_eqb_eq in E. subst k'.
      destruct (str_eqb (toLowerCase k) (js "set-cookie")) eqn:Ec.
      { apply str_eqb_eq in Ec. rewrite kept_dropped in Hacc by now left. now left. }
      destruct (str_eqb k (js "__proto__")) eqn:Ep.
      { apply str_eqb_eq in Ep. rewrite kept_dropped in Hacc by now right. now left. }
      assert (Hc : toLowerCase k <> js "set-cookie")
        by (intros E; apply str_eqb_eq in E; congruence).
      assert (Hp : k <> js "__proto__") by (intros E; apply str_eqb_eq in E; congruence).
      rewrite kept_same in Hacc by assumption. injection Hacc as ->.
      right. split; [now left|auto].
    + left. rewrite kept_other in Hacc; [assumption|].
      cbn [fst]. intros E'. apply str_eqb_eq in E'. congruence.
  - right. split; [now right|auto].
Qed.

(** X2.  The header map of the reply: it has no Set-Cookie, in whatever
    case the name is written; what it holds under a name is a header of the
    response, name and value as they came; and when the response has each
    name once, every header whose name is neither a Set-Cookie nor
    [__proto__] is in the map. *)
Theorem response_headers_copied (hs : list (jsstring * jsstring)) :
  (forall k, toLowerCase k = js "set-cookie" -> responseHeaders hs !! k = None)
  /\ (forall k v, responseHeaders hs !! k = Some v -> In (k, v) hs)
  /\ (forall k v, NoDup (map fst hs) -> In (k, v) hs ->
                  toLowerCase k <> js "set-cookie" -> k <> js "__proto__" ->
                  responseHeaders hs !! k = Some v).
Proof.
  rewrite responseHeaders_fold. split; [|split].
  - intros k Hk. destruct (fold_left kept hs ∅ !! k) as [v|] eqn:E; [|reflexivity].
    apply fold_kept_lookup in E as [E|(_ & Hc & _)]; [|contradiction].
    rewrite lookup_empty in E. discriminate.
  - intros k v E. apply fold_kept_lookup in E as [E|(Hin & _)]; [|assumption].
    rewrite lookup_empty in E. discriminate.
  - generalize (∅ : obj) as acc.
    induction hs as [|[k' v'] hs IH]; intros acc k v Hnd Hin Hc Hp; [destruct Hin|].
    simpl in Hnd. apply NoDup_cons in Hnd as [Hk' Hnd].
    rewrite list_elem_of_In in Hk'. simpl.
    destruct Hin as [[= -> ->]|Hin].
    + rewrite fold_kept_absent by assumption. now apply kept_same.
    + now apply IH.
Qed.

End Headers.

(** ** The theorems at work on a small platform *)

Import Toy.

Definition found (next : jsstring) : Response :=
  {| status := 302; statusText := js "Found";
     headers := [(js "location", next)]; body := None |}.

Definition turn0 : Turn (World := nat) :=
  {| t_url := js "example.com"; t_count := 0; t_response := None;
     t_state := {| world := O; trace := [EvResolve4 (js "example.com")] |} |}.

Lemma first_turn0 (P : Platform nat unit) (maxRedirects cap : Z) :
  resolveAndValidate P (js "example.com") start
  = Some (Ret {| r_hostname := js "example.com"; r_ip := js "93.184.216.34" |}, t_state turn0) ->
  first_turn P (cfg maxRedirects cap) (post (js "example.com")) start turn0.
Proof.
  intros H. split; [intros st; reflexivity|]. split; [eexists; exact H|].
  repeat split.
Qed.

Lemma first_turn_only (P : Platform nat unit) (domains : list jsstring)
    (maxRedirects cap : Z) :
  (forall st : St nat,
      allowlist_check P (cfg_only domains maxRedirects cap) (js "example.com") st
      = Some (Ret true, st)) ->
  resolveAndValidate P (js "example.com") start
  = Some (Ret {| r_hostname := js "example.com"; r_ip := js "93.184.216.34" |}, t_state turn0) ->
  first_turn P (cfg_only domains maxRedirects cap) (post (js "example.com")) start turn0.
Proof.
  intros Ha H. split; [exact Ha|]. split; [eexists; exact H|].
  repeat split.
Qed.

(** The state after the first fetch of the call that [turn0] starts. *)
Definition fetched0 (P : Platform nat unit) : St nat :=
  fetched (t_state turn0) (js "example.com") (fetchOptions P (post (js "example.com")) 0) 1%nat.

Lemma redirect_targets_checked_witness :
  handler (toy 9 (js "intranet.example") (ok_response [] []))
    (cfg_only [js "Example.COM"; js "intranet.example"] 3 100)
    (post (js "example.com")) start
  = Some (Ret (json_error (js "Redirect blocked: " ++ msg_private) 400),
          {| world := 1%nat;
             trace := trace (fetched0 (toy 9 (js "intranet.example") (ok_response [] [])))
                      ++ [EvResolve4 (js "intranet.example")] |})
  /\ handler (toy 9 (js "example.org") (ok_response [] []))
       (cfg_only [js "Example.COM"] 3 100) (post (js "example.com")) start
     = Some (Ret (json_error (js "Redirect target domain is not in the allowlist") 400),
             {| world := 1%nat;
                trace := trace (fetched0 (toy 9 (js "example.org") (ok_response [] [])))
                         ++ [EvResolve4 (js "example.org")] |}).
Proof.
  split.
  - apply (proj1 (proj2 (proj2 (redirect_targets_checked
                                  (toy 9 (js "intranet.example") (ok_response [] []))
                                  (cfg_only [js "Example.COM"; js "intranet.example"] 3 100)
                                  (post (js "example.com")) start)))
             turn0 turn0 (found (js "intranet.example")) (js "intranet.example")
             (fetched0 (toy 9 (js "intranet.example") (ok_response [] [])))
             {| protocol := js "http:"; hostname := js "intranet.example" |}
             (js "10.0.0.7") [] 1%nat).
    + apply first_turn_only; [intros st; reflexivity|reflexivity].
    + apply reaches_here.
    + split; [simpl; lia|]. exists 1%nat, (js "intranet.example"). repeat split.
    + reflexivity.
    + left. reflexivity.
    + vm_compute. intuition discriminate.
    + exists (chr "i"). split; [now left|]. vm_compute. split; discriminate.
    + reflexivity.
    + reflexivity.
  - apply (proj2 (proj2 (proj2 (redirect_targets_checked
                                  (toy 9 (js "example.org") (ok_response [] []))
                                  (cfg_only [js "Example.COM"] 3 100)
                                  (post (js "example.com")) start)))
             turn0 turn0 (found (js "example.org")) (js "example.org")
             (fetched0 (toy 9 (js "example.org") (ok_response [] [])))
             {| r_hostname := js "example.org"; r_ip := js "93.184.215.14" |}
             _ {| protocol := js "http:"; hostname := js "example.org" |}).
    + apply first_turn_only; [intros st; reflexivity|reflexivity].
    + apply reaches_here.
    + split; [simpl; lia|]. exists 1%nat, (js "example.org"). repeat split.
    + lazy. reflexivity.
    + discriminate.
    + reflexivity.
    + intros (domain & Hin & H). destruct Hin as [ <- | [] ].
      vm_compute in H. destruct H as [H|(sub & H)]; [discriminate|].
      apply (f_equal (@List.length N)) in H. rewrite length_app in H. simpl in H. lia.
Defined.

Definition turn1 : Turn (World := nat) :=
  {| t_url := js "example.org"; t_count := 1;
     t_response := Some (found (js "example.org"));
     t_state :=
       {| world := 1%nat;
          trace := trace (fetched0 (toy 1 (js "example.org") (ok_response [] [])))
                   ++ [EvResolve4 (js "example.org")] |} |}.

Lemma redirects_refetched_with_get_witness :
  exists r s' evs,
    handler (toy 1 (js "example.org") (ok_response [] [])) (cfg 3 100)
      (post (js "example.com")) start = Some (r, s')
    /\ trace s' = trace start ++ evs
    /\ nth_error (fetches evs) 1
       = Some (1%nat, js "example.org",
               {| fo_method := js "GET";
                  fo_headers :=
                    outgoingHeaders (Json := unit) (post (js "example.com"));
                  fo_body := None |}).
Proof.
  destruct (proj2 (redirects_refetched_with_get
                     (toy 1 (js "example.org") (ok_response [] [])) (cfg 3 100)
                     (post (js "example.com")) start) turn0 turn1)
    as (r & s' & evs & E & Ht & Hn & _).
  - apply first_turn0. reflexivity.
  - apply (reaches_next _ _ _ turn0 turn1 turn1); [|apply reaches_here].
    exists (found (js "example.org")),
      (fetched0 (toy 1 (js "example.org") (ok_response [] []))),
      {| r_hostname := js "example.org"; r_ip := js "93.184.215.14" |}.
    split.
    { split; [simpl; lia|]. exists 1%nat, (js "example.org"). repeat split. }
    split; [lazy; reflexivity|]. split; [intros st; reflexivity|].
    repeat split. simpl. lia.
  - simpl. lia.
  - exists r, s', evs. split; [exact E|]. split; [exact Ht|]. exact Hn.
Defined.

Lemma redirects_bounded_witness :
  exists s2,
    handler (toy 9 (js "8.8.8.8") (ok_response [] [])) (cfg 0 100)
      (post (js "example.com")) start
    = Some (Ret (json_error (js "Too many redirects (max: 0)") 502), s2).
Proof.
  eexists.
  apply (proj2 (redirects_bounded
                  (toy 9 (js "8.8.8.8") (ok_response [] [])) (cfg 0 100)
                  (post (js "example.com")) start)
           turn0 turn0 (found (js "8.8.8.8")) (js "8.8.8.8")
           (fetched (t_state turn0) (js "example.com")
              (fetchOptions (toy 9 (js "8.8.8.8") (ok_response [] [])) (post (js "example.com")) 0)
              1%nat)
           {| r_hostname := js "8.8.8.8"; r_ip := js "8.8.8.8" |}).
  - apply first_turn0. reflexivity.
  - apply reaches_here.
  - split; [simpl; lia|]. exists 1%nat, (js "8.8.8.8"). repeat split.
  - lazy. reflexivity.
  - intros st. reflexivity.
  - simpl. lia.
Defined.

Lemma response_size_capped_witness :
  finish (toy 0 [] (ok_response [] [])) (cfg 3 6)
    (ok_response [(js "Content-Length", js "7")] [js "1234567"]) start
  = Some (Ret (json_error (js "Response too large") 502), start).
Proof.
  apply (proj1 (response_size_capped (toy 0 [] (ok_response [] [])) (cfg 3 6)
                  (ok_response [(js "Content-Length", js "7")] [js "1234567"]) start
                  ltac:(simpl; lia)) (js "7")).
  - reflexivity.
  - reflexivity.
  - reflexivity.
Defined.

Lemma malformed_json_kept_as_text_witness :
  exists r s',
    finish (toy 0 [] (ok_response [] [])) (cfg 3 100)
      (ok_response [(js "content-type", js "application/json")] [js "{oops"]) start
    = Some (Ret (json_ok r), s')
    /\ pr_body r = Text (js "{oops").
Proof.
  destruct (malformed_json_kept_as_text (toy 0 [] (ok_response [] [])) (cfg 3 100)
              (ok_response [(js "content-type", js "application/json")] [js "{oops"])
              {| chunks := [js "{oops"]; failure := None |} start)
    as (r & E & _ & Hb & _).
  - reflexivity.
  - reflexivity.
  - simpl. lia.
  - vm_compute. discriminate.
  - intros v n H. vm_compute in H. discriminate.
  - reflexivity.
  - exists r. eexists. split; [exact E|exact Hb].
Defined.

End ProxyFacts.

(** * The IPv6 rules of the classifier *)

Module Ipv6Facts.
Import JS Eff Ssrf JSFacts SsrfFacts ResolverFacts.

Section Classifier.
Context {U : Unicode}.

(** ** Joining and splitting at colons *)

Lemma join_cons2 (sep g g2 : jsstring) (rest : list jsstring) :
  join sep (g :: g2 :: rest) = g ++ sep ++ join sep (g2 :: rest).
Proof. reflexivity. Qed.

Lemma split_join (c : N) (segs : list jsstring) :
  segs <> [] -> Forall (fun g => ~ In c g) segs -> split [c] (join [c] segs) = segs.
Proof.
  induction segs as [|g rest IH]; intros Hne Hall; [contradiction|].
  apply Forall_cons_iff in Hall as [Hg Hrest].
  destruct rest as [|g2 rest].
  - simpl. now apply split_free.
  - rewrite join_cons2. change ([c] ++ join [c] (g2 :: rest)) with (c :: join [c] (g2 :: rest)).
    rewrite split_app by assumption.
    rewrite IH; [reflexivity|discriminate|assumption].
Qed.

(** The head of a join of non-empty parts is no separator. *)
Lemma join_head (c : N) (g : jsstring) (rest : list jsstring) :
  g <> [] -> ~ In c g ->
  exists y t, join [c] (g :: rest) = y :: t /\ y <> c.
Proof.
  intros Hne Hc. destruct g as [|y g]; [contradiction|].
  assert (Hy : y <> c) by (intros ->; apply Hc; now left).
  destruct rest as [|g2 rest].
  - exists y, g. auto.
  - rewrite join_cons2. simpl. eauto.
Qed.

Lemma includes_app_sep (sub a b : jsstring) : includes sub (a ++ sub ++ b) = true.
Proof.
  assert (Hs : forall p t, startsWith p (p ++ t) = true).
  { induction p as [|x p IH]; intros t; simpl; [reflexivity|].
    now rewrite N.eqb_refl, IH. }
  assert (Hi : forall s, startsWith sub s = true -> includes sub s = true).
  { intros [|x s] H; simpl; rewrite H; reflexivity. }
  induction a as [|x a IH]; simpl.
  - apply Hi, Hs.
  - rewrite IH. apply orb_true_r.
Qed.

Lemma includes_cons (sub : jsstring) (x : N) (s : jsstring) :
  includes sub (x :: s) = startsWith sub (x :: s) || includes sub s.
Proof. reflexivity. Qed.

Lemma startsWith_cons (a x : N) (p s : jsstring) :
  startsWith (a :: p) (x :: s) = N.eqb a x && startsWith p s.
Proof. reflexivity. Qed.

Lemma split_from_cons (sep : jsstring) (x : N) (s : jsstring) :
  split_from sep O (x :: s) =
  if startsWith sep (x :: s)
  then [] :: split_from sep (Nat.pred (List.length sep)) s
  else cons_head x (split_from sep O s).
Proof. reflexivity. Qed.

Section DoubleColon.

Local Abbreviation c := 58%N.
Local Abbreviation dc := [58%N; 58%N].

Lemma includes_dc_skip (x : N) (s : jsstring) :
  x <> c -> includes dc (x :: s) = includes dc s.
Proof.
  intros Hx. rewrite includes_cons, startsWith_cons.
  destruct (N.eqb_spec c x); [congruence|]. reflexivity.
Qed.

Lemma includes_dc_single (y : N) (s : jsstring) :
  y <> c -> includes dc (c :: y :: s) = includes dc (y :: s).
Proof.
  intros Hy. rewrite includes_cons, !startsWith_cons.
  destruct (N.eqb_spec c y); [congruence|]. rewrite andb_false_r. reflexivity.
Qed.

Lemma includes_dc_group (g t : jsstring) :
  ~ In c g -> includes dc (g ++ t) = includes dc t.
Proof.
  induction g as [|x g IH]; intros H; [reflexivity|].
  simpl app. rewrite includes_dc_skip.
  - apply IH. intros Hin. apply H. now right.
  - intros ->. apply H. now left.
Qed.

(** Non-empty parts without a colon, and what follows their join. *)
Definition parts (gs : list jsstring) : Prop :=
  Forall (fun g => g <> [] /\ ~ In c g) gs.

Lemma parts_free (gs : list jsstring) : parts gs -> Forall (fun g => ~ In c g) gs.
Proof.
  intros H. eapply List.Forall_impl; [|exact H]. intros g [_ Hc]. exact Hc.
Qed.

Lemma includes_dc_join (gs : list jsstring) (tail : jsstring) :
  parts gs -> includes dc tail = false -> (tail = [] \/ tail = [c]) ->
  includes dc (join [c] gs ++ tail) = false.
Proof.
  intros Hp Ht Htail. induction gs as [|g rest IH]; [exact Ht|].
  apply Forall_cons_iff in Hp as [[Hne Hc] Hrest].
  destruct rest as [|g2 rest].
  - simpl join. now rewrite includes_dc_group.
  - rewrite join_cons2, <- !app_assoc. rewrite includes_dc_group by assumption.
    specialize (IH Hrest).
    pose proof Hrest as Hrest'. apply Forall_cons_iff in Hrest' as [[Hne2 Hc2] _].
    destruct (join_head c g2 rest Hne2 Hc2) as (y & t & E & Hy).
    rewrite E in *. simpl app in *. now rewrite includes_dc_single.
Qed.

Lemma split_dc_none (s : jsstring) : includes dc s = false -> split dc s = [s].
Proof.
  induction s as [|x s IH]; intros H; [reflexivity|].
  rewrite includes_cons in H. apply orb_false_elim in H as [H1 H2].
  unfold split in *. rewrite split_from_cons, H1, (IH H2). reflexivity.
Qed.

Lemma split_dc_prefix (L t : jsstring) :
  includes dc (L ++ [c]) = false -> split dc (L ++ c :: c :: t) = L :: split dc t.
Proof.
  induction L as [|x L IH]; intros H.
  - reflexivity.
  - change ((x :: L) ++ [c]) with (x :: (L ++ [c])) in H.
    rewrite includes_cons in H. apply orb_false_elim in H as [H1 H2].
    unfold split in *. change ((x :: L) ++ c :: c :: t) with (x :: (L ++ c :: c :: t)).
    rewrite split_from_cons.
    assert (Hs : startsWith dc (x :: (L ++ c :: c :: t)) = false).
    { rewrite startsWith_cons in H1 |- *.
      destruct (N.eqb_spec c x); [|reflexivity]. rewrite andb_true_l in H1 |- *.
      destruct L as [|y L].
      - discriminate.
      - change ((y :: L) ++ [c]) with (y :: (L ++ [c])) in H1.
        change ((y :: L) ++ c :: c :: t) with (y :: (L ++ c :: c :: t)).
        rewrite startsWith_cons in H1 |- *.
        destruct (N.eqb c y); [discriminate|reflexivity]. }
    rewrite Hs, (IH H2). reflexivity.
Qed.

(** [left ? left.split(':') : []] on a join gives the parts back. *)
Lemma parts_of_join (gs : list jsstring) :
  parts gs ->
  (if str_eqb (join [c] gs) [] then [] else split [c] (join [c] gs)) = gs.
Proof.
  intros Hp. destruct gs as [|g rest]; [reflexivity|].
  pose proof Hp as Hp'. apply Forall_cons_iff in Hp' as [[Hne Hc] _].
  destruct (join_head c g rest Hne Hc) as (y & t & E & _).
  rewrite str_eqb_nil, E, <- E.
  apply split_join; [discriminate|now apply parts_free].
Qed.

End DoubleColon.

(** ** Groups of hexadecimal digits *)

(** A group: one to four hexadecimal digits. *)
Definition group (g : jsstring) : Prop :=
  (1 <= List.length g <= 4)%nat /\ forallb is_hex g = true.

(** [s.padStart(4, '0').toLowerCase()] *)
Definition pad_lower (s : jsstring) : jsstring := toLowerCase (padStart0 4 s).

Lemma group_part (g : jsstring) : group g -> g <> [] /\ ~ In 58%N g.
Proof.
  intros [Hl Hh]. split.
  - intros ->. simpl in Hl. lia.
  - now apply hex_no_char.
Qed.

Lemma groups_parts (gs : list jsstring) : Forall group gs -> parts gs.
Proof.
  intros H. eapply List.Forall_impl; [|exact H]. intros g. apply group_part.
Qed.

Lemma In_join (x : N) (sep : jsstring) (gs : list jsstring) :
  In x (join sep gs) -> In x sep \/ exists g, In g gs /\ In x g.
Proof.
  induction gs as [|g rest IH]; [intros []|].
  destruct rest as [|g2 rest].
  - simpl. intros H. right. exists g. auto.
  - rewrite join_cons2, !in_app_iff. intros [H|[H|H]].
    + right. exists g. split; [now left|assumption].
    + now left.
    + destruct (IH H) as [|(g' & Hg' & Hx)]; [now left|].
      right. exists g'. split; [now right|assumption].
Qed.

Lemma groups_no_dot (gs : list jsstring) (tail : jsstring) :
  Forall group gs -> ~ In 46%N tail -> ~ In 46%N (join [58%N] gs ++ tail).
Proof.
  intros Hg Ht Hin. apply in_app_iff in Hin as [Hin|Hin]; [|contradiction].
  apply In_join in Hin as [[H|[]]|(g & Hg' & Hx)]; [discriminate|].
  rewrite List.Forall_forall in Hg. destruct (Hg g Hg') as [_ Hh].
  now apply (hex_no_char g 46%N Hh).
Qed.

Lemma pad_lower_eq (g : jsstring) :
  forallb is_hex g = true ->
  pad_lower g = repeat 48%N (4 - List.length g) ++ map lower_char g.
Proof.
  intros Hh. unfold pad_lower, padStart0. chr_eval.
  rewrite toLowerCase_ascii.
  - rewrite map_app. f_equal.
    induction (4 - List.length g)%nat as [|k IH]; [reflexivity|].
    simpl. rewrite IH. reflexivity.
  - rewrite forallb_app, (hex_ascii g Hh), andb_true_r.
    induction (4 - List.length g)%nat as [|k IH]; [reflexivity|exact IH].
Qed.

Lemma hex_not_space (x : N) : is_hex x = true -> is_space x = false.
Proof.
  intros H. apply is_hex_range in H. unfold is_space, existsb.
  eqb_cases x. simpl. destruct (N.leb_spec 8192 x); [lia|reflexivity].
Qed.

(** [parseInt(t, 16)] of a run of hexadecimal digits is the integer they
    write. *)
Lemma parseInt_hex (t : jsstring) :
  t <> [] -> forallb is_hex t = true -> parseInt t 16 = Some (digits_value 16 t).
Proof.
  intros Hne Hh. unfold parseInt.
  destruct t as [|x t]; [contradiction|].
  assert (Hx : is_hex x = true) by (simpl in Hh; now apply andb_prop in Hh as [? _]).
  rewrite (trimStart_id x t (hex_not_space x Hx)).
  assert (Hsign : take_sign (x :: t) = (false, x :: t)).
  { apply is_hex_range in Hx. unfold take_sign. chr_eval. eqb_cases x. reflexivity. }
  rewrite Hsign.
  assert (Hpre : startsWith (js "0x") (x :: t) || startsWith (js "0X") (x :: t) = false).
  { change (js "0x") with [48%N; 120%N]. change (js "0X") with [48%N; 88%N].
    rewrite !startsWith_cons. destruct t as [|y t].
    - simpl. now rewrite !andb_false_r.
    - simpl in Hh. apply andb_prop in Hh as [_ Hh]. apply andb_prop in Hh as [Hy _].
      apply is_hex_range in Hy. rewrite !startsWith_cons.
      destruct (N.eqb_spec 120 y); [lia|]. destruct (N.eqb_spec 88 y); [lia|].
      simpl. now rewrite !andb_false_r. }
  rewrite Hpre, andb_false_r. rewrite span_all by exact Hh. reflexivity.
Qed.

(** ** The value of a group *)

(** The four lower-case hexadecimal digits that write [v]. *)
Definition hex4 (v : Z) : jsstring :=
  [digit_char (v / 4096); digit_char (v / 256 mod 16);
   digit_char (v / 16 mod 16); digit_char (v mod 16)].

Lemma hex_digit (x : N) :
  is_hex x = true ->
  exists d, 0 <= d < 16 /\ digit_value x = Some d /\ lower_char x = digit_char d.
Proof.
  intros H. apply is_hex_range in H.
  assert (E : (x = 48 \/ x = 49 \/ x = 50 \/ x = 51 \/ x = 52 \/ x = 53 \/ x = 54
               \/ x = 55 \/ x = 56 \/ x = 57 \/ x = 97 \/ x = 98 \/ x = 99 \/ x = 100
               \/ x = 101 \/ x = 102 \/ x = 65 \/ x = 66 \/ x = 67 \/ x = 68 \/ x = 69
               \/ x = 70)%N) by lia.
  exists (default 0 (digit_value x)).
  repeat destruct E as [E|E]; subst x; vm_compute; intuition congruence.
Qed.

Lemma digit_value_char (d : Z) : 0 <= d < 16 -> digit_value (digit_char d) = Some d.
Proof.
  intros H.
  assert (E : d = 0 \/ d = 1 \/ d = 2 \/ d = 3 \/ d = 4 \/ d = 5 \/ d = 6 \/ d = 7
              \/ d = 8 \/ d = 9 \/ d = 10 \/ d = 11 \/ d = 12 \/ d = 13 \/ d = 14
              \/ d = 15) by lia.
  repeat destruct E as [E|E]; subst d; reflexivity.
Qed.

Lemma hex4_digits (d1 d2 d3 d4 : Z) :
  0 <= d1 < 16 -> 0 <= d2 < 16 -> 0 <= d3 < 16 -> 0 <= d4 < 16 ->
  hex4 (((d1 * 16 + d2) * 16 + d3) * 16 + d4)
  = [digit_char d1; digit_char d2; digit_char d3; digit_char d4].
Proof.
  intros H1 H2 H3 H4. unfold hex4.
  repeat f_equal; Z.to_euclidean_division_equations; lia.
Qed.

Lemma hex4_value (v : Z) : 0 <= v < 65536 -> digits_value 16 (hex4 v) = v.
Proof.
  intros H. unfold hex4, digits_value. simpl fold_left.
  rewrite !digit_value_char by (Z.to_euclidean_division_equations; lia).
  simpl default. Z.to_euclidean_division_equations; lia.
Qed.

Lemma hex4_group (v : Z) : 0 <= v < 65536 -> group (hex4 v).
Proof.
  intros H. split; [simpl; lia|].
  unfold hex4. simpl forallb. unfold is_hex, is_radix_digit.
  rewrite !digit_value_char by (Z.to_euclidean_division_equations; lia).
  repeat (apply andb_true_intro; split); try reflexivity; apply Z.ltb_lt;
    Z.to_euclidean_division_equations; lia.
Qed.

(** A group, padded and in lower case, is the four digits of its value. *)
Lemma group_value (g : jsstring) :
  group g -> 0 <= digits_value 16 g < 65536 /\ pad_lower g = hex4 (digits_value 16 g).
Proof.
  intros [Hl Hh]. rewrite (pad_lower_eq g Hh).
  destruct g as [|x1 [|x2 [|x3 [|x4 [|x5 g]]]]]; simpl in Hl; try lia;
    simpl in Hh;
    repeat match type of Hh with
    | (_ && _)%bool = true => apply andb_prop in Hh as [?Hx Hh]
    end;
    repeat match goal with
    | H : is_hex ?x = true |- _ =>
        let d := fresh "d" in
        destruct (hex_digit x H) as (d & ? & ? & ?); clear H
    end;
    unfold digits_value; simpl;
    repeat match goal with
    | H : digit_value _ = Some _ |- _ => rewrite H; clear H
    | H : lower_char _ = digit_char _ |- _ => rewrite H; clear H
    end;
    simpl default; change 48%N with (digit_char 0).
  - rewrite <- (hex4_digits 0 0 0 d) by lia. split; [lia|f_equal; lia].
  - rewrite <- (hex4_digits 0 0 d0 d) by lia. split; [lia|f_equal; lia].
  - rewrite <- (hex4_digits 0 d1 d0 d) by lia. split; [lia|f_equal; lia].
  - rewrite <- (hex4_digits d2 d1 d0 d) by lia. split; [lia|f_equal; lia].
Qed.

(** ** Address texts *)

(** An address written in groups of hexadecimal digits: all eight groups, or
    the groups on either side of one "::". *)
Inductive address : Type :=
| Full (gs : list jsstring)
| Compressed (l r : list jsstring).

Definition text (a : address) : jsstring :=
  match a with
  | Full gs => join (js ":") gs
  | Compressed l r => join (js ":") l ++ js "::" ++ join (js ":") r
  end.

(** Eight groups; around a "::", no more than eight (the "::" of an address
    stands for at least one group; the source takes one that stands for none
    as well). *)
Definition well_formed (a : address) : Prop :=
  match a with
  | Full gs => List.length gs = 8%nat /\ Forall group gs
  | Compressed l r =>
      (List.length l + List.length r <= 8)%nat /\ Forall group l /\ Forall group r
  end.

Definition value (g : jsstring) : Z := digits_value 16 g.

(** The eight 16-bit segments that the text denotes. *)
Definition segments (a : address) : list Z :=
  match a with
  | Full gs => map value gs
  | Compressed l r =>
      map value l ++ repeat 0 (8 - List.length l - List.length r) ++ map value r
  end.

Definition segment (v : Z) : Prop := 0 <= v < 65536.

Lemma map_pad_lower (gs : list jsstring) :
  Forall group gs ->
  map (fun s => toLowerCase (padStart0 4 s)) gs = map hex4 (map value gs).
Proof.
  intros H. rewrite map_map. apply map_ext_in. intros g Hg.
  rewrite List.Forall_forall in H. apply (group_value g (H g Hg)).
Qed.

Lemma values_segments (gs : list jsstring) : Forall group gs -> Forall segment (map value gs).
Proof.
  intros H. apply List.Forall_forall. intros v Hv.
  apply in_map_iff in Hv as (g & <- & Hg).
  rewrite List.Forall_forall in H. apply (group_value g (H g Hg)).
Qed.

Lemma segments_length (a : address) : well_formed a -> List.length (segments a) = 8%nat.
Proof.
  destruct a as [gs|l r]; simpl.
  - intros [Hl _]. now rewrite length_map.
  - intros [Hl _]. rewrite !length_app, repeat_length, !length_map. lia.
Qed.

Lemma segments_range (a : address) : well_formed a -> Forall segment (segments a).
Proof.
  destruct a as [gs|l r]; simpl.
  - intros [_ Hg]. now apply values_segments.
  - intros (_ & Hl & Hr). rewrite !Forall_app. repeat split.
    + now apply values_segments.
    + apply List.Forall_forall. intros v Hv. apply repeat_spec in Hv. subst v.
      unfold segment. lia.
    + now apply values_segments.
Qed.

Lemma text_no_dot (a : address) : well_formed a -> ~ In 46%N (text a).
Proof.
  destruct a as [gs|l r]; unfold text, well_formed.
  - intros [_ Hg]. rewrite <- (app_nil_r (join (js ":") gs)).
    apply (groups_no_dot gs []); auto.
  - intros (_ & Hl & Hr). change (js ":") with [58%N]. apply groups_no_dot; [assumption|].
    intros Hin. apply in_app_iff in Hin as [Hin|Hin].
    + vm_compute in Hin. intuition discriminate.
    + rewrite <- (app_nil_r (join [58%N] r)) in Hin.
      revert Hin. apply groups_no_dot; auto.
Qed.

(** On such a text [normalizeIPv6] writes the eight segments, four digits
    each. *)
Lemma normalizeIPv6_text (a : address) :
  well_formed a ->
  normalizeIPv6 (text a) = Ret (join (js ":") (map hex4 (segments a))).
Proof.
  intros Hw. pose proof (text_no_dot a Hw) as Hdot.
  apply includes_char_false in Hdot.
  unfold normalizeIPv6. change (js ".") with [46%N]. rewrite Hdot.
  destruct a as [gs|l r]; unfold text, segments.
  - destruct Hw as [Hl Hg].
    change (js ":") with [58%N]. change (js "::") with [58%N; 58%N].
    pose proof (includes_dc_join gs [] (groups_parts gs Hg) eq_refl (or_introl eq_refl)) as Hdc.
    rewrite app_nil_r in Hdc. rewrite Hdc.
    rewrite split_join.
    + simpl. now rewrite map_pad_lower.
    + intros ->. discriminate.
    + apply parts_free. now apply groups_parts.
  - destruct Hw as (Hlen & Hl & Hr).
    change (js ":") with [58%N]. change (js "::") with [58%N; 58%N].
    rewrite includes_app_sep.
    change ([58%N; 58%N] ++ join [58%N] r) with (58%N :: 58%N :: join [58%N] r).
    rewrite split_dc_prefix
      by (apply includes_dc_join; [now apply groups_parts|reflexivity|now right]).
    pose proof (includes_dc_join r [] (groups_parts r Hr) eq_refl (or_introl eq_refl)) as Hdc.
    rewrite app_nil_r in Hdc. rewrite (split_dc_none _ Hdc).
    cbv zeta. simpl nth.
    rewrite !parts_of_join by (now apply groups_parts).
    destruct (Z.ltb_spec (8 - Z.of_nat (List.length l) - Z.of_nat (List.length r)) 0); [lia|].
    simpl. rewrite !map_app, (map_pad_lower l Hl), (map_pad_lower r Hr).
    replace (Z.to_nat (8 - Z.of_nat (List.length l) - Z.of_nat (List.length r)))
      with (8 - List.length l - List.length r)%nat by lia.
    assert (Hz : forall k, map (fun s => toLowerCase (padStart0 4 s)) (repeat (js "0000") k)
                           = map hex4 (repeat 0 k)).
    { induction k as [|k IH]; [reflexivity|]. simpl. now rewrite IH. }
    now rewrite Hz.
Qed.

(** ** The rules on the eight segments *)

(** fc00::/7 and fe80::/10, by the first segment. *)
Definition local_block (v : Z) : Prop :=
  0xfc00 <= v <= 0xfdff \/ 0xfe80 <= v <= 0xfebf.

Definition local_blockb (v : Z) : bool :=
  ((0xfc00 <=? v) && (v <=? 0xfdff)) || ((0xfe80 <=? v) && (v <=? 0xfebf)).

Lemma local_blockb_spec (v : Z) : local_blockb v = true <-> local_block v.
Proof. unfold local_blockb, local_block. lia. Qed.

(** The loopback address; an IPv4-mapped address, by the IPv4 rules on the
    octets of its last two segments; any other address, by the first
    segment. *)
Definition private_segments (vs : list Z) : bool :=
  match vs with
  | [v1; v2; v3; v4; v5; v6; v7; v8] =>
      let zeros := (v1 =? 0) && (v2 =? 0) && (v3 =? 0) && (v4 =? 0) && (v5 =? 0) in
      if zeros && (v6 =? 0) && (v7 =? 0) && (v8 =? 1) then true
      else if zeros && (v6 =? 0xffff) then private_blockb (v7 / 256) (v7 mod 256)
      else local_blockb v1
  | _ => false
  end.

Lemma str_eqb_app (p s q t : jsstring) :
  List.length p = List.length s ->
  str_eqb (p ++ q) (s ++ t) = str_eqb p s && str_eqb q t.
Proof.
  revert s. induction p as [|x p IH]; intros [|y s] Hl; try discriminate; [reflexivity|].
  simpl. rewrite IH by (simpl in Hl; lia). now rewrite andb_assoc.
Qed.

Lemma startsWith_app (p s q t : jsstring) :
  List.length p = List.length s ->
  startsWith (p ++ q) (s ++ t) = str_eqb p s && startsWith q t.
Proof.
  revert s. induction p as [|x p IH]; intros [|y s] Hl; try discriminate; [reflexivity|].
  simpl. rewrite IH by (simpl in Hl; lia). now rewrite andb_assoc.
Qed.

Lemma str_eqb_hex4 (v w : Z) :
  segment v -> segment w -> str_eqb (hex4 v) (hex4 w) = (v =? w).
Proof.
  intros Hv Hw. destruct (Z.eqb_spec v w) as [->|Hne].
  - apply str_eqb_refl.
  - apply str_eqb_neq. intros E. apply Hne.
    rewrite <- (hex4_value v Hv), <- (hex4_value w Hw). now rewrite E.
Qed.

Lemma str_eqb_segment (v w : Z) (t q : jsstring) :
  segment v -> segment w ->
  str_eqb (hex4 v ++ [58%N] ++ t) (hex4 w ++ [58%N] ++ q) = (v =? w) && str_eqb t q.
Proof.
  intros Hv Hw. rewrite str_eqb_app by reflexivity.
  rewrite str_eqb_hex4 by assumption. reflexivity.
Qed.

Lemma startsWith_segment (v w : Z) (t q : jsstring) :
  segment v -> segment w ->
  startsWith (hex4 w ++ [58%N] ++ q) (hex4 v ++ [58%N] ++ t) = (w =? v) && startsWith q t.
Proof.
  intros Hv Hw. rewrite startsWith_app by reflexivity.
  rewrite str_eqb_hex4 by assumption. reflexivity.
Qed.

Lemma hex4_no_colon (v : Z) : segment v -> ~ In 58%N (hex4 v).
Proof. intros H. apply group_part. now apply hex4_group. Qed.

Lemma parseInt_hex4 (v : Z) : segment v -> parseInt (hex4 v) 16 = Some v.
Proof.
  intros H. rewrite parseInt_hex.
  - now rewrite hex4_value.
  - discriminate.
  - now apply hex4_group.
Qed.

Lemma parseInt_hex2 (d1 d2 : Z) :
  0 <= d1 < 16 -> 0 <= d2 < 16 ->
  parseInt [digit_char d1; digit_char d2] 16 = Some (d1 * 16 + d2).
Proof.
  intros H1 H2. rewrite parseInt_hex.
  - unfold digits_value. simpl. now rewrite !digit_value_char.
  - discriminate.
  - simpl. unfold is_hex, is_radix_digit. rewrite !digit_value_char by assumption.
    repeat (apply andb_true_intro; split); try reflexivity; apply Z.ltb_lt; lia.
Qed.

(** The two octets of a segment, as [parseInt] reads them from its digits. *)
Lemma parseInt_octets (v : Z) :
  segment v ->
  parseInt (slice 0 2 (hex4 v)) 16 = Some (v / 256)
  /\ parseInt (slice 2 4 (hex4 v)) 16 = Some (v mod 256).
Proof.
  intros H. unfold segment in H. unfold hex4, slice. simpl firstn.
  rewrite !parseInt_hex2 by (Z.to_euclidean_division_equations; lia).
  split; f_equal; Z.to_euclidean_division_equations; lia.
Qed.

(** [`${o}`] for an octet is a run of decimal digits that writes it. *)
Lemma octet_show (o : Z) : 0 <= o <= 255 -> octet (show (Some o)) o.
Proof.
  intros H.
  assert (Hall : forallb (fun k => let v := Z.of_nat k in
                                   let s := show (Some v) in
                                   negb (str_eqb s []) && forallb is_digit s
                                   && (digits_value 10 s =? v) && (0 <=? v) && (v <=? 255))
                   (seq 0 256) = true) by (vm_compute; reflexivity).
  rewrite forallb_forall in Hall.
  specialize (Hall (Z.to_nat o)). cbv zeta in Hall.
  rewrite Z2Nat.id in Hall by lia.
  apply octet_intro, Hall, in_seq. lia.
Qed.

Lemma text_colon (a : address) : well_formed a -> includes (js ":") (text a) = true.
Proof.
  change (js ":") with [58%N].
  destruct a as [gs|l r]; unfold text, well_formed.
  - intros [Hl _]. destruct gs as [|g [|g2 rest]]; try discriminate.
    change (js ":") with [58%N]. rewrite join_cons2. apply includes_app_sep.
  - intros _. change (js "::") with ([58%N] ++ [58%N]). rewrite <- app_assoc.
    apply includes_app_sep.
Qed.

(** After the normalization to eight segments the classifier follows the
    rules on them. *)
Lemma isPrivateIPv6_segments (ip : jsstring) (vs : list Z) :
  includes (js ".") ip = false ->
  normalizeIPv6 ip = Ret (join (js ":") (map hex4 vs)) ->
  List.length vs = 8%nat -> Forall segment vs ->
  isPrivateIPv6 ip = Ret (private_segments vs).
Proof.
  intros Hdot Hn Hl Hr.
  destruct vs as [|v1 [|v2 [|v3 [|v4 [|v5 [|v6 [|v7 [|v8 [|v9 vs]]]]]]]]]; try discriminate.
  repeat match goal with
  | H : Forall segment (_ :: _) |- _ => apply Forall_cons_iff in H as [? H]
  end.
  unfold isPrivateIPv6. rewrite Hdot, Hn. clear Hdot Hn.
  change (js ":") with [58%N]. cbn [mbind result_bind map join].
  change (js "0000:0000:0000:0000:0000:0000:0000:0001")
    with (hex4 0 ++ [58%N] ++ hex4 0 ++ [58%N] ++ hex4 0 ++ [58%N] ++ hex4 0 ++ [58%N]
          ++ hex4 0 ++ [58%N] ++ hex4 0 ++ [58%N] ++ hex4 0 ++ [58%N] ++ hex4 1).
  change (js "0000:0000:0000:0000:0000:ffff:")
    with (hex4 0 ++ [58%N] ++ hex4 0 ++ [58%N] ++ hex4 0 ++ [58%N] ++ hex4 0 ++ [58%N]
          ++ hex4 0 ++ [58%N] ++ hex4 0xffff ++ [58%N] ++ []).
  assert (S0 : segment 0) by (unfold segment; lia).
  assert (S1 : segment 1) by (unfold segment; lia).
  assert (Sf : segment 0xffff) by (unfold segment; lia).
  rewrite !str_eqb_segment, str_eqb_hex4 by assumption.
  rewrite !startsWith_segment by assumption.
  cbn [startsWith]. rewrite andb_true_r.
  unfold private_segments.
  rewrite !(Z.eqb_sym 0), (Z.eqb_sym 0xffff).
  destruct (v1 =? 0) eqn:E1, (v2 =? 0) eqn:E2, (v3 =? 0) eqn:E3, (v4 =? 0) eqn:E4,
    (v5 =? 0) eqn:E5; cbn [andb]; cbv iota zeta.
  1: destruct (v6 =? 0) eqn:E6; cbn [andb]; cbv iota.
  1: destruct ((v7 =? 0) && (v8 =? 1)); [reflexivity|].
  1: replace (v6 =? 65535) with false by lia.
  2: destruct (v6 =? 65535) eqn:Ef.
  2: { (* the IPv4-mapped form *)
    assert (Hs : slice_last 9
                   (hex4 v1 ++ [58%N] ++ hex4 v2 ++ [58%N] ++ hex4 v3 ++ [58%N] ++ hex4 v4
                    ++ [58%N] ++ hex4 v5 ++ [58%N] ++ hex4 v6 ++ [58%N] ++ hex4 v7
                    ++ [58%N] ++ hex4 v8) = hex4 v7 ++ 58%N :: hex4 v8) by reflexivity.
    rewrite Hs. rewrite split_app by (now apply hex4_no_colon).
    rewrite split_free by (now apply hex4_no_colon).
    destruct (parseInt_octets v7) as [-> ->]; [assumption|].
    destruct (parseInt_octets v8) as [-> ->]; [assumption|].
    f_equal.
    apply (isPrivateIPv4_dotted _ _ _ _ (v7 / 256) (v7 mod 256) (v8 / 256) (v8 mod 256));
      apply octet_show; unfold segment in *; Z.to_euclidean_division_equations; lia. }
  all: assert (Hf : slice 0 4
                   (hex4 v1 ++ [58%N] ++ hex4 v2 ++ [58%N] ++ hex4 v3 ++ [58%N] ++ hex4 v4
                    ++ [58%N] ++ hex4 v5 ++ [58%N] ++ hex4 v6 ++ [58%N] ++ hex4 v7
                    ++ [58%N] ++ hex4 v8) = hex4 v1) by reflexivity;
    rewrite Hf, parseInt_hex4 by assumption;
    unfold in_range, local_blockb;
    destruct ((64512 <=? v1) && (v1 <=? 65023)); [reflexivity|];
    destruct ((65152 <=? v1) && (v1 <=? 65215)); reflexivity.
Qed.

(** On the text of an address [isPrivateIP] follows the rules on its
    segments. *)
Lemma isPrivateIP_text (a : address) :
  well_formed a -> isPrivateIP (text a) = Ret (private_segments (segments a)).
Proof.
  intros Hw. pose proof (text_no_dot a Hw) as Hdot.
  unfold isPrivateIP.
  assert (E : str_eqb (text a) (js "169.254.169.254") = false).
  { apply str_eqb_neq. intros E. apply Hdot. rewrite E. vm_compute. tauto. }
  rewrite E, (text_colon a Hw).
  apply isPrivateIPv6_segments.
  - change (js ".") with [46%N]. now apply includes_char_false.
  - now apply normalizeIPv6_text.
  - now apply segments_length.
  - now apply segments_range.
Qed.

(** ** The IPv4-mapped form with a dotted quad *)

Lemma dotted_digits_dotted (s1 s2 s3 s4 : jsstring) (a b c d : Z) :
  octet s1 a -> octet s2 b -> octet s3 c -> octet s4 d ->
  dotted_digits (dotted s1 s2 s3 s4) = true.
Proof.
  intros (N1 & D1 & _) (N2 & D2 & _) (N3 & D3 & _) (N4 & D4 & _).
  unfold dotted_digits. rewrite split_dotted by assumption.
  simpl. rewrite D1, D2, D3, D4, !str_eqb_nil.
  destruct s1, s2, s3, s4; try contradiction; reflexivity.
Qed.

Lemma match_mapped_eq (ip : jsstring) :
  match_mapped ip =
  if startsWith (js "::ffff:") (ascii_lower (firstn 7 ip)) && dotted_digits (skipn 7 ip)
  then Some (skipn 7 ip)
  else match ip with
       | [] => None
       | _ :: ip' => match_mapped ip'
       end.
Proof. destruct ip; reflexivity. Qed.

Lemma isPrivateIP_mapped_dotted (s1 s2 s3 s4 : jsstring) (a b c d : Z) :
  octet s1 a -> octet s2 b -> octet s3 c -> octet s4 d ->
  isPrivateIP (js "::ffff:" ++ dotted s1 s2 s3 s4) = Ret (private_blockb a b).
Proof.
  intros O1 O2 O3 O4.
  change (js "::ffff:" ++ dotted s1 s2 s3 s4)
    with (58%N :: 58%N :: 102%N :: 102%N :: 102%N :: 102%N :: 58%N :: dotted s1 s2 s3 s4).
  unfold isPrivateIP.
  change (js "169.254.169.254") with (49%N :: js "69.254.169.254").
  change (js ":") with [58%N].
  cbn [str_eqb includes startsWith N.eqb Pos.eqb andb orb].
  unfold isPrivateIPv6.
  assert (Hdot : includes (js ".")
                   (58%N :: 58%N :: 102%N :: 102%N :: 102%N :: 102%N :: 58%N
                      :: dotted s1 s2 s3 s4) = true).
  { change (js ".") with [46%N]. apply includes_char. do 7 right.
    unfold dotted. change (js ".") with [46%N]. apply in_app_iff. right. now left. }
  rewrite Hdot.
  assert (Hm : match_mapped (58%N :: 58%N :: 102%N :: 102%N :: 102%N :: 102%N :: 58%N
                               :: dotted s1 s2 s3 s4) = Some (dotted s1 s2 s3 s4)).
  { rewrite match_mapped_eq. cbn [firstn skipn].
    change (firstn 0 (dotted s1 s2 s3 s4)) with (@nil N).
    change (skipn 0 (dotted s1 s2 s3 s4)) with (dotted s1 s2 s3 s4).
    change (startsWith (js "::ffff:")
              (toLowerCase [58%N; 58%N; 102%N; 102%N; 102%N; 102%N; 58%N])) with true.
    now rewrite (dotted_digits_dotted s1 s2 s3 s4 a b c d). }
  rewrite Hm. f_equal. now apply isPrivateIPv4_dotted with (c := c) (d := d).
Qed.

(** The first of the eight segments. *)
Definition first_segment (a : address) : Z := nth 0 (segments a) 0.

Lemma group_intro (g : jsstring) :
  (Nat.leb 1 (List.length g) && Nat.leb (List.length g) 4 && forallb is_hex g)%bool = true ->
  group g.
Proof.
  intros H. apply andb_prop in H as [H Hh]. apply andb_prop in H as [H1 H2].
  apply Nat.leb_le in H1, H2. split; [lia|assumption].
Qed.

Lemma groups_intro (gs : list jsstring) :
  forallb (fun g => Nat.leb 1 (List.length g) && Nat.leb (List.length g) 4
                    && forallb is_hex g)%bool gs = true ->
  Forall group gs.
Proof.
  intros H. apply List.Forall_forall. intros g Hg. apply group_intro.
  rewrite forallb_forall in H. now apply H.
Qed.

(** X1.  The IPv6 rules on the texts of addresses written in hexadecimal
    groups: eight groups of one to four hexadecimal digits, or such groups on
    either side of one "::".  [normalizeIPv6] writes the eight segments the
    text denotes with four digits each.  "::1" is classified private.  An
    address whose first segment lies in fc00-fdff or fe80-febf is classified
    private.  An IPv4-mapped address is classified by the IPv4 rules on its
    first two octets, when it is written "::ffff:" before a dotted quad of
    decimal octets, and when it is written in hexadecimal groups (fully
    expanded or with a "::") whose segments are 0, 0, 0, 0, 0, ffff and the
    two that hold the octets.  So "fc00::1", "fd00::1", "fe80::1",
    "::ffff:10.0.0.1", "::ffff:192.168.1.1" and "::ffff:169.254.169.254" are
    private and "::ffff:8.8.8.8" is not. *)
Theorem isPrivateIP_ipv6_rules :
  (forall a, well_formed a ->
             normalizeIPv6 (text a) = Ret (join (js ":") (map hex4 (segments a))))
  /\ isPrivateIP (js "::1") = Ret true
  /\ (forall a, well_formed a -> local_block (first_segment a) ->
                isPrivateIP (text a) = Ret true)
  /\ (forall s1 s2 s3 s4 a b c d,
        octet s1 a -> octet s2 b -> octet s3 c -> octet s4 d ->
        isPrivateIP (js "::ffff:" ++ dotted s1 s2 s3 s4) = Ret (private_blockb a b))
  /\ (forall a h1 h2,
        well_formed a -> segments a = [0; 0; 0; 0; 0; 0xffff; h1; h2] ->
        isPrivateIP (text a) = Ret (private_blockb (h1 / 256) (h1 mod 256)))
  /\ isPrivateIP (js "fc00::1") = Ret true
  /\ isPrivateIP (js "fd00::1") = Ret true
  /\ isPrivateIP (js "fe80::1") = Ret true
  /\ isPrivateIP (js "::ffff:10.0.0.1") = Ret true
  /\ isPrivateIP (js "::ffff:192.168.1.1") = Ret true
  /\ isPrivateIP (js "::ffff:169.254.169.254") = Ret true
  /\ isPrivateIP (js "::ffff:8.8.8.8") = Ret false.
Proof.
  split; [exact normalizeIPv6_text|].
  split; [reflexivity|]. split; [|split; [|split; [|repeat split; reflexivity]]].
  - intros a Hw Hb. rewrite (isPrivateIP_text a Hw). f_equal.
    pose proof (segments_length a Hw) as Hl. unfold first_segment in Hb.
    destruct (segments a) as [|v1 [|v2 [|v3 [|v4 [|v5 [|v6 [|v7 [|v8 [|v9 vs]]]]]]]]];
      try discriminate.
    simpl nth in Hb. unfold private_segments.
    pose proof (proj2 (local_blockb_spec v1) Hb) as Hv.
    unfold local_block in Hb. replace (v1 =? 0) with false by lia. exact Hv.
  - intros s1 s2 s3 s4 a b c d. apply isPrivateIP_mapped_dotted.
  - intros a h1 h2 Hw Hs. rewrite (isPrivateIP_text a Hw), Hs. reflexivity.
Qed.

Lemma startsWith_slice (a b c d : N) (p n : jsstring) :
  startsWith (a :: b :: c :: d :: p) n = true -> slice 0 4 n = [a; b; c; d].
Proof.
  destruct n as [|a' [|b' [|c' [|d' n]]]]; simpl; rewrite ?andb_false_r;
    try discriminate.
  intros H. repeat (apply andb_prop in H as [?E H]).
  apply N.eqb_eq in E, E0, E1, E2. now subst.
Qed.

(** X5.  The range comparisons are made on what [normalizeIPv6] returns:
    for any string with a colon, when the first four characters of the
    normalized form read, in base 16, as a number in fc00-fdff or fe80-febf,
    the string is classified private. *)
Theorem local_segment_private (ip n : jsstring) :
  includes (js ":") ip = true ->
  normalizeIPv6 ip = Ret n ->
  in_range 0xfc00 0xfdff (parseInt (slice 0 4 n) 16)
  || in_range 0xfe80 0xfebf (parseInt (slice 0 4 n) 16) = true ->
  isPrivateIP ip = Ret true.
Proof.
  intros Hc Hn Hr. unfold isPrivateIP. rewrite Hc.
  destruct (str_eqb ip (js "169.254.169.254")); [reflexivity|].
  unfold isPrivateIPv6.
  destruct (if includes (js ".") ip then match_mapped ip else None) as [m|] eqn:Em.
  - exfalso. unfold normalizeIPv6 in Hn. rewrite Em in Hn. injection Hn as <-.
    lazy in Hr. discriminate.
  - rewrite Hn. cbn [mbind result_bind].
    destruct (str_eqb n _); [reflexivity|].
    destruct (startsWith (js "0000:0000:0000:0000:0000:ffff:") n) eqn:Es.
    + exfalso.
      change (js "0000:0000:0000:0000:0000:ffff:")
        with (48%N :: 48%N :: 48%N :: 48%N :: js ":0000:0000:0000:0000:ffff:") in Es.
      rewrite (startsWith_slice _ _ _ _ _ _ Es) in Hr. lazy in Hr. discriminate.
    + destruct (in_range 64512 65023 _); [reflexivity|].
      simpl in Hr. now rewrite Hr.
Qed.

(** C2 (as the code has it).  A link-local address in the mixed notation,
    with "::ffff:" before the dotted quad, is taken for an IPv4-mapped
    address: the pattern for those is not anchored on the left, so the
    address is classified by the quad alone, whatever comes before, and
    "fe80::ffff:8.8.8.8" is classified not private.  The same address
    written in hexadecimal groups, or in the mixed notation without the
    "::", is classified private. *)
Theorem mixed_link_local_not_private :
  isPrivateIP (js "fe80::ffff:8.8.8.8") = Ret false
  /\ isPrivateIP (js "fe80::ffff:808:808") = Ret true
  /\ isPrivateIP (js "fe80:0:0:0:0:ffff:8.8.8.8") = Ret true.
Proof. repeat split; reflexivity. Qed.

End Classifier.

Import Toy.

Lemma isPrivateIP_ipv6_rules_witness :
  isPrivateIP (js "FD12:3456::abcd") = Ret true
  /\ isPrivateIP (js "febf:0:0:0:0:0:0:1") = Ret true
  /\ isPrivateIP (js "::ffff:172.16.0.9") = Ret true
  /\ isPrivateIP (js "0000:0000:0000:0000:0000:ffff:7f00:0001") = Ret true
  /\ isPrivateIP (js "::FFFF:808:808") = Ret false.
Proof.
  split; [|split; [|split; [|split]]].
  - apply (proj1 (proj2 (proj2 isPrivateIP_ipv6_rules))
             (Compressed [js "FD12"; js "3456"] [js "abcd"])).
    + repeat split; try (apply groups_intro; reflexivity). simpl. lia.
    + left. vm_compute. split; discriminate.
  - apply (proj1 (proj2 (proj2 isPrivateIP_ipv6_rules))
             (Full [js "febf"; js "0"; js "0"; js "0"; js "0"; js "0"; js "0"; js "1"])).
    + split; [reflexivity|apply groups_intro; reflexivity].
    + right. vm_compute. split; discriminate.
  - apply (proj1 (proj2 (proj2 (proj2 isPrivateIP_ipv6_rules)))
             (js "172") (js "16") (js "0") (js "9") 172 16 0 9);
      apply octet_intro; reflexivity.
  - apply (proj1 (proj2 (proj2 (proj2 (proj2 isPrivateIP_ipv6_rules))))
             (Full [js "0000"; js "0000"; js "0000"; js "0000"; js "0000"; js "ffff";
                    js "7f00"; js "0001"]) 0x7f00 1).
    + split; [reflexivity|apply groups_intro; reflexivity].
    + reflexivity.
  - apply (proj1 (proj2 (proj2 (proj2 (proj2 isPrivateIP_ipv6_rules))))
             (Compressed [] [js "FFFF"; js "808"; js "808"]) 0x808 0x808).
    + repeat split; try (apply groups_intro; reflexivity). simpl. lia.
    + reflexivity.
Defined.

Lemma local_segment_private_witness : isPrivateIP (js "fe80::1%eth0") = Ret true.
Proof.
  apply (local_segment_private (js "fe80::1%eth0")
           (js "fe80:0000:0000:0000:0000:0000:0000:1%eth0")); reflexivity.
Defined.

End Ipv6Facts.

(** * ETags *)

Module EtagFacts.
Import JS Proxy Etag JSFacts.

Lemma cons_head_app (x : N) (l l' : list jsstring) :
  l <> [] -> cons_head x (l ++ l') = cons_head x l ++ l'.
Proof. destruct l; [contradiction|reflexivity]. Qed.

(** Splitting at a separator splits on either side of one occurrence. *)
Lemma split_app_sep (c : N) (a b : jsstring) :
  split [c] (a ++ c :: b) = split [c] a ++ split [c] b.
Proof.
  induction a as [|x a IH]; simpl app.
  - now rewrite split_cons, N.eqb_refl.
  - rewrite !split_cons, IH. destruct (N.eqb c x); [reflexivity|].
    apply cons_head_app, split_not_nil.
Qed.

Lemma truthy_cons (x : N) (s : jsstring) : truthy (Some (x :: s)) = Some (x :: s).
Proof. reflexivity. Qed.

(** X6.  An If-None-Match header that lists tags is matched tag by tag:
    for non-empty [a] and [b], the header [a,b] matches an ETag exactly
    when [a] or [b] does. *)
Theorem etag_list_matches (a b etag : jsstring) :
  a <> [] -> b <> [] ->
  etagMatches (Some (a ++ js "," ++ b)) etag
  = etagMatches (Some a) etag || etagMatches (Some b) etag.
Proof.
  intros Ha Hb. destruct a as [|x a]; [contradiction|].
  destruct b as [|y b]; [contradiction|].
  unfold etagMatches. change (js ",") with [44%N].
  change ((x :: a) ++ [44%N] ++ y :: b) with (x :: (a ++ 44%N :: y :: b)).
  rewrite !truthy_cons.
  change (x :: (a ++ 44%N :: y :: b)) with ((x :: a) ++ 44%N :: y :: b).
  rewrite split_app_sep, map_app, !existsb_app.
  destruct (existsb (str_eqb (js "*")) (map trim (split [44%N] (x :: a)))),
    (existsb (str_eqb etag) (map trim (split [44%N] (x :: a)))),
    (existsb (str_eqb (js "*")) (map trim (split [44%N] (y :: b))));
    reflexivity.
Qed.

Lemma etag_list_matches_witness :
  etagMatches (Some (js "W/x, *")) (js "y") = true.
Proof.
  change (js "W/x, *") with (js "W/x" ++ js "," ++ js " *").
  rewrite etag_list_matches; [reflexivity|discriminate|discriminate].
Defined.

Section Hash.
Variable sha256_hex : jsstring -> jsstring.

Lemma In_slice (c : N) (i j : nat) (s : jsstring) : In c (slice i j s) -> In c s.
Proof.
  unfold slice. intros H.
  assert (Hf : forall n (l : jsstring), In c (firstn n l) -> In c l).
  { induction n as [|n IH]; intros [|x l] Hin; simpl in Hin; try contradiction.
    destruct Hin as [->|Hin]; [now left|right; now apply IH]. }
  assert (Hs : forall n (l : jsstring), In c (skipn n l) -> In c l).
  { induction n as [|n IH]; intros [|x l] Hin; simpl in Hin; try contradiction; auto.
    right. now apply IH. }
  apply Hf in H. now apply Hs in H.
Qed.

Lemma trim_quoted (h : jsstring) : trim ([quote] ++ h ++ [quote]) = [quote] ++ h ++ [quote].
Proof.
  unfold trim. simpl app. rewrite trimStart_id by reflexivity.
  replace (rev (quote :: h ++ [quote])) with (quote :: rev h ++ [quote])
    by (simpl; rewrite rev_app_distr; reflexivity).
  rewrite trimStart_id by reflexivity.
  simpl. rewrite rev_app_distr, rev_involutive. reflexivity.
Qed.

(** A header that is one quoted tag without a comma is compared as it is. *)
Lemma etagMatches_quoted (h etag : jsstring) :
  ~ In 44%N h ->
  etagMatches (Some ([quote] ++ h ++ [quote])) etag
  = str_eqb etag ([quote] ++ h ++ [quote]).
Proof.
  intros Hc. unfold etagMatches.
  assert (Hfree : ~ In 44%N ([quote] ++ h ++ [quote])).
  { intros H. apply in_app_iff in H as [H|H].
    - destruct H as [H|[]]. discriminate.
    - apply in_app_iff in H as [H|H]; [contradiction|].
      destruct H as [H|[]]. discriminate. }
  change (truthy (Some ([quote] ++ h ++ [quote]))) with (Some ([quote] ++ h ++ [quote])).
  cbv beta iota. change (js ",") with [44%N]. rewrite (split_free _ _ Hfree).
  cbn [map]. rewrite trim_quoted. cbn [existsb]. rewrite !orb_false_r.
  change (str_eqb (js "*") ([quote] ++ h ++ [quote])) with false.
  apply orb_false_l.
Qed.

(** X7.  The ETag of a page, sent back as If-None-Match, is matched
    exactly against the ETags whose first 32 digits of the digest are the
    same: the page's own ETag always matches, and the ETag of other
    content matches only when the truncated digests collide.  (The digest
    is written in hexadecimal, so it has no comma.) *)
Theorem generated_etag_revalidates (c1 c2 : jsstring) :
  ~ In 44%N (sha256_hex c1) ->
  (etagMatches (Some (generateEtag sha256_hex c1)) (generateEtag sha256_hex c2) = true
   <-> slice 0 32 (sha256_hex c1) = slice 0 32 (sha256_hex c2)).
Proof.
  intros Hc. unfold generateEtag. cbv zeta.
  rewrite etagMatches_quoted by (intros H; apply Hc; now apply In_slice in H).
  rewrite str_eqb_eq. split.
  - intros E. injection E as E. apply app_inv_tail in E. now symmetry.
  - intros E. now rewrite E.
Qed.

End Hash.

Lemma generated_etag_revalidates_witness :
  etagMatches (Some (generateEtag (fun c => js "ab12" ++ c) (js "7")))
    (generateEtag (fun c => js "ab12" ++ c) (js "7")) = true.
Proof.
  apply (generated_etag_revalidates (fun c => js "ab12" ++ c) (js "7") (js "7")).
  - vm_compute. intuition discriminate.
  - reflexivity.
Defined.

End EtagFacts.

(** * The rate limiters *)

Module RateLimitFacts.
Import JS Proxy RateLimit JSFacts EtagFacts.

(** The calls of one bucket at the times [times], one after the other. *)
Fixpoint serve (key : jsstring) (windowMs maxRequests : Z) (times : list Z)
    (store : Store) : list Limited :=
  match times with
  | [] => []
  | now :: rest =>
      let r := limit key windowMs maxRequests now store in
      r :: serve key windowMs maxRequests rest (store_after r)
  end.

(** What the [n]-th call of a window that ends at [reset] sets and how it
    ends, when it is made at [now]. *)
Definition nth_of_window (maxRequests reset now n : Z) (r : Limited) : Prop :=
  firstn 3 (set_headers r)
  = [(js "X-RateLimit-Limit", int_toString 10 maxRequests);
     (js "X-RateLimit-Remaining", int_toString 10 (Z.max 0 (maxRequests - n)));
     (js "X-RateLimit-Reset", int_toString 10 (ceil_seconds reset))]
  /\ (n <= maxRequests -> outcome r = Next /\ skipn 3 (set_headers r) = [])
  /\ (maxRequests < n ->
      outcome r = TooManyRequests (js "Too many requests. Please try again later.")
      /\ skipn 3 (set_headers r)
         = [(js "Retry-After", int_toString 10 (ceil_seconds (reset - now)))]).

Lemma limit_in_window (key : jsstring) (windowMs maxRequests now : Z) (store : Store)
    (e : RateLimitEntry) :
  store !! key = Some e -> now <= resetAt e ->
  store_after (limit key windowMs maxRequests now store) !! key
  = Some {| count := count e + 1; resetAt := resetAt e |}
  /\ nth_of_window maxRequests (resetAt e) now (count e + 1)
       (limit key windowMs maxRequests now store).
Proof.
  intros He Hnow. unfold limit. rewrite He.
  destruct (Z.ltb_spec (resetAt e) now) as [H|_]; [lia|]. cbv zeta. cbn [count resetAt].
  destruct (Z.gtb_spec (count e + 1) maxRequests) as [Hover|Hfit]; cbn [store_after];
    (split; [apply lookup_insert_eq|]); unfold nth_of_window;
    cbn [set_headers outcome]; (split; [reflexivity|]); split; intros H; try lia;
    split; reflexivity.
Qed.

Lemma limit_new_window (key : jsstring) (windowMs maxRequests now : Z) (store : Store) :
  match store !! key with Some e => resetAt e < now | None => True end ->
  store_after (limit key windowMs maxRequests now store) !! key
  = Some {| count := 1; resetAt := now + windowMs |}
  /\ nth_of_window maxRequests (now + windowMs) now 1
       (limit key windowMs maxRequests now store).
Proof.
  intros He. unfold limit.
  assert (E : match store !! key with
              | Some entry =>
                  if resetAt entry <? now
                  then {| count := 1; resetAt := now + windowMs |}
                  else {| count := count entry + 1; resetAt := resetAt entry |}
              | None => {| count := 1; resetAt := now + windowMs |}
              end = {| count := 1; resetAt := now + windowMs |}).
  { destruct (store !! key) as [e|]; [|reflexivity].
    destruct (Z.ltb_spec (resetAt e) now); [reflexivity|lia]. }
  rewrite E. cbv zeta. cbn [count resetAt].
  destruct (Z.gtb_spec 1 maxRequests) as [Hover|Hfit]; cbn [store_after];
    (split; [apply lookup_insert_eq|]); unfold nth_of_window;
    cbn [set_headers outcome]; (split; [reflexivity|]); split; intros H; try lia;
    split; reflexivity.
Qed.

Lemma serve_in_window (key : jsstring) (windowMs maxRequests reset : Z) :
  forall times store k,
    store !! key = Some {| count := k; resetAt := reset |} ->
    Forall (fun t => t <= reset) times ->
    forall i now r,
      nth_error times i = Some now ->
      nth_error (serve key windowMs maxRequests times store) i = Some r ->
      store_after r !! key = Some {| count := k + Z.of_nat i + 1; resetAt := reset |}
      /\ nth_of_window maxRequests reset now (k + Z.of_nat i + 1) r.
Proof.
  induction times as [|t times IH]; intros store k He Hall i now r Hi Hr.
  - destruct i; discriminate.
  - apply Forall_cons_iff in Hall as [Ht Hall].
    destruct (limit_in_window key windowMs maxRequests t store _ He Ht) as [Hs Hn].
    cbn [count resetAt] in Hs, Hn.
    destruct i as [|i]; simpl in Hi, Hr.
    + injection Hi as <-. injection Hr as <-.
      rewrite Z.add_0_r. auto.
    + destruct (IH _ _ Hs Hall i now r Hi Hr) as [Hs' Hn'].
      replace (k + Z.of_nat (S i) + 1) with (k + 1 + Z.of_nat i + 1) by lia. auto.
Qed.

(** X8.  The limiter counts in fixed windows.  When a bucket has no
    entry, or its window has ended, a call at [t1] opens a window that ends
    at [t1 + windowMs]; of the calls of that bucket up to that time, the
    [n]-th passes on exactly when [n <= maxRequests], whatever the spacing
    of the calls; each sets the limit, the calls left (never below 0) and
    the end of the window in seconds, and a refused one is answered 429 with
    Retry-After, the seconds to the end of the window rounded up.  Refused
    calls count too, and the end of the window does not move. *)
Theorem fixed_window_budget (key : jsstring) (windowMs maxRequests t1 : Z)
    (times : list Z) (store : Store) :
  match store !! key with Some e => resetAt e < t1 | None => True end ->
  Forall (fun t => t <= t1 + windowMs) times ->
  0 <= windowMs ->
  forall i now r,
    nth_error (t1 :: times) i = Some now ->
    nth_error (serve key windowMs maxRequests (t1 :: times) store) i = Some r ->
    store_after r !! key
    = Some {| count := Z.of_nat i + 1; resetAt := t1 + windowMs |}
    /\ nth_of_window maxRequests (t1 + windowMs) now (Z.of_nat i + 1) r
    /\ (outcome r = Next <-> Z.of_nat i + 1 <= maxRequests).
Proof.
  intros He Hall Hw i now r Hi Hr.
  destruct (limit_new_window key windowMs maxRequests t1 store He) as [Hs Hn].
  assert (H : store_after r !! key
              = Some {| count := Z.of_nat i + 1; resetAt := t1 + windowMs |}
              /\ nth_of_window maxRequests (t1 + windowMs) now (Z.of_nat i + 1) r).
  { destruct i as [|i]; simpl in Hi, Hr.
    - injection Hi as <-. injection Hr as <-. auto.
    - destruct (serve_in_window key windowMs maxRequests (t1 + windowMs) times _ 1
                  Hs Hall i now r Hi Hr) as [Hs' Hn'].
      replace (Z.of_nat (S i) + 1) with (1 + Z.of_nat i + 1) by lia. auto. }
  destruct H as [H1 H2]. split; [exact H1|]. split; [exact H2|].
  destruct H2 as (_ & Hpass & Hrefuse). split.
  - intros Ho. destruct (Z.le_gt_cases (Z.of_nat i + 1) maxRequests) as [|Hgt]; [assumption|].
    destruct (Hrefuse ltac:(lia)) as [Ho' _]. congruence.
  - intros Hle. now apply Hpass.
Qed.

Lemma fixed_window_budget_witness :
  exists r,
    nth_error (serve (js "proxy:198.51.100.7") 60000 2 [1000; 1001; 61000] ∅) 2 = Some r
    /\ outcome r = TooManyRequests (js "Too many requests. Please try again later.")
    /\ store_after r !! js "proxy:198.51.100.7"
       = Some {| count := 3; resetAt := 61000 |}.
Proof.
  eexists. split; [reflexivity|].
  destruct (fixed_window_budget (js "proxy:198.51.100.7") 60000 2 1000
              [1001; 61000] ∅ ltac:(vm_compute; exact I)
              ltac:(repeat constructor; lia) ltac:(lia)
              2%nat 61000 _ eq_refl eq_refl) as (Hs & (_ & _ & Hrefused) & _).
  split; [|exact Hs].
  apply Hrefused. lia.
Defined.

Lemma cleanup_lookup (now : Z) (store : Store) (key : jsstring) :
  cleanup now store !! key
  = match store !! key with
    | Some e => if resetAt e <? now then None else Some e
    | None => None
    end.
Proof.
  unfold cleanup. destruct (store !! key) as [e|] eqn:E.
  - destruct (Z.ltb_spec (resetAt e) now) as [H|H].
    + apply map_lookup_filter_None. right. intros x Hx. rewrite E in Hx.
      injection Hx as <-. simpl. lia.
    + apply map_lookup_filter_Some. split; [assumption|]. simpl. lia.
  - apply map_lookup_filter_None. now left.
Qed.

(** The entry that a call of the bucket finds decides all of it. *)
Lemma limit_local (key : jsstring) (windowMs maxRequests now : Z) (s1 s2 : Store) :
  (s1 !! key = s2 !! key
   \/ (exists e, s1 !! key = Some e /\ resetAt e < now /\ s2 !! key = None)) ->
  set_headers (limit key windowMs maxRequests now s1)
  = set_headers (limit key windowMs maxRequests now s2)
  /\ outcome (limit key windowMs maxRequests now s1)
     = outcome (limit key windowMs maxRequests now s2)
  /\ store_after (limit key windowMs maxRequests now s1) !! key
     = store_after (limit key windowMs maxRequests now s2) !! key.
Proof.
  intros H. unfold limit.
  assert (E : match s1 !! key with
              | Some entry =>
                  if resetAt entry <? now
                  then {| count := 1; resetAt := now + windowMs |}
                  else {| count := count entry + 1; resetAt := resetAt entry |}
              | None => {| count := 1; resetAt := now + windowMs |}
              end
              = match s2 !! key with
                | Some entry =>
                    if resetAt entry <? now
                    then {| count := 1; resetAt := now + windowMs |}
                    else {| count := count entry + 1; resetAt := resetAt entry |}
                | None => {| count := 1; resetAt := now + windowMs |}
                end).
  { destruct H as [->|(e & -> & He & ->)]; [reflexivity|].
    destruct (Z.ltb_spec (resetAt e) now); [reflexivity|lia]. }
  rewrite E. cbv zeta.
  match goal with |- context [if ?c then _ else _] => destruct c end;
    cbn [set_headers outcome store_after]; rewrite !lookup_insert_eq; auto.
Qed.

(** X9.  A call reads and writes the entry of its own bucket only: the
    entries of other buckets are left as they are; and the periodic
    clean-up, which deletes the entries whose window has ended, changes
    nothing of what a later call of any bucket sets, answers or stores for
    its bucket. *)
Theorem cleanup_is_invisible (key : jsstring) (windowMs maxRequests now cleaned : Z)
    (store : Store) :
  cleaned <= now ->
  (forall other, other <> key ->
     store_after (limit key windowMs maxRequests now store) !! other = store !! other)
  /\ set_headers (limit key windowMs maxRequests now (cleanup cleaned store))
     = set_headers (limit key windowMs maxRequests now store)
  /\ outcome (limit key windowMs maxRequests now (cleanup cleaned store))
     = outcome (limit key windowMs maxRequests now store)
  /\ store_after (limit key windowMs maxRequests now (cleanup cleaned store)) !! key
     = store_after (limit key windowMs maxRequests now store) !! key.
Proof.
  intros Hc. split.
  - intros other Hne. unfold limit. cbv zeta.
    match goal with |- context [if ?c then _ else _] => destruct c end;
      cbn [store_after]; now apply lookup_insert_ne.
  - assert (H : store !! key = cleanup cleaned store !! key
                \/ exists e, store !! key = Some e /\ resetAt e < now
                             /\ cleanup cleaned store !! key = None).
    { rewrite cleanup_lookup. destruct (store !! key) as [e|]; [|now left].
      destruct (Z.ltb_spec (resetAt e) cleaned); [|now left].
      right. exists e. repeat split; auto. lia. }
    destruct (limit_local key windowMs maxRequests now _ _ H) as (H1 & H2 & H3).
    auto.
Qed.

Lemma cleanup_is_invisible_witness :
  outcome (limit (js "203.0.113.9") 60000 1 2500
             (cleanup 2000 {[ js "203.0.113.9" := {| count := 1; resetAt := 1500 |} ]}))
  = outcome (limit (js "203.0.113.9") 60000 1 2500
               {[ js "203.0.113.9" := {| count := 1; resetAt := 1500 |} ]}).
Proof.
  apply (cleanup_is_invisible (js "203.0.113.9") 60000 1 2500 2000). lia.
Defined.

(** X10.  The bucket of a client.  Of X-Forwarded-For only what comes
    before the first comma counts, without the white space around it;
    without that header the bucket is X-Real-IP as it is; without either,
    every client falls into the one bucket "unknown". *)
Theorem client_bucket (header : Headers) :
  (forall first rest,
      header (js "x-forwarded-for") = Some (first ++ js "," ++ rest) ->
      ~ In 44%N first -> getClientIp header = trim first)
  /\ (forall only,
        header (js "x-forwarded-for") = Some only -> only <> [] ->
        ~ In 44%N only -> getClientIp header = trim only)
  /\ (forall realIp,
        truthy (header (js "x-forwarded-for")) = None ->
        header (js "x-real-ip") = Some realIp -> realIp <> [] ->
        getClientIp header = realIp)
  /\ (truthy (header (js "x-forwarded-for")) = None ->
      truthy (header (js "x-real-ip")) = None ->
      getClientIp header = js "unknown").
Proof.
  unfold getClientIp. change (js ",") with [44%N]. repeat split.
  - intros first rest -> Hc.
    assert (E : truthy (Some (first ++ [44%N] ++ rest)) = Some (first ++ [44%N] ++ rest))
      by (destruct first; reflexivity).
    rewrite E. change (first ++ [44%N] ++ rest) with (first ++ 44%N :: rest).
    now rewrite split_app.
  - intros only -> Hne Hc. destruct only as [|x only]; [contradiction|].
    rewrite truthy_cons. now rewrite split_free.
  - intros realIp -> -> Hne. destruct realIp; [contradiction|reflexivity].
  - intros -> ->. reflexivity.
Qed.

End RateLimitFacts.

(** * The relay: what every call comes to *)

Module RelayFacts.
Import JS Eff Ssrf Proxy JSFacts ResolverFacts ProxyFacts.

Section Relay.
Context {U : Unicode} {World Json : Type} (P : Platform World Json) (config : Config).

Local Abbreviation maxRedirects := (proxyMaxRedirects config).

(** The statuses of the replies the loop makes itself. *)
Definition loop_reply (exit : result (LoopExit Json)) : Prop :=
  match exit with
  | Ret (Replied r) => reply_status r = 400 \/ reply_status r = 502
  | _ => True
  end.

Lemma redirect_loop_replies (proxyReq : ProxyRequest Json) :
  forall fuel currentUrl k response0 s,
    (Z.to_nat (maxRedirects + 1 - k) <= fuel)%nat ->
    exists exit s',
      redirect_loop P config proxyReq fuel currentUrl k response0 s = Some (exit, s')
      /\ loop_reply exit.
Proof.
  induction fuel as [|fuel IH]; intros currentUrl k response0 s Hfuel.
  - simpl. destruct (Z.leb_spec k maxRedirects); [lia|].
    eexists _, _. split; [reflexivity|exact I].
  - destruct (Z.le_gt_cases k maxRedirects) as [Hk|Hk].
    2:{ simpl. destruct (Z.leb_spec k maxRedirects); [lia|].
        eexists _, _. split; [reflexivity|exact I]. }
    rewrite (redirect_loop_step P config) by assumption. cbv zeta.
    destruct (fetch P currentUrl _ (world s)) as [[response|e] w1];
      [|eexists _, _; split; [reflexivity|exact I]].
    destruct (is_redirect (status response));
      [|eexists _, _; split; [reflexivity|exact I]].
    destruct (truthy _) as [location|]; [|eexists _, _; split; [reflexivity|exact I]].
    destruct (resolveURL P location currentUrl) as [target|e];
      [|eexists _, _; split; [reflexivity|exact I]].
    destruct (resolveAndValidate_total P target (fetched s currentUrl
                (fetchOptions P proxyReq k) w1)) as (rv & s2 & evs & -> & _).
    destruct rv as [res|err]; [|eexists _, _; split; [reflexivity|now left]].
    destruct (allowlist_pure P config target) as (ra & ->).
    destruct ra as [[|]|e]; try (eexists _, _; split; [reflexivity|simpl; auto]).
    destruct (k + 1 >? maxRedirects);
      [eexists _, _; split; [reflexivity|now right]|].
    apply IH. lia.
Qed.

(** X11.  A call whose target URL parses (or which has no allowlist to
    check it against) is always answered, and with one of four statuses:
    200 with the relayed response, 400 for a target or a redirect target
    that is refused, 504 for a time-out, 502 for every other failure.  No
    error of the network, of a redirect or of the body escapes the
    handler. *)
Theorem every_call_is_answered (proxyReq : ProxyRequest Json) (s : St World) :
  proxyAllowedDomains config = [] \/ parseURL P (url proxyReq) <> None ->
  exists reply s',
    handler P config proxyReq s = Some (Ret reply, s')
    /\ (reply_status reply = 200 \/ reply_status reply = 400
        \/ reply_status reply = 502 \/ reply_status reply = 504).
Proof.
  intros Hparse. unfold handler.
  assert (Ha : exists b, forall st, allowlist_check P config (url proxyReq) st
                                    = Some (Ret b, st)).
  { unfold allowlist_check. destruct (proxyAllowedDomains config) as [|d ds].
    - exists true. reflexivity.
    - destruct Hparse as [H|H]; [discriminate|].
      destruct (parseURL P (url proxyReq)); [|contradiction]. eexists. reflexivity. }
  destruct Ha as (b & Ha).
  unfold mbind at 1. unfold M_bind, bindM. rewrite Ha.
  destruct b; [|eexists _, _; split; [reflexivity|simpl; auto]].
  change (negb true) with false. cbv beta iota.
  destruct (resolveAndValidate_total P (url proxyReq) s) as (rv & s2 & evs2 & E & _).
  unfold mbind at 1. unfold M_bind, bindM. rewrite (attempt_eval _ _ _ _ E).
  destruct rv as [res|err]; [|eexists _, _; split; [reflexivity|simpl; auto]].
  destruct (redirect_loop_replies proxyReq (Z.to_nat (maxRedirects + 1)) (url proxyReq) 0
              None s2) as (exit & s3 & E3 & Hexit); [lia|].
  unfold mbind at 1. unfold M_bind, bindM, try_catch. rewrite E3.
  destruct exit as [[[response|]|reply]|err].
  - destruct (finish_total P config response s3) as (r4 & s4 & evs4 & E4 & _).
    exists r4, s4. split; [exact E4|].
    unfold finish in E4. cbv zeta in E4.
    destruct (match truthy _ with Some _ => _ | None => false end) in E4.
    { injection E4 as <- _. simpl. auto. }
    destruct (body response) as [reader|]; [|injection E4 as <- _; simpl; auto].
    unfold mbind, M_bind, bindM in E4.
    destruct (attempt _ s3) as [[[[[kept|kept]|e]|e'] s5]|]; try discriminate;
      injection E4 as <- _; simpl; auto.
  - eexists _, _. split; [reflexivity|simpl; auto].
  - eexists _, _. split; [reflexivity|]. simpl in Hexit. tauto.
  - destruct err; eexists _, _; (split; [reflexivity|simpl; auto]).
Qed.

(** What the call comes to when the loop, at a turn that redirects have
    led to, ends in [out] whatever fuel is left. *)
Lemma handler_at_turn (proxyReq : ProxyRequest Json) (s : St World) (t0 t : Turn)
    (out : option (result (LoopExit Json) * St World)) :
  first_turn P config proxyReq s t0 -> reaches P config proxyReq t0 t ->
  t_count t <= maxRedirects ->
  (forall fuel, run_loop P config proxyReq (S fuel) t = out) ->
  handler P config proxyReq s =
  match out with
  | None => None
  | Some (Ret (Replied r), s3) => Some (Ret r, s3)
  | Some (Ret (Final None), s3) => Some (Ret (json_error (js "No response received") 502), s3)
  | Some (Ret (Final (Some response)), s3) => finish P config response s3
  | Some (Throw (AbortError _), s3) => Some (Ret (json_error (js "Request timed out") 504), s3)
  | Some (Throw err, s3) => Some (Ret (json_error (message err) 502), s3)
  end.
Proof.
  intros Hfirst Hreach Hk Hrun.
  rewrite (handler_loop P config _ _ _ Hfirst).
  destruct (loop_reaches P config _ _ _ Hreach (Z.to_nat (maxRedirects + 1)))
    as (fuel' & Hf & ->).
  { destruct Hfirst as (_ & _ & _ & -> & _). lia. }
  destruct fuel' as [|fuel']; [lia|]. now rewrite Hrun.
Qed.

(** The state after the fetch of turn [t] that left the world [w1]. *)
Definition after_fetch (proxyReq : ProxyRequest Json) (t : Turn) (w1 : World) : St World :=
  fetched (t_state t) (t_url t) (fetchOptions P proxyReq (t_count t)) w1.

(** X12.  At the target and at every redirect target that is followed:
    when the fetch fails by the time-out the call is answered 504 "Request
    timed out"; when it fails otherwise, 502 with the error's message; and
    when it is answered by a response that is no redirect, or by a redirect
    without a Location, that response is the final one, whatever its status:
    the call is answered from it by steps 9 to 11. *)
Theorem outcome_at_a_hop (proxyReq : ProxyRequest Json) (s : St World) (t0 t : Turn) :
  first_turn P config proxyReq s t0 -> reaches P config proxyReq t0 t ->
  t_count t <= maxRedirects ->
  (forall e w1,
      fetch P (t_url t) (fetchOptions P proxyReq (t_count t)) (world (t_state t))
      = (Throw e, w1) ->
      handler P config proxyReq s
      = Some (Ret (match e with
                   | AbortError _ => json_error (js "Request timed out") 504
                   | _ => json_error (message e) 502
                   end), after_fetch proxyReq t w1))
  /\ (forall response w1,
        fetch P (t_url t) (fetchOptions P proxyReq (t_count t)) (world (t_state t))
        = (Ret response, w1) ->
        is_redirect (status response) = false
        \/ truthy (headers_get (js "location") (headers response)) = None ->
        handler P config proxyReq s
        = finish P config response (after_fetch proxyReq t w1)).
Proof.
  intros Hfirst Hreach Hk. split.
  - intros e w1 Hf.
    rewrite (handler_at_turn proxyReq s t0 t
               (Some (Throw e, after_fetch proxyReq t w1)) Hfirst Hreach Hk).
    + now destruct e.
    + intros fuel. unfold run_loop. rewrite (redirect_loop_step P config) by assumption.
      cbv zeta. now rewrite Hf.
  - intros response w1 Hf Hfinal.
    rewrite (handler_at_turn proxyReq s t0 t
               (Some (Ret (Final (Some response)), after_fetch proxyReq t w1))
               Hfirst Hreach Hk); [reflexivity|].
    intros fuel. unfold run_loop. rewrite (redirect_loop_step P config) by assumption.
    cbv zeta. rewrite Hf.
    destruct (is_redirect (status response)); [|reflexivity].
    destruct Hfinal as [Hfinal| ->]; [discriminate|reflexivity].
Qed.

(** X13.  A target that is refused is never fetched.  A target whose
    host is not on a non-empty allowlist is answered 400 "Target domain is
    not in the allowlist" before any lookup; a target that resolveAndValidate
    refuses is answered 400 with the message of the refusal, after its
    lookups and without a fetch; so a target whose name resolves to a
    private address is answered 400 with the private/internal-IP message,
    after the one lookup. *)
Theorem refused_target_is_not_fetched (proxyReq : ProxyRequest Json) (s : St World) :
  (forall tu,
      proxyAllowedDomains config <> [] ->
      parseURL P (url proxyReq) = Some tu ->
      ~ on_allowlist config (hostname tu) ->
      handler P config proxyReq s
      = Some (Ret (json_error (js "Target domain is not in the allowlist") 400), s))
  /\ (forall err s2,
        permitted P config (url proxyReq) ->
        resolveAndValidate P (url proxyReq) s = Some (Throw err, s2) ->
        handler P config proxyReq s = Some (Ret (json_error (message err) 400), s2)
        /\ exists evs, trace s2 = trace s ++ evs /\ fetches evs = [])
  /\ (forall tu ip rest w1,
        permitted P config (url proxyReq) ->
        parseURL P (url proxyReq) = Some tu ->
        protocol tu = js "http:" \/ protocol tu = js "https:" ->
        ~ In (toLowerCase (hostname tu)) BLOCKED_HOSTNAMES ->
        named (hostname tu) ->
        resolve4 P (hostname tu) (world s) = (Ret (ip :: rest), w1) ->
        isPrivateIP ip = Ret true ->
        handler P config proxyReq s
        = Some (Ret (json_error msg_private 400),
                {| world := w1; trace := trace s ++ [EvResolve4 (hostname tu)] |})).
Proof.
  assert (Hrefused : forall err s2,
             permitted P config (url proxyReq) ->
             resolveAndValidate P (url proxyReq) s = Some (Throw err, s2) ->
             handler P config proxyReq s = Some (Ret (json_error (message err) 400), s2)).
  { intros err s2 Ha Hv. apply permitted_allowed in Ha.
    unfold handler. unfold mbind at 1. unfold M_bind, bindM. rewrite Ha.
    change (negb true) with false. cbv beta iota.
    unfold mbind at 1. unfold M_bind, bindM.
    now rewrite (attempt_eval _ _ _ _ Hv). }
  split; [|split].
  - intros tu Hne Hu Ho. unfold handler. unfold mbind at 1. unfold M_bind, bindM.
    now rewrite (off_allowlist P config _ _ _ Hne Hu Ho).
  - intros err s2 Ha Hv. split; [now apply Hrefused|].
    destruct (resolveAndValidate_total P (url proxyReq) s) as (rv & s2' & evs & E & Ht & Hl).
    rewrite E in Hv. injection Hv as _ <-.
    exists evs. split; [exact Ht|]. now apply fetches_lookups.
  - intros tu ip rest w1 Ha Hu Hp Hb Hn Hl Hpriv.
    apply (Hrefused (Error msg_private)); [assumption|].
    now apply (private_name_rejected P _ tu s ip rest w1).
Qed.

(** X14.  Every fetch of a call, the first and those of the redirects
    alike, is sent with the same headers, those built from the request; so
    the credentials of the request go to every redirect target that is
    followed: "Authorization: Bearer ..." or "Basic ..." for these two kinds
    of auth, and for an API key the header of the given name (X-API-Key when
    none is given). *)
Theorem credentials_go_to_every_hop (proxyReq : ProxyRequest Json) (s : St World) :
  exists r s' evs,
    handler P config proxyReq s = Some (r, s')
    /\ trace s' = trace s ++ evs
    /\ forall w u opts,
         In (EvFetch w u opts) evs ->
         fo_headers opts = outgoingHeaders proxyReq
         /\ forall a,
              auth proxyReq = Some a ->
              match auth_type a with
              | bearer =>
                  fo_headers opts !! js "Authorization"
                  = Some (js "Bearer " ++ credentials a)
              | basic =>
                  fo_headers opts !! js "Authorization"
                  = Some (js "Basic " ++ credentials a)
              | api_key =>
                  let name := default (js "X-API-Key") (truthy (headerName a)) in
                  name <> js "__proto__" ->
                  fo_headers opts !! name = Some (credentials a)
              end.
Proof.
  destruct (handler_trace P config proxyReq s) as (r & s' & evs & E & Ht & Hh).
  exists r, s', evs. split; [exact E|]. split; [exact Ht|].
  intros w u opts Hin. apply In_fetches in Hin.
  apply In_nth_error in Hin as (i & Hi).
  destruct (hops_nth P config _ _ _ _ _ _ _ Hh Hi) as [-> _].
  split; [reflexivity|].
  intros a Ha. unfold fetchOptions. cbn [fo_headers]. unfold outgoingHeaders.
  rewrite Ha. cbv zeta.
  destruct (auth_type a).
  - unfold obj_set at 1. change (str_eqb (js "Authorization") (js "__proto__")) with false.
    cbv iota. apply lookup_insert_eq.
  - unfold obj_set at 1. change (str_eqb (js "Authorization") (js "__proto__")) with false.
    cbv iota. apply lookup_insert_eq.
  - intros Hname. unfold obj_set at 1. rewrite (str_eqb_neq _ _ Hname).
    apply lookup_insert_eq.
Qed.

End Relay.

Import Toy.

Lemma every_call_is_answered_witness :
  exists reply s',
    handler (toy 1 (js "8.8.8.8") (ok_response [] [])) (cfg 3 100)
      (get (js "example.com")) start = Some (Ret reply, s')
    /\ (reply_status reply = 200 \/ reply_status reply = 400
        \/ reply_status reply = 502 \/ reply_status reply = 504).
Proof.
  apply (every_call_is_answered (toy 1 (js "8.8.8.8") (ok_response [] [])) (cfg 3 100)
           (get (js "example.com")) start).
  left. reflexivity.
Defined.

Lemma refused_target_is_not_fetched_witness :
  handler (toy 0 [] (ok_response [] [])) (cfg_only [js "example.com"] 3 100)
    (get (js "example.org")) start
  = Some (Ret (json_error (js "Target domain is not in the allowlist") 400), start).
Proof.
  apply (proj1 (refused_target_is_not_fetched (toy 0 [] (ok_response [] []))
                  (cfg_only [js "example.com"] 3 100) (get (js "example.org")) start)
           {| protocol := js "http:"; hostname := js "example.org" |}).
  - discriminate.
  - reflexivity.
  - intros (domain & Hin & H). destruct Hin as [ <- | [] ].
    vm_compute in H. destruct H as [H|(sub & H)]; [discriminate|].
    apply (f_equal (@List.length N)) in H. rewrite length_app in H. simpl in H. lia.
Defined.

Lemma outcome_at_a_hop_witness :
  handler (toy 0 [] (ok_response [] [js "hi"])) (cfg 3 100) (post (js "example.com")) start
  = finish (toy 0 [] (ok_response [] [js "hi"])) (cfg 3 100) (ok_response [] [js "hi"])
      (after_fetch (toy 0 [] (ok_response [] [js "hi"])) (post (js "example.com")) turn0 1%nat).
Proof.
  apply (proj2 (outcome_at_a_hop (toy 0 [] (ok_response [] [js "hi"])) (cfg 3 100)
                  (post (js "example.com")) start turn0 turn0
                  ltac:(apply first_turn0; reflexivity)
                  ltac:(apply reaches_here)
                  ltac:(simpl; lia))).
  - reflexivity.
  - left. reflexivity.
Defined.

End RelayFacts.

(** * Pages: validation, the store and the routes *)

Module PagesFacts.
Import JS Eff Proxy Etag Validation Db Routes JSFacts EtagFacts.

(** ** The size of a payload *)

Lemma byteLength_utf8_bounds (s : jsstring) :
  (List.length s <= byteLength_utf8 s <= 3 * List.length s)%nat.
Proof.
  assert (H : forall n (t : jsstring), (List.length t <= n)%nat ->
                (List.length t <= byteLength_utf8 t <= 3 * List.length t)%nat).
  { induction n as [|n IH]; intros t Hn.
    - destruct t; simpl in *; lia.
    - destruct t as [|c t]; [simpl; lia|].
      simpl in Hn. pose proof (IH t ltac:(lia)) as Ht.
      cbn [byteLength_utf8]. cbn [List.length].
      destruct (N.ltb c 128); [lia|].
      destruct (N.ltb c 2048); [lia|].
      destruct (is_lead c); [|lia].
      destruct t as [|d t]; [simpl; lia|].
      destruct (is_trail d); [|lia].
      simpl in Hn. pose proof (IH t ltac:(lia)) as Ht'.
      cbn [List.length]. lia. }
  apply (H (List.length s)). lia.
Qed.

Lemma byteLength_utf8_ascii (s : jsstring) :
  Forall (fun c => (c < 128)%N) s -> byteLength_utf8 s = List.length s.
Proof.
  induction 1 as [|c s Hc _ IH]; [reflexivity|].
  cbn [byteLength_utf8 List.length]. destruct (N.ltb_spec c 128); [|lia].
  now rewrite IH.
Qed.

(** A body that passes every check but that of the size: an object whose
    [html] is the non-empty string [html], whose [encoding] is missing or
    "utf-8", and whose [content_type] and [title] are strings or missing. *)
Definition plain_body (body : json) (html : jsstring) : Prop :=
  (exists props, body = JObject props)
  /\ get body (js "html") = Some (JString html) /\ html <> []
  /\ (get body (js "encoding") = None \/ get body (js "encoding") = Some (JString (js "utf-8")))
  /\ (get body (js "content_type") = None
      \/ exists s, get body (js "content_type") = Some (JString s))
  /\ (get body (js "title") = None \/ exists s, get body (js "title") = Some (JString s)).

Section Buffer.
Variable from_base64 : jsstring -> list N.

Lemma plain_body_size (maxPayloadSize : Z) (body : json) (html : jsstring) :
  plain_body body html ->
  validatePageBody from_base64 maxPayloadSize body
  = if Z.of_nat (byteLength_utf8 html) >? maxPayloadSize
    then Some {| field := js "html";
                 message := js "HTML content exceeds maximum size of "
                            ++ int_toString 10 maxPayloadSize ++ js " bytes" |}
    else None.
Proof.
  intros ((props & ->) & Hh & Hne & He & Hc & Ht).
  unfold validatePageBody. cbn [falsy typeof_object negb orb]. cbv zeta.
  rewrite Hh. destruct html as [|x html]; [contradiction|].
  destruct He as [He|He]; rewrite He;
    destruct Hc as [Hc|(c & Hc)]; rewrite Hc;
    destruct Ht as [Ht|(t & Ht)]; rewrite Ht; reflexivity.
Qed.

(** X16.  The size limit counts the bytes of the UTF-8 encoding, not the
    characters.  A body that is otherwise in order is accepted exactly when
    its [html] has at most [maxPayloadSize] bytes: so always when three times
    its length fits, never when its length alone exceeds the limit, and for
    ASCII text exactly when its length fits. *)
Theorem payload_limit_is_in_bytes (maxPayloadSize : Z) (body : json) (html : jsstring) :
  plain_body body html ->
  (validatePageBody from_base64 maxPayloadSize body = None
   <-> Z.of_nat (byteLength_utf8 html) <= maxPayloadSize)
  /\ (3 * Z.of_nat (List.length html) <= maxPayloadSize ->
      validatePageBody from_base64 maxPayloadSize body = None)
  /\ (maxPayloadSize < Z.of_nat (List.length html) ->
      exists e, validatePageBody from_base64 maxPayloadSize body = Some e
                /\ field e = js "html")
  /\ (Forall (fun c => (c < 128)%N) html ->
      (validatePageBody from_base64 maxPayloadSize body = None
       <-> Z.of_nat (List.length html) <= maxPayloadSize)).
Proof.
  intros Hb. rewrite (plain_body_size maxPayloadSize body html Hb).
  pose proof (byteLength_utf8_bounds html) as Hbd.
  destruct (Z.gtb_spec (Z.of_nat (byteLength_utf8 html)) maxPayloadSize) as [Hover|Hfit].
  - split; [split; [discriminate|lia]|]. split; [lia|].
    split; [intros _; eexists; split; reflexivity|].
    intros Ha. rewrite (byteLength_utf8_ascii html Ha) in Hover.
    split; [discriminate|lia].
  - split; [split; [lia|reflexivity]|]. split; [reflexivity|].
    split; [lia|]. intros Ha. rewrite (byteLength_utf8_ascii html Ha) in Hfit.
    split; [lia|reflexivity].
Qed.

End Buffer.

Lemma payload_limit_is_in_bytes_witness :
  validatePageBody (fun _ => []) 4
    (JObject [(js "html", JString [233%N; 233%N; 233%N])]) <> None
  /\ validatePageBody (fun _ => []) 9
       (JObject [(js "html", JString [233%N; 233%N; 233%N])]) = None.
Proof.
  assert (Hb : plain_body (JObject [(js "html", JString [233%N; 233%N; 233%N])])
                 [233%N; 233%N; 233%N]).
  { split; [eexists; reflexivity|]. split; [reflexivity|]. split; [discriminate|].
    split; [now left|]. split; now left. }
  split.
  - intros E. apply (proj1 (payload_limit_is_in_bytes (fun _ => []) 4 _ _ Hb)) in E.
    vm_compute in E. apply E. reflexivity.
  - apply (proj1 (proj2 (payload_limit_is_in_bytes (fun _ => []) 9 _ _ Hb))).
    simpl. lia.
Defined.

(** ** The routes *)

Section Routes.
Variable maxIdLength maxPayloadSize : Z.
Variable baseUrl : jsstring.
Variable sha256_hex : jsstring -> jsstring.
Variable from_base64 : jsstring -> list N.
Variable toString_utf8 : list N -> jsstring.

Local Abbreviation create_page :=
  (Routes.create_page maxIdLength maxPayloadSize baseUrl sha256_hex from_base64 toString_utf8).
Local Abbreviation render_page := (Routes.render_page maxIdLength).
Local Abbreviation render_raw := (Routes.render_raw maxIdLength).

Lemma validatePageBody_html (body : json) :
  validatePageBody from_base64 maxPayloadSize body = None ->
  exists h, get body (js "html") = Some (JString h) /\ h <> [].
Proof.
  unfold validatePageBody.
  destruct (falsy body || negb (typeof_object body)); [discriminate|].
  destruct (get body (js "html")) as [[| | |[|x h]| |]|]; try discriminate.
  intros _. eexists. split; [reflexivity|discriminate].
Qed.

(** The text that is stored for a body, and the page made of it. *)
Definition decoded (body : json) : jsstring :=
  decodeHtml from_base64 toString_utf8
    (default [] (string_of (get body (js "html")))) (get body (js "encoding")).

Definition stored (key : jsstring) (body : json) (now : jsstring) : Page :=
  {| id := key;
     html := decoded body;
     encoding := js "utf-8";
     content_type :=
       default (js "text/html; charset=utf-8")
         (truthy (string_of (get body (js "content_type"))));
     title := string_of (get body (js "title"));
     etag := generateEtag sha256_hex (decoded body);
     created_at := now;
     updated_at := now |}.

Definition created_answer (key : jsstring) (tag : jsstring) : Served :=
  {| answer :=
       json_answer 201
         [(js "id", key);
          (js "url", baseUrl ++ js "/p/" ++ key);
          (js "raw_url", baseUrl ++ js "/p/" ++ key ++ js "/raw");
          (js "etag", tag)];
     headers_set := [(js "ETag", tag)] |}.

(** The ways a call of [create_page] ends. *)
Lemma create_page_outcome (key : jsstring) (body : option json) (now : jsstring)
    (db : option Database) :
  (exists status error,
      (status = 400 \/ status = 409)
      /\ create_page key body now db = (Ret (error_answer status error), db))
  \/ (exists e, create_page key body now db = (Throw e, db) /\ db = None)
  \/ (exists b store,
        body = Some b /\ validateId maxIdLength key = None
        /\ validatePageBody from_base64 maxPayloadSize b = None
        /\ db = Some store /\ store !! key = None
        /\ create_page key body now db
           = (Ret (created_answer key (generateEtag sha256_hex (decoded b))),
              Some (<[key := stored key b now]> store))).
Proof.
  unfold Routes.create_page.
  destruct (validateId maxIdLength key) as [e|] eqn:Hid.
  { left. eexists _, _. split; [now left|reflexivity]. }
  destruct body as [b|].
  2:{ left. eexists _, _. split; [now left|reflexivity]. }
  destruct (validatePageBody from_base64 maxPayloadSize b) as [e|] eqn:Hb.
  { left. eexists _, _. split; [now left|reflexivity]. }
  destruct db as [store|].
  2:{ right; left. eexists. split; reflexivity. }
  unfold getPage. simpl. destruct (store !! key) as [existing|] eqn:Hk.
  { left. eexists _, _. split; [now right|reflexivity]. }
  right; right. exists b, store. repeat split; assumption.
Qed.

(** X18.  A page that is published can be viewed.  When [create_page]
    answers 201 for an id, the reply and its ETag header carry the ETag of
    the text stored (the [html] of the body, decoded when it is base64); the
    render route then serves that text with status 200, the same ETag and
    every security header, the raw route serves it too, and a request that
    sends the ETag back as If-None-Match is answered 304 (the digest being
    hexadecimal, without a comma).  Calls are taken to be handled one after
    the other, a write being in the store before the next call reads. *)
Theorem published_page_is_served (key : jsstring) (body : option json) (now : jsstring)
    (db db' : option Database) (served : Served) (fields : list (jsstring * jsstring)) :
  create_page key body now db = (Ret served, db') ->
  answer served = json_answer 201 fields ->
  exists b,
    body = Some b
    /\ served = created_answer key (generateEtag sha256_hex (decoded b))
    /\ (exists hs,
          render_page key None db'
          = Ret {| answer := body_answer 200 (Some (decoded b)); headers_set := hs |}
          /\ In (js "ETag", generateEtag sha256_hex (decoded b)) hs
          /\ (forall h, In h SECURITY_HEADERS -> In h hs))
    /\ (exists hs,
          render_raw key None db'
          = Ret {| answer := body_answer 200 (Some (decoded b)); headers_set := hs |}
          /\ In (js "ETag", generateEtag sha256_hex (decoded b)) hs)
    /\ (~ In 44%N (sha256_hex (decoded b)) ->
        render_page key (Some (generateEtag sha256_hex (decoded b))) db'
        = Ret {| answer := body_answer 304 None; headers_set := [] |}).
Proof.
  intros Hc Ha.
  destruct (create_page_outcome key body now db)
    as [(status & error & Hs & E)|[(e & E & _)|(b & store & -> & Hid & Hb & -> & Hk & E)]];
    rewrite E in Hc.
  - injection Hc as <- _. simpl in Ha. injection Ha as -> _. lia.
  - discriminate.
  - injection Hc as <- <-. exists b. split; [reflexivity|]. split; [reflexivity|].
    assert (Hget : getPage key (Some (<[key := stored key b now]> store))
                   = Ret (Some (stored key b now))).
    { unfold getPage. simpl. now rewrite lookup_insert_eq. }
    split; [|split].
    + eexists. unfold Routes.render_page, render_with. rewrite Hid, Hget.
      cbn [mbind result_bind]. change (etagMatches None _) with false. cbv iota.
      split; [reflexivity|]. cbn [etag stored]. split.
      * apply in_app_iff. right. now left.
      * intros h Hh. apply in_app_iff. now left.
    + eexists. unfold Routes.render_raw, render_with. rewrite Hid, Hget.
      cbn [mbind result_bind]. change (etagMatches None _) with false. cbv iota.
      split; [reflexivity|]. cbn [etag stored]. right; right. now left.
    + intros Hcomma. unfold Routes.render_page, render_with. rewrite Hid, Hget.
      cbn [mbind result_bind]. cbn [etag stored].
      unfold generateEtag. cbv zeta.
      rewrite etagMatches_quoted by (intros H; apply Hcomma; now apply In_slice in H).
      now rewrite str_eqb_refl.
Qed.

(** X19.  No call of [create_page] changes or removes a page that is in
    the store: whatever the call is given and however it ends, every page
    read before is read after, the same.  A call for an id that is taken is
    answered 409 once its id and body are in order, and a call that is
    answered 400 or 409 leaves the whole store as it was.  (Calls handled
    one after the other, as above.) *)
Theorem stored_pages_are_kept (key : jsstring) (body : option json) (now : jsstring)
    (db : option Database) :
  (forall other p,
      getPage other db = Ret (Some p) ->
      getPage other (snd (create_page key body now db)) = Ret (Some p))
  /\ (forall b p,
        body = Some b -> validateId maxIdLength key = None ->
        validatePageBody from_base64 maxPayloadSize b = None ->
        getPage key db = Ret (Some p) ->
        create_page key body now db
        = (Ret (error_answer 409
                  (js "Page ID " ++ [quote] ++ key ++ [quote] ++ js " is already taken")),
           db))
  /\ (forall served status fields,
        fst (create_page key body now db) = Ret served ->
        answer served = json_answer status fields -> status <> 201 ->
        snd (create_page key body now db) = db).
Proof.
  split; [|split].
  - intros other p Hp.
    destruct (create_page_outcome key body now db)
      as [(status & error & Hs & E)|[(e & E & _)|(b & store & -> & Hid & Hb & -> & Hk & E)]];
      rewrite E; cbn [snd]; try assumption.
    unfold getPage in *. simpl in *. injection Hp as Hp.
    rewrite lookup_insert_ne; [now rewrite Hp|]. intros <-. congruence.
  - intros b p -> Hid Hb Hp. unfold Routes.create_page. rewrite Hid, Hb, Hp. reflexivity.
  - intros served status fields Hf Ha Hne.
    destruct (create_page_outcome key body now db)
      as [(st & error & Hs & E)|[(e & E & _)|(b & store & -> & Hid & Hb & -> & Hk & E)]];
      rewrite E in Hf |- *; cbn [fst snd] in *; try reflexivity.
    injection Hf as <-. simpl in Ha. injection Ha as <- _. contradiction.
Qed.

Lemma validateId_None (key : jsstring) :
  validateId maxIdLength key = None
  <-> key <> [] /\ Z.of_nat (List.length key) <= maxIdLength
      /\ forall c, In c key -> id_char c = true.
Proof using maxIdLength.
  unfold validateId, ID_PATTERN. destruct key as [|c key].
  { simpl. split; [discriminate|]. intros (H & _). now destruct H. }
  change (str_eqb (c :: key) []) with false. cbv iota. cbn [negb andb].
  destruct (Z.gtb_spec (Z.of_nat (List.length (c :: key))) maxIdLength) as [Hlen|Hlen].
  { split; [discriminate|]. intros (_ & H & _). lia. }
  destruct (forallb id_char (c :: key)) eqn:Hall; cbn [negb].
  - split; [|reflexivity]. intros _. split; [discriminate|]. split; [lia|].
    now apply forallb_forall.
  - split; [discriminate|]. intros (_ & _ & H).
    apply forallb_forall in H. congruence.
Qed.

(** X20.  Pages are stored and served under well-formed ids only.  A call
    of any of the three routes with an id that [validateId] refuses is
    answered 400 with the message of [validateId], before the store is read
    (so also when it is not open) and without a change to it; so when every
    page of the store sits under an id that [validateId] accepts and carries
    that id, the same holds after [create_page].  The ids accepted are the
    non-empty strings of at most [maxIdLength] characters, each a letter, a
    digit, a dot, an underscore or a hyphen. *)
Theorem only_valid_ids_are_stored (key : jsstring) (body : option json) (now : jsstring)
    (db : option Database) :
  (forall e ifNoneMatch,
      validateId maxIdLength key = Some e ->
      create_page key body now db = (Ret (error_answer 400 (message e)), db)
      /\ render_page key ifNoneMatch db = Ret (error_answer 400 (message e))
      /\ render_raw key ifNoneMatch db = Ret (error_answer 400 (message e)))
  /\ ((forall k p, getPage k db = Ret (Some p) ->
                   validateId maxIdLength k = None /\ Db.id p = k) ->
      forall k p, getPage k (snd (create_page key body now db)) = Ret (Some p) ->
                  validateId maxIdLength k = None /\ Db.id p = k)
  /\ (forall k,
        validateId maxIdLength k = None
        <-> k <> [] /\ Z.of_nat (List.length k) <= maxIdLength
            /\ forall c, In c k ->
                 is_upper c || is_lower c || is_digit c
                 || N.eqb c (chr ".") || N.eqb c (chr "_") || N.eqb c (chr "-") = true).
Proof.
  split; [|split].
  - intros e inm He.
    unfold Routes.create_page, Routes.render_page, Routes.render_raw, render_with.
    rewrite He. repeat split.
  - intros Hinv k p.
    destruct (create_page_outcome key body now db)
      as [(status & error & Hs & E)|[(e & E & _)|(b & store & -> & Hid & Hb & -> & Hk & E)]];
      rewrite E; cbn [snd]; try apply Hinv.
    unfold getPage. simpl. destruct (decide (k = key)) as [->|Hne].
    + rewrite lookup_insert_eq. intros [= <-]. now split.
    + rewrite lookup_insert_ne by congruence. intros Hp. apply Hinv.
      unfold getPage. simpl. exact Hp.
  - intros k. apply validateId_None.
Qed.

(** X21.  The file name that the raw route announces cannot break out of
    its header.  When the raw route serves a page (status 200), the page is
    the one stored under the id, the Content-Disposition header is
    [inline; filename="<id>.html"], and the id in it has passed
    [validateId]: it holds no double quote, no backslash, no slash and no
    carriage return or line feed. *)
Theorem raw_file_name_is_plain (key : jsstring) (ifNoneMatch : option jsstring)
    (db : option Database) (served : Served) (text : option jsstring) :
  render_raw key ifNoneMatch db = Ret served ->
  answer served = body_answer 200 text ->
  (exists p, getPage key db = Ret (Some p) /\ text = Some (html p)
             /\ In (js "ETag", etag p) (headers_set served))
  /\ In (js "Content-Disposition",
         js "inline; filename=" ++ [quote] ++ key ++ js ".html" ++ [quote])
        (headers_set served)
  /\ validateId maxIdLength key = None
  /\ ~ In quote key /\ ~ In (chr "\") key /\ ~ In (chr "/") key
  /\ ~ In 13%N key /\ ~ In 10%N key.
Proof using maxIdLength.
  unfold Routes.render_raw, render_with. intros Hr Ha.
  destruct (validateId maxIdLength key) as [e|] eqn:Hid.
  { injection Hr as <-. discriminate. }
  destruct (getPage key db) as [[p|]|e] eqn:Hp; cbn [mbind result_bind] in Hr.
  2:{ injection Hr as <-. discriminate. }
  2:{ discriminate. }
  destruct (etagMatches ifNoneMatch (etag p)).
  { injection Hr as <-. simpl in Ha. discriminate Ha. }
  injection Hr as <-. simpl in Ha. injection Ha as <-.
  split.
  { exists p. split; [reflexivity|]. split; [reflexivity|]. right; right; left. reflexivity. }
  split; [right; left; reflexivity|]. split; [reflexivity|].
  apply validateId_None in Hid. destruct Hid as (_ & _ & Hall).
  repeat split; intros Hin; apply Hall in Hin; vm_compute in Hin; discriminate.
Qed.

End Routes.

(** A body, in a store that is open and empty. *)
Definition hello : json := JObject [(js "html", JString (js "<p>hi</p>"))].

Definition digest : jsstring -> jsstring :=
  fun _ => js "2cf24dba5fb0a30e26e83b2ac5b9e29e1b161e5c1fa7425e73043362938b9824".

Lemma published_page_is_served_witness :
  exists hs,
    Routes.render_page 128 (js "hello") None
      (snd (Routes.create_page 128 524288 (js "http://localhost:3000") digest
              (fun _ => []) (fun b => b) (js "hello") (Some hello)
              (js "2024-01-01T00:00:00.000Z") (Some ∅)))
    = Ret {| answer := body_answer 200 (Some (js "<p>hi</p>")); headers_set := hs |}.
Proof.
  edestruct (published_page_is_served 128 524288 (js "http://localhost:3000") digest
               (fun _ => []) (fun b => b) (js "hello") (Some hello)
               (js "2024-01-01T00:00:00.000Z") (Some ∅))
    as (b & Hb & _ & (hs & Hr & _) & _); [reflexivity|reflexivity|].
  injection Hb as <-. exists hs. exact Hr.
Defined.

Lemma raw_file_name_is_plain_witness :
  ~ In quote (js "hello").
Proof.
  pose (db := snd (Routes.create_page 128 524288 (js "http://localhost:3000") digest
                     (fun _ => []) (fun b => b) (js "hello") (Some hello)
                     (js "2024-01-01T00:00:00.000Z") (Some ∅))).
  edestruct (raw_file_name_is_plain 128 (js "hello") None db)
    as (_ & _ & _ & H & _); [reflexivity|reflexivity|].
  exact H.
Defined.

End PagesFacts.
